(** * Price calculator: a shallow embedding of [PriceCalculator.tsx]

    The development embeds the price/layout engine of the print-shop price
    calculator (the functions [parsePrice], [parseSize], [getPaperTypeGroup],
    [calculatePriceForItem] and [handleCalculate] of the React component) and
    proves properties of it.

    Modelling conventions.
    - A JavaScript [number] is a value of the type [number] below: NaN, the two
      infinities, or a finite value carried as a rational.  Two arithmetics
      are given.  [JsNum] is exact: a finite result is not rounded, and
      [x / 0] takes the sign of [x].  [Binary64] ends every operation with the
      IEEE-754 rounding to the nearest double (ties to even, overflow to an
      infinity, underflow through the subnormal numbers to zero); the sign of
      zero is not kept, and no operation of the evaluator divides by a
      computed zero.  The evaluator is given in both: [calculatePriceForItem]
      in exact arithmetic, for the properties that rounding does not touch
      (symmetry, ranking, suggestions, the handler), and
      [Double.calculatePriceForItem] in double precision, for the properties
      that depend on the tolerance test or on the size of a price or a
      multiplier.
    - In double precision the loop that lists the layouts does not end when
      the square root of the piece count reaches 2^53 (the counter stops
      growing) or the piece count is infinite: an evaluation is a [Run],
      either [Returns] or [Diverges].
    - A JavaScript string is a byte string (UTF-8).  The character classes the
      source uses ([\d], [.], [,], [x], [*], [-]) are single bytes; white
      space ([\s], [trim], the start of [parseFloat] and [parseInt]) is the
      white space of ECMAScript, of one, two or three bytes; [toLowerCase]
      acts on ASCII letters only, the others having no ASCII lower case that
      the patterns of the source look for.
    - Display strings produced by [Intl.NumberFormat] and [toFixed] are not
      modelled; where the source stores a formatted price the model stores the
      number that is formatted.
    - [parseInt] yields NaN or an integer: it is modelled with [option Z], and
      in double precision with the double nearest to that integer.
    - [Array.prototype.sort] is modelled by the stable insertion of each
      element in turn: the order of every stable sort when the comparison
      function is consistent, that is, when no price is NaN.
    - The only exception the handler can raise, the TypeError of [push] on a
      group key inherited from [Object.prototype], ends the handler with the
      state as it was reset at the start. *)

From Stdlib Require Import ZArith QArith Qround Qabs Qpower Lqa Lia.
From Stdlib Require Import List String Ascii Bool.
From Stdlib Require Import Sorting.Permutation Sorting.Sorted.
From Stdlib Require Floats.SpecFloat.
Import ListNotations.

Local Open Scope Z_scope.

(* ================================================================== *)
(** ** JavaScript numbers *)

Module JsNum.

Inductive number : Type :=
| NaN
| Inf (negative : bool)
| Fin (q : Q).

Definition PInf : number := Inf false.
Definition NInf : number := Inf true.

Definition ofZ (z : Z) : number := Fin (inject_Z z).

(** [Number.MAX_VALUE] is (2^53 - 1) * 2^971. *)
Definition MAX_VALUE : number := ofZ (2 ^ 1024 - 2 ^ 971).

(** Ordering of two numbers; [None] when either is NaN (every comparison
    with NaN is false). *)
Definition ncompare (a b : number) : option comparison :=
  match a, b with
  | NaN, _ | _, NaN => None
  | Inf s, Inf t =>
      Some (match s, t with
            | false, true => Gt
            | true, false => Lt
            | _, _ => Eq
            end)
  | Inf s, Fin _ => Some (if s then Lt else Gt)
  | Fin _, Inf t => Some (if t then Gt else Lt)
  | Fin p, Fin q => Some (p ?= q)%Q
  end.

(** [a < b] *)
Definition nlt (a b : number) : bool :=
  match ncompare a b with Some Lt => true | _ => false end.

(** [a <= b] *)
Definition nle (a b : number) : bool :=
  match ncompare a b with Some Lt | Some Eq => true | _ => false end.

(** [a > b] *)
Definition ngt (a b : number) : bool := nlt b a.

(** [a >= b] *)
Definition nge (a b : number) : bool := nle b a.

(** [a === b] on numbers *)
Definition neq (a b : number) : bool :=
  match ncompare a b with Some Eq => true | _ => false end.

(** [a * b] *)
Definition nmul (a b : number) : number :=
  match a, b with
  | NaN, _ | _, NaN => NaN
  | Fin p, Fin q => Fin (p * q)
  | Inf s, Inf t => Inf (xorb s t)
  | Inf s, Fin q | Fin q, Inf s =>
      match (0 ?= q)%Q with
      | Eq => NaN
      | Lt => Inf s
      | Gt => Inf (negb s)
      end
  end.

(** [a / b] *)
Definition ndiv (a b : number) : number :=
  match a, b with
  | NaN, _ | _, NaN => NaN
  | Inf _, Inf _ => NaN
  | Inf s, Fin q =>
      match (0 ?= q)%Q with
      | Gt => Inf (negb s)
      | _ => Inf s
      end
  | Fin _, Inf _ => Fin 0
  | Fin p, Fin q =>
      match (0 ?= q)%Q with
      | Eq => match (0 ?= p)%Q with
              | Eq => NaN
              | Lt => Inf false
              | Gt => Inf true
              end
      | _ => Fin (p / q)
      end
  end.

(** [a - b] *)
Definition nsub (a b : number) : number :=
  match a, b with
  | NaN, _ | _, NaN => NaN
  | Inf s, Inf t => if Bool.eqb s t then NaN else Inf s
  | Inf s, Fin _ => Inf s
  | Fin _, Inf t => Inf (negb t)
  | Fin p, Fin q => Fin (p - q)
  end.

(** [Math.abs] *)
Definition abs (a : number) : number :=
  match a with
  | NaN => NaN
  | Inf _ => Inf false
  | Fin q => Fin (Qabs q)
  end.

(** [Math.ceil] *)
Definition ceil (a : number) : number :=
  match a with
  | Fin q => ofZ (Qceiling q)
  | _ => a
  end.

(** [Math.round]: the nearest integer, a tie going towards +infinity. *)
Definition qround (q : Q) : Z := Qfloor (q + (1 # 2))%Q.

Definition round (a : number) : number :=
  match a with
  | Fin q => ofZ (qround q)
  | _ => a
  end.

(** [Math.min(a, b)] and [Math.max(a, b)]: NaN when an argument is NaN. *)
Definition min (a b : number) : number :=
  match ncompare a b with
  | None => NaN
  | Some Gt => b
  | Some _ => a
  end.

Definition max (a b : number) : number :=
  match ncompare a b with
  | None => NaN
  | Some Lt => b
  | Some _ => a
  end.

(** Truthiness of a number: false for NaN and for zero. *)
Definition truthy (a : number) : bool :=
  match a with
  | NaN => false
  | Inf _ => true
  | Fin q => negb (Qeq_bool q 0)
  end.

Definition isNaN (a : number) : bool :=
  match a with NaN => true | _ => false end.


(** Two numbers denote the same value. *)
Definition same (a b : number) : Prop :=
  match a, b with
  | NaN, NaN => True
  | Inf s, Inf t => s = t
  | Fin p, Fin q => (p == q)%Q
  | _, _ => False
  end.

End JsNum.

Import JsNum.

Declare Scope js_scope.
Delimit Scope js_scope with js.
Bind Scope js_scope with number.
Infix "*" := nmul : js_scope.
Infix "/" := ndiv : js_scope.
Infix "-" := nsub : js_scope.
Infix "<?" := nlt : js_scope.
Infix "<=?" := nle : js_scope.
Infix ">?" := ngt : js_scope.
Infix ">=?" := nge : js_scope.
Infix "===" := neq (at level 70, no associativity) : js_scope.

(* ================================================================== *)
(** ** JavaScript strings *)

Module JsStr.

Local Open Scope char_scope.

Definition isDigit (c : ascii) : bool :=
  let n := N_of_ascii c in ((48 <=? n) && (n <=? 57))%N.

(** White space in one byte: TAB, LF, VT, FF, CR, SP. *)
Definition isSpace (c : ascii) : bool :=
  let n := N_of_ascii c in (((9 <=? n) && (n <=? 13)) || (n =? 32))%N.

(** White space in two bytes: U+00A0 (no-break space). *)
Definition isSpace2 (a b : ascii) : bool :=
  ((N_of_ascii a =? 194) && (N_of_ascii b =? 160))%N.

(** White space in three bytes: U+1680, U+2000 to U+200A, U+2028, U+2029,
    U+202F, U+205F, U+3000 and U+FEFF. *)
Definition isSpace3 (a b c : ascii) : bool :=
  let x := N_of_ascii a in
  let y := N_of_ascii b in
  let z := N_of_ascii c in
  (((x =? 225) && (y =? 154) && (z =? 128))
   || ((x =? 226) && (y =? 128)
       && (((128 <=? z) && (z <=? 138)) || (z =? 168) || (z =? 169) || (z =? 175)))
   || ((x =? 226) && (y =? 129) && (z =? 159))
   || ((x =? 227) && (y =? 128) && (z =? 128))
   || ((x =? 239) && (y =? 187) && (z =? 191)))%N.

Definition digitVal (c : ascii) : Z := Z.of_N (N_of_ascii c) - 48.

(** Keep the characters satisfying [p]: [s.replace(/[^p]/g, '')]. *)
Fixpoint keep (p : ascii -> bool) (s : string) : string :=
  match s with
  | EmptyString => EmptyString
  | String c r => if p c then String c (keep p r) else keep p r
  end.

(** [s.replace(a, b)] for one-character strings: the first occurrence only. *)
Fixpoint replaceFirst (a b : ascii) (s : string) : string :=
  match s with
  | EmptyString => EmptyString
  | String c r => if Ascii.eqb c a then String b r else String c (replaceFirst a b r)
  end.

(** [s.replace(pat, '')]: the first occurrence of the substring is removed. *)
Fixpoint removeFirst (pat s : string) : string :=
  match s with
  | EmptyString => EmptyString
  | String c r =>
      if prefix pat s
      then substring (String.length pat) (String.length s - String.length pat) s
      else String c (removeFirst pat r)
  end.

Definition lowerChar (c : ascii) : ascii :=
  let n := N_of_ascii c in
  if ((65 <=? n) && (n <=? 90))%N then ascii_of_N (n + 32) else c.

(** [s.toLowerCase()] *)
Fixpoint toLowerCase (s : string) : string :=
  match s with
  | EmptyString => EmptyString
  | String c r => String (lowerChar c) (toLowerCase r)
  end.

(** Longest prefix of characters satisfying [p], and the rest. *)
Fixpoint span (p : ascii -> bool) (s : string) : string * string :=
  match s with
  | EmptyString => (EmptyString, EmptyString)
  | String c r =>
      if p c then let '(a, b) := span p r in (String c a, b)
      else (EmptyString, s)
  end.

(** The rest of [s] after the white-space character it starts with. *)
Definition skipSpace (s : string) : option string :=
  match s with
  | String a r1 =>
      if isSpace a then Some r1
      else match r1 with
           | String b r2 =>
               if isSpace2 a b then Some r2
               else match r2 with
                    | String c r3 => if isSpace3 a b c then Some r3 else None
                    | EmptyString => None
                    end
           | EmptyString => None
           end
  | EmptyString => None
  end.

(** Drop leading white space. *)
Fixpoint trimStart (s : string) : string :=
  match s with
  | String a r1 =>
      if isSpace a then trimStart r1
      else match r1 with
           | String b r2 =>
               if isSpace2 a b then trimStart r2
               else match r2 with
                    | String c r3 => if isSpace3 a b c then trimStart r3 else s
                    | EmptyString => s
                    end
           | EmptyString => s
           end
  | EmptyString => EmptyString
  end.

(** Drop trailing white space: nothing is left of a string of white space,
    and otherwise the first byte stays. *)
Fixpoint trimEnd (s : string) : string :=
  match s with
  | EmptyString => EmptyString
  | String c r =>
      match trimStart s with
      | EmptyString => EmptyString
      | _ => String c (trimEnd r)
      end
  end.

(** [s.replace(/\s/g, '')] *)
Fixpoint removeSpaces (s : string) : string :=
  match s with
  | String a r1 =>
      if isSpace a then removeSpaces r1
      else match r1 with
           | String b r2 =>
               if isSpace2 a b then removeSpaces r2
               else match r2 with
                    | String c r3 =>
                        if isSpace3 a b c then removeSpaces r3
                        else String a (removeSpaces r1)
                    | EmptyString => String a (removeSpaces r1)
                    end
           | EmptyString => String a (removeSpaces r1)
           end
  | EmptyString => EmptyString
  end.

(** [s.trim()] *)
Definition trim (s : string) : string := trimEnd (trimStart s).

(** [s.split(sep)[0]]: the part before the first separator. *)
Fixpoint beforeFirst (sep : ascii) (s : string) : string :=
  match s with
  | EmptyString => EmptyString
  | String c r => if Ascii.eqb c sep then EmptyString else String c (beforeFirst sep r)
  end.

(** [s.includes(pat)] *)
Fixpoint includes (pat s : string) : bool :=
  prefix pat s ||
  match s with
  | EmptyString => false
  | String _ r => includes pat r
  end.

(** Value of a string of decimal digits, most significant first. *)
Fixpoint digitsVal (acc : Z) (s : string) : Z :=
  match s with
  | EmptyString => acc
  | String c r => digitsVal (acc * 10 + digitVal c) r
  end.

Definition isEmpty (s : string) : bool :=
  match s with EmptyString => true | _ => false end.

(** The exponent part [e|E (+|-)? digits+] at the head of [s], if any. *)
Definition scanExponent (s : string) : Z :=
  match s with
  | String c r =>
      if Ascii.eqb c "e" || Ascii.eqb c "E" then
        match r with
        | String "-" r' =>
            let '(d, _) := span isDigit r' in
            if isEmpty d then 0 else - digitsVal 0 d
        | String "+" r' =>
            let '(d, _) := span isDigit r' in
            if isEmpty d then 0 else digitsVal 0 d
        | _ =>
            let '(d, _) := span isDigit r in
            if isEmpty d then 0 else digitsVal 0 d
        end
      else 0
  | EmptyString => 0
  end.

(** The longest prefix of [s] that is an unsigned decimal literal
    ([digits], [digits.], [digits.digits], [.digits], each with an optional
    exponent), as a rational; [None] when there is no such prefix. *)
Definition scanDecimal (s : string) : option Q :=
  let '(d1, r1) := span isDigit s in
  let '(d2, r2) :=
    match r1 with
    | String "." t => span isDigit t
    | _ => (EmptyString, r1)
    end in
  if isEmpty d1 && isEmpty d2 then None
  else
    let mant := (inject_Z (digitsVal 0 d1)
                 + inject_Z (digitsVal 0 d2) / inject_Z (10 ^ Z.of_nat (String.length d2)))%Q in
    Some (mant * Qpower 10 (scanExponent r2))%Q.

Definition parseUnsigned (s : string) : number :=
  if prefix "Infinity" s then PInf
  else match scanDecimal s with
       | Some q => Fin q
       | None => NaN
       end.

Definition negate (a : number) : number :=
  match a with
  | NaN => NaN
  | Inf s => Inf (negb s)
  | Fin q => Fin (- q)
  end.

(** [parseFloat(s)] *)
Definition parseFloat (s : string) : number :=
  match trimStart s with
  | String "-" r => negate (parseUnsigned r)
  | String "+" r => parseUnsigned r
  | t => parseUnsigned t
  end.

Definition isHexDigit (c : ascii) : bool :=
  let n := N_of_ascii c in
  (isDigit c || ((65 <=? n) && (n <=? 70)) || ((97 <=? n) && (n <=? 102)))%N.

Definition hexVal (c : ascii) : Z :=
  let n := Z.of_N (N_of_ascii c) in
  (if isDigit c then n - 48
   else if n <=? 70 then n - 55 else n - 87)%Z.

Fixpoint hexDigitsVal (acc : Z) (s : string) : Z :=
  match s with
  | EmptyString => acc
  | String c r => hexDigitsVal (acc * 16 + hexVal c) r
  end.

(** Unsigned part of [parseInt] with no radix argument: a [0x]/[0X] prefix
    selects base 16, otherwise base 10; [None] (NaN) without a digit. *)
Definition parseIntUnsigned (s : string) : option Z :=
  if prefix "0x" s || prefix "0X" s then
    let '(d, _) := span isHexDigit (substring 2 (String.length s - 2) s) in
    if isEmpty d then None else Some (hexDigitsVal 0 d)
  else
    let '(d, _) := span isDigit s in
    if isEmpty d then None else Some (digitsVal 0 d).

(** [parseInt(s)] *)
Definition parseInt (s : string) : option Z :=
  match trimStart s with
  | String "-" r => option_map Z.opp (parseIntUnsigned r)
  | String "+" r => parseIntUnsigned r
  | t => parseIntUnsigned t
  end.

End JsStr.

Import JsStr.

(* ================================================================== *)
(** ** The price calculator *)

Local Open Scope string_scope.
Local Open Scope Z_scope.

(** [PriceItem] of [types.ts]: every field is free text. *)
Record PriceItem : Type := {
  kategori : string;
  ebat : string;
  kod : string;
  aciklama : string;
  miktar : string;
  fiyat : string
}.

(** The [strategy] tag of a result: ['formula' | 'multiplier' | 'standard']. *)
Inductive Strategy : Type := Formula | Multiplier | Standard.

(** The [details] object: [{userW_mm, userH_mm}] on the formula path,
    [{multiplier, qtyRatio}] on the multiplier path. *)
Inductive Details : Type :=
| FormulaDetails (userW_mm userH_mm : number)
| MultiplierDetails (mult qtyRatio : number).

(** The object returned by [calculatePriceForItem]. *)
Module Outcome.
Record t : Type := {
  price : number;
  strategy : Strategy;
  needsCut : bool;
  details : Details;
  baseDims : option (number * number)
}.
End Outcome.

(** Categories that use the multiplier/cut logic. *)
Definition MULTIPLIER_CATEGORIES : list string :=
  ["Kartvizit"; "Broşür"; "El İlanı"; "Etiket"; "Magnet"; "200 Gr. Kuşe"].

(** Standard quantities of the drop-down. *)
Definition QUANTITY_OPTIONS : list Z :=
  [1000; 2000; 3000; 4000; 5000; 6000; 8000; 10000; 12000; 20000].

(** [Array.prototype.includes] on strings. *)
Definition includesStr (l : list string) (x : string) : bool :=
  existsb (String.eqb x) l.

Definition isDot (c : ascii) : bool := Ascii.eqb c ".".
Definition isComma (c : ascii) : bool := Ascii.eqb c ",".
Definition isDigitOrDot (c : ascii) : bool := isDigit c || isDot c.

(** [priceStr.replace(/\./g, '').replace(/[^\d,]/g, '').replace(',', '.')],
    then [parseFloat]. *)
Definition parsePrice (priceStr : string) : number :=
  parseFloat
    (replaceFirst "," "."
       (keep (fun c => isDigit c || isComma c)
          (keep (fun c => negb (isDot c)) priceStr))).

(** The two capture groups of [/^([\d.]+)[x*]([\d.]+)/] on [clean]. *)
Definition matchSize (clean : string) : option (string * string) :=
  let '(g1, r1) := span isDigitOrDot clean in
  if isEmpty g1 then None
  else
    match r1 with
    | String c r2 =>
        if Ascii.eqb c "x" || Ascii.eqb c "*" then
          let '(g2, _) := span isDigitOrDot r2 in
          if isEmpty g2 then None else Some (g1, g2)
        else None
    | EmptyString => None
    end.

Definition parseSize (sizeStr : string) : option (number * number) :=
  let clean :=
    removeFirst "cm" (removeSpaces (toLowerCase sizeStr)) in
  match matchSize clean with
  | Some (g1, g2) => Some (parseFloat g1, parseFloat g2)
  | None => None
  end.

(** Clean description to group by paper type. *)
Definition getPaperTypeGroup (desc cat : string) : string :=
  if String.eqb cat "Magnet" then "Magnet"
  else trim (beforeFirst "-" desc).

(** [parseInt(item.miktar.replace(/[^\d]/g, ''))] *)
Definition parseMiktar (item : PriceItem) : option Z :=
  parseInt (keep isDigit (miktar item)).

(** Strict tolerance (0.5 mm) of the initial calculation. *)
Definition TOLERANCE : number := Fin 0.5.

Definition checkFit (u b : number) : bool :=
  let r := (u / b)%js in
  let rnd := round r in
  (abs (r - rnd) * b <=? TOLERANCE)%js.

(** The orientation checks: the pair [(isStandardImposition,
    imposedMultiplier)] after the [if / else if]. *)
Definition standardImposition (userW userH baseW baseH : number)
  : bool * number :=
  if checkFit userW baseW && checkFit userH baseH then
    let rW := max (ofZ 1) (round (userW / baseW)) in
    let rH := max (ofZ 1) (round (userH / baseH)) in
    (true, (rW * rH)%js)
  else if checkFit userW baseH && checkFit userH baseW then
    let rW := max (ofZ 1) (round (userW / baseH)) in
    let rH := max (ofZ 1) (round (userH / baseW)) in
    (true, (rW * rH)%js)
  else (false, ofZ 0).

(** The factor pairs [{r: i, c: ratioInt / i}] pushed by the loop
    [for (i = 1; i <= Math.sqrt(ratioInt); i++) if (ratioInt % i === 0)];
    for integers, [i <= Math.sqrt(n)] is [i <= Z.sqrt n], which is [0] when
    [n] is negative (where [Math.sqrt] is NaN and the loop does not run). *)
Definition layouts (ratioInt : Z) : list (Z * Z) :=
  flat_map
    (fun k : nat =>
       let i := Z.of_nat k in
       if Z.rem ratioInt i =? 0 then [(i, Z.quot ratioInt i)] else [])
    (seq 1 (Z.to_nat (Z.sqrt ratioInt))).

(** One iteration of the loop over the layouts. *)
Definition layoutStep (userW userH baseW baseH : number)
  (bestTotalMolds : number) (rc : Z * Z) : number :=
  let '(r, c) := rc in
  let totalW1 := (userW * ofZ c)%js in
  let totalH1 := (userH * ofZ r)%js in
  let m1 := (ceil (totalW1 / baseW) * ceil (totalH1 / baseH))%js in
  let m2 := (ceil (totalW1 / baseH) * ceil (totalH1 / baseW))%js in
  let totalW2 := (userW * ofZ r)%js in
  let totalH2 := (userH * ofZ c)%js in
  let m3 := (ceil (totalW2 / baseW) * ceil (totalH2 / baseH))%js in
  let m4 := (ceil (totalW2 / baseH) * ceil (totalH2 / baseW))%js in
  min (min (min (min bestTotalMolds m1) m2) m3) m4.

(** The custom-fit branch: the least number of molds over the layouts of
    [ratioInt = Math.ceil(qtyRatio)], starting from [Number.MAX_VALUE]. *)
Definition bestTotalMolds (userW userH baseW baseH : number) (qtyRatio : Q)
  : number :=
  let ratioInt := Qceiling qtyRatio in
  fold_left (layoutStep userW userH baseW baseH) (layouts ratioInt) MAX_VALUE.

(** [BASE_W], [BASE_H] in cm: the fixed business-card size for Kartvizit and
    Etiket, the parsed size label otherwise, [0] when that does not parse. *)
Definition baseSizeCm (item : PriceItem) : number * number :=
  if String.eqb (kategori item) "Kartvizit" || String.eqb (kategori item) "Etiket"
  then (Fin 8.6, Fin 5.4)
  else match parseSize (ebat item) with
       | Some s => s
       | None => (ofZ 0, ofZ 0)
       end.

(** [parseInt(item.miktar.replace(/[^\d]/g, '')) || 1000] *)
Definition itemQtyOf (item : PriceItem) : Z :=
  match parseMiktar item with
  | Some z => if z =? 0 then 1000 else z
  | None => 1000
  end.

(** Core calculation for a single item and the user inputs.  [targetQty] is
    an integer at every call: a parsed quantity that passed the validation of
    [handleCalculate], or an element of [QUANTITY_OPTIONS]. *)
Definition calculatePriceForItem (item : PriceItem)
  (userW_mm userH_mm : number) (targetQty : Z) : option Outcome.t :=
  (* 1. Magnet formula *)
  if String.eqb (kategori item) "Magnet" && String.eqb (kod item) "MGN" then
    let basePrice := (userW_mm * userH_mm * Fin 0.21)%js in
    let total := (basePrice * (ofZ targetQty / ofZ 1000))%js in
    Some {| Outcome.price := total;
            Outcome.strategy := Formula;
            Outcome.needsCut := true;
            Outcome.details := FormulaDetails userW_mm userH_mm;
            Outcome.baseDims := None |}
  (* 2. Multiplier / cut logic *)
  else if includesStr MULTIPLIER_CATEGORIES (kategori item) then
    let '(BASE_W, BASE_H) := baseSizeCm item in
    if (BASE_W === ofZ 0)%js || (BASE_H === ofZ 0)%js then None
    else
      let itemQty := itemQtyOf item in
      let qtyRatio := (inject_Z targetQty / inject_Z itemQty)%Q in
      let baseW_mm := (BASE_W * ofZ 10)%js in
      let baseH_mm := (BASE_H * ofZ 10)%js in
      let '(isStandardImposition, imposedMultiplier) :=
        standardImposition userW_mm userH_mm baseW_mm baseH_mm in
      let multiplier :=
        if isStandardImposition
        then ceil (imposedMultiplier * Fin qtyRatio)
        else bestTotalMolds userW_mm userH_mm baseW_mm baseH_mm qtyRatio in
      let basePrice := parsePrice (fiyat item) in
      Some {| Outcome.price := (basePrice * multiplier)%js;
              Outcome.strategy := Multiplier;
              Outcome.needsCut := negb isStandardImposition;
              Outcome.details := MultiplierDetails multiplier (Fin qtyRatio);
              Outcome.baseDims := Some (baseW_mm, baseH_mm) |}
  else None.

(* ------------------------------------------------------------------ *)
(** *** The evaluator in double precision *)

(** The numbers of the source are IEEE-754 doubles.  [Binary64] rounds the
    exact result of an operation to the nearest double (ties to even, overflow
    to an infinity, underflow through the subnormal numbers to zero), and
    [Double] is the evaluator again with every arithmetic operation followed
    by that rounding.  [Math.round], [Math.ceil], [Math.abs], [Math.min],
    [Math.max] and the comparisons are exact on doubles and are those of
    [JsNum]. *)

Module Binary64.

(** [floor (log2 x)] for a positive rational [x]. *)
Definition ilog2 (x : Q) : Z :=
  let e0 := Z.log2 (Qnum x) - Z.log2 (Zpos (Qden x)) in
  if Qle_bool (Qpower 2 e0) x then e0 else e0 - 1.

(** The integer nearest to a rational, a tie going to the even one. *)
Definition rne (t : Q) : Z :=
  let f := Qfloor t in
  match ((t - inject_Z f) ?= 1 # 2)%Q with
  | Lt => f
  | Gt => f + 1
  | Eq => if Z.even f then f else f + 1
  end.

(** The unit in the last place of the doubles around a positive rational:
    [2^(e - 52)], with [e] the binary exponent, at least [-1022]. *)
Definition ulp (a : Q) : Q := Qpower 2 (Z.max (ilog2 a) (-1022) - 52).

(** The multiple of the unit in the last place nearest to a positive
    rational. *)
Definition nearest (a : Q) : Q := (inject_Z (rne (a / ulp a)) * ulp a)%Q.

(** A positive rational rounded to the nearest double; [None] on overflow. *)
Definition roundPos (a : Q) : option Q :=
  if Qle_bool (Qpower 2 1024) (nearest a) then None else Some (nearest a).

(** The double nearest to a rational (round to nearest, ties to even). *)
Definition roundQ (x : Q) : number :=
  match (0 ?= x)%Q with
  | Eq => Fin 0
  | Lt => match roundPos x with Some y => Fin y | None => Inf false end
  | Gt => match roundPos (- x) with Some y => Fin (- y) | None => Inf true end
  end.

(** The rounding step that ends every arithmetic operation. *)
Definition rnd (a : number) : number :=
  match a with
  | Fin q => roundQ q
  | _ => a
  end.

(** [a * b], [a / b] and [a - b] on doubles. *)
Definition mul (a b : number) : number := rnd (a * b)%js.
Definition div (a b : number) : number := rnd (a / b)%js.
Definition sub (a b : number) : number := rnd (a - b)%js.

(** A decimal literal of the source. *)
Definition lit (q : Q) : number := roundQ q.

(** [Math.sqrt] of a rational: [None] stands for NaN. *)
Definition sqrtPos (a : Q) : Q :=
  let e := (ilog2 a) / 2 in
  let u := Qpower 2 (e - 52) in
  let t := (a / (u * u))%Q in
  let m := Z.sqrt (Qfloor t) in
  let up :=
    match (inject_Z ((2 * m + 1) * (2 * m + 1)) ?= 4 * t)%Q with
    | Lt => true
    | Eq => Z.odd m
    | Gt => false
    end in
  (inject_Z (if up then m + 1 else m) * u)%Q.

Definition sqrt (a : number) : number :=
  match a with
  | NaN => NaN
  | Inf true => NaN
  | Inf false => Inf false
  | Fin q =>
      match (0 ?= q)%Q with
      | Eq => Fin 0
      | Lt => Fin (sqrtPos q)
      | Gt => NaN
      end
  end.

End Binary64.

(** A float of the Standard Library's specification of IEEE-754
    ([SpecFloat]) as a number, to compare [Binary64] with it. *)
Definition ofSpec (f : SpecFloat.spec_float) : number :=
  match f with
  | SpecFloat.S754_zero _ => Fin 0
  | SpecFloat.S754_infinity s => Inf s
  | SpecFloat.S754_nan => NaN
  | SpecFloat.S754_finite s m e =>
      Fin ((if s then - inject_Z (Zpos m) else inject_Z (Zpos m)) * Qpower 2 e)
  end.

(** The double [m * 2^e] of [SpecFloat]. *)
Definition specOf (m e : Z) : SpecFloat.spec_float :=
  SpecFloat.binary_normalize 53 1024 m e false.

(** The outcome of running code that may loop forever. *)
Inductive Run (A : Type) : Type :=
| Returns (a : A)
| Diverges.
Arguments Returns {A} a.
Arguments Diverges {A}.

Module Double.

Import Binary64.

(** [parseFloat(s)]: the double nearest to the decimal that is read. *)
Definition parseFloat (s : string) : number := rnd (JsStr.parseFloat s).

(** [parseInt(s)] as a number: NaN without a digit, else the double nearest
    to the integer that is read. *)
Definition parseInt (s : string) : number :=
  match JsStr.parseInt s with
  | Some z => rnd (ofZ z)
  | None => NaN
  end.

Definition parsePrice (priceStr : string) : number :=
  parseFloat
    (replaceFirst "," "."
       (keep (fun c => isDigit c || isComma c)
          (keep (fun c => negb (isDot c)) priceStr))).

Definition parseSize (sizeStr : string) : option (number * number) :=
  let clean :=
    removeFirst "cm" (removeSpaces (toLowerCase sizeStr)) in
  match matchSize clean with
  | Some (g1, g2) => Some (parseFloat g1, parseFloat g2)
  | None => None
  end.

(** Strict tolerance (0.5 mm): the literal is a double. *)
Definition TOLERANCE : number := Fin 0.5.

(** [Math.abs(r - round) * b] of [checkFit]: the distance, as the code
    measures it, from [u] to the nearest multiple of [b]. *)
Definition deviation (u b : number) : number :=
  let r := div u b in
  let round := round r in
  mul (abs (sub r round)) b.

Definition checkFit (u b : number) : bool :=
  (deviation u b <=? TOLERANCE)%js.

Definition standardImposition (userW userH baseW baseH : number)
  : bool * number :=
  if checkFit userW baseW && checkFit userH baseH then
    let rW := max (ofZ 1) (round (div userW baseW)) in
    let rH := max (ofZ 1) (round (div userH baseH)) in
    (true, mul rW rH)
  else if checkFit userW baseH && checkFit userH baseW then
    let rW := max (ofZ 1) (round (div userW baseH)) in
    let rH := max (ofZ 1) (round (div userH baseW)) in
    (true, mul rW rH)
  else (false, ofZ 0).

(** The loop [for (i = 1; i <= Math.sqrt(ratioInt); i++)] with its pushes.
    The counter is a double: from 2^53 on, [i++] leaves it unchanged, so the
    loop never ends when [Math.sqrt(ratioInt)] is 2^53 or more. *)
Definition layouts (ratioInt : number) : Run (list (Z * Z)) :=
  match sqrt ratioInt, ratioInt with
  | Fin s, Fin n =>
      if Qle_bool (inject_Z (2 ^ 53)) s then Diverges
      else
        Returns
          (flat_map
             (fun k : nat =>
                let i := Z.of_nat k in
                if Z.rem (Qfloor n) i =? 0 then [(i, Z.quot (Qfloor n) i)] else [])
             (seq 1 (Z.to_nat (Qfloor s))))
  | Inf false, _ => Diverges
  | _, _ => Returns []
  end.

Definition layoutStep (userW userH baseW baseH : number)
  (bestTotalMolds : number) (rc : Z * Z) : number :=
  let '(r, c) := rc in
  let totalW1 := mul userW (ofZ c) in
  let totalH1 := mul userH (ofZ r) in
  let m1 := mul (ceil (div totalW1 baseW)) (ceil (div totalH1 baseH)) in
  let m2 := mul (ceil (div totalW1 baseH)) (ceil (div totalH1 baseW)) in
  let totalW2 := mul userW (ofZ r) in
  let totalH2 := mul userH (ofZ c) in
  let m3 := mul (ceil (div totalW2 baseW)) (ceil (div totalH2 baseH)) in
  let m4 := mul (ceil (div totalW2 baseH)) (ceil (div totalH2 baseW)) in
  min (min (min (min bestTotalMolds m1) m2) m3) m4.

Definition bestTotalMolds (userW userH baseW baseH qtyRatio : number)
  : Run number :=
  let ratioInt := ceil qtyRatio in
  match layouts ratioInt with
  | Returns l => Returns (fold_left (layoutStep userW userH baseW baseH) l MAX_VALUE)
  | Diverges => Diverges
  end.

Definition baseSizeCm (item : PriceItem) : number * number :=
  if String.eqb (kategori item) "Kartvizit" || String.eqb (kategori item) "Etiket"
  then (lit 8.6, lit 5.4)
  else match parseSize (ebat item) with
       | Some s => s
       | None => (ofZ 0, ofZ 0)
       end.

(** [parseInt(item.miktar.replace(/[^\d]/g, '')) || 1000] *)
Definition itemQtyOf (item : PriceItem) : number :=
  let n := parseInt (keep isDigit (miktar item)) in
  if truthy n then n else ofZ 1000.

Definition calculatePriceForItem (item : PriceItem)
  (userW_mm userH_mm targetQty : number) : Run (option Outcome.t) :=
  (* 1. Magnet formula *)
  if String.eqb (kategori item) "Magnet" && String.eqb (kod item) "MGN" then
    let basePrice := mul (mul userW_mm userH_mm) (lit 0.21) in
    let total := mul basePrice (div targetQty (ofZ 1000)) in
    Returns (Some {| Outcome.price := total;
                     Outcome.strategy := Formula;
                     Outcome.needsCut := true;
                     Outcome.details := FormulaDetails userW_mm userH_mm;
                     Outcome.baseDims := None |})
  (* 2. Multiplier / cut logic *)
  else if includesStr MULTIPLIER_CATEGORIES (kategori item) then
    let '(BASE_W, BASE_H) := baseSizeCm item in
    if (BASE_W === ofZ 0)%js || (BASE_H === ofZ 0)%js then Returns None
    else
      let itemQty := itemQtyOf item in
      let qtyRatio := div targetQty itemQty in
      let baseW_mm := mul BASE_W (ofZ 10) in
      let baseH_mm := mul BASE_H (ofZ 10) in
      let '(isStandardImposition, imposedMultiplier) :=
        standardImposition userW_mm userH_mm baseW_mm baseH_mm in
      let result multiplier :=
        let basePrice := parsePrice (fiyat item) in
        Some {| Outcome.price := mul basePrice multiplier;
                Outcome.strategy := Multiplier;
                Outcome.needsCut := negb isStandardImposition;
                Outcome.details := MultiplierDetails multiplier qtyRatio;
                Outcome.baseDims := Some (baseW_mm, baseH_mm) |} in
      if isStandardImposition
      then Returns (result (ceil (mul imposedMultiplier qtyRatio)))
      else
        match bestTotalMolds userW_mm userH_mm baseW_mm baseH_mm qtyRatio with
        | Returns m => Returns (result m)
        | Diverges => Diverges
        end
  else Returns None.

End Double.

(* ------------------------------------------------------------------ *)
(** *** Results and suggestions *)

(** The [sizeSuggestion] object.  [savingAmount] is the number handed to
    [formatPrice]; the display strings [formattedPrice] and [wasteAmt] are
    left out. *)
Module Suggestion.
Record t : Type := {
  w_mm : number;
  h_mm : number;
  price : number;
  savingAmount : number;
  savingPercent : number;
  isSamePrice : bool
}.
End Suggestion.

(** [{ qty, price }] of [prevQty] / [nextQty]; [qtyPrice] is the number
    handed to [formatPrice]. *)
Record QtySuggestion : Type := {
  qty : Z;
  qtyPrice : number
}.

Record CalculationResult : Type := {
  paperName : string;
  strategy : Strategy;
  matchItem : PriceItem;
  calculatedPrice : number;
  isExact : bool;
  needsCut : bool;
  details : Details;
  baseDims : option (number * number);
  prevQty : option QtySuggestion;
  nextQty : option QtySuggestion;
  sizeSuggestion : option Suggestion.t
}.

(** The component state written by [handleCalculate]. *)
Record State : Type := {
  results : list CalculationResult;
  error : option string
}.

Definition MSG_INVALID_INPUT : string :=
  "Lütfen geçerli ebat ve adet giriniz.".

Definition MSG_NO_RESULTS : string :=
  "Bu kriterlere uygun sonuç bulunamadı. Lütfen ebat veya adet değiştirin.".

(** [parseInt(i.miktar.replace(/[^\d]/g, '')) === q] *)
Definition miktarIs (q : Z) (i : PriceItem) : bool :=
  match parseMiktar i with
  | Some z => z =? q
  | None => false
  end.

(** The loop that finds the best price among all candidates of a group. *)
Definition bestCandidate (items : list PriceItem) (w_mm h_mm : number)
  (targetQty : Z) : option (Outcome.t * PriceItem) :=
  fold_left
    (fun bestResult candidate =>
       match calculatePriceForItem candidate w_mm h_mm targetQty with
       | Some res =>
           match bestResult with
           | None => Some (res, candidate)
           | Some (bres, _) =>
               if (Outcome.price res <? Outcome.price bres)%js
               then Some (res, candidate)
               else bestResult
           end
       | None => bestResult
       end)
    items None.

(** 10 mm tolerance for searching suggestions. *)
Definition SNAP_TOLERANCE : number := ofZ 10.

Definition checkSnap (baseW baseH targetW targetH : number)
  : option (number * number) :=
  let multW := max (ofZ 1) (round (targetW / baseW)) in
  let multH := max (ofZ 1) (round (targetH / baseH)) in
  let snapW := (multW * baseW)%js in
  let snapH := (multH * baseH)%js in
  if (abs (targetW - snapW) <=? SNAP_TOLERANCE)%js
     && (abs (targetH - snapH) <=? SNAP_TOLERANCE)%js
  then
    if (abs (targetW - snapW) >=? Fin 0.5)%js
       || (abs (targetH - snapH) >=? Fin 0.5)%js
    then Some (snapW, snapH)
    else None
  else None.

(** [evaluateSuggestion(w, h)]: the new value of [bestSuggestion]. *)
Definition evaluateSuggestion (itemToUse : PriceItem) (targetQty : Z)
  (currentPrice : number) (currentNeedsCut : bool)
  (bestSuggestion : option Suggestion.t) (w h : number)
  : option Suggestion.t :=
  match calculatePriceForItem itemToUse w h targetQty with
  | Some res =>
      let isCheaper := (Outcome.price res <? currentPrice)%js in
      let isSamePriceButStandard :=
        (Outcome.price res === currentPrice)%js
        && currentNeedsCut && negb (Outcome.needsCut res) in
      if isCheaper || isSamePriceButStandard then
        if match bestSuggestion with
           | None => true
           | Some b => (Outcome.price res <=? Suggestion.price b)%js
           end
        then
          let percent :=
            if isCheaper
            then round ((currentPrice - Outcome.price res) / currentPrice * ofZ 100)
            else ofZ 0 in
          Some {| Suggestion.w_mm := w;
                  Suggestion.h_mm := h;
                  Suggestion.price := Outcome.price res;
                  Suggestion.savingAmount := (currentPrice - Outcome.price res)%js;
                  Suggestion.savingPercent := percent;
                  Suggestion.isSamePrice := isSamePriceButStandard |}
        else bestSuggestion
      else bestSuggestion
  | None => bestSuggestion
  end.

(** The item priced for one distinct size: the one of the target quantity,
    else the one of quantity 1000, else the first. *)
Definition itemForSize (sizeItems : list PriceItem) (targetQty : Z)
  : option PriceItem :=
  match find (miktarIs targetQty) sizeItems with
  | Some i => Some i
  | None =>
      match find (miktarIs 1000) sizeItems with
      | Some i => Some i
      | None => hd_error sizeItems
      end
  end.

(** Base size in mm used by the snap search. *)
Definition snapBase (category : string) (itemToUse : PriceItem)
  : number * number :=
  if String.eqb category "Kartvizit" || String.eqb category "Etiket"
  then (ofZ 86, ofZ 54)
  else match parseSize (ebat itemToUse) with
       | Some (w, h) => ((w * ofZ 10)%js, (h * ofZ 10)%js)
       | None => (ofZ 0, ofZ 0)
       end.

(** The body of [distinctSizes.forEach]: the new [bestSuggestion]. *)
Definition sizeStep (category : string) (items : list PriceItem)
  (w_mm h_mm : number) (targetQty : Z)
  (currentPrice : number) (currentNeedsCut : bool)
  (bestSuggestion : option Suggestion.t) (sStr : string)
  : option Suggestion.t :=
  let sizeItems := filter (fun i => String.eqb (ebat i) sStr) items in
  match itemForSize sizeItems targetQty with
  | None => bestSuggestion
  | Some itemToUse =>
      let '(baseW, baseH) := snapBase category itemToUse in
      if (baseW === ofZ 0)%js || (baseH === ofZ 0)%js then bestSuggestion
      else
        let evaluate :=
          evaluateSuggestion itemToUse targetQty currentPrice currentNeedsCut in
        (* direct orientation snap *)
        let best1 :=
          match checkSnap baseW baseH w_mm h_mm with
          | Some (sw, sh) => evaluate bestSuggestion sw sh
          | None => bestSuggestion
          end in
        (* rotated orientation snap *)
        let multW_rot := max (ofZ 1) (round (w_mm / baseH)) in
        let multH_rot := max (ofZ 1) (round (h_mm / baseW)) in
        let snapW_rot := (multW_rot * baseH)%js in
        let snapH_rot := (multH_rot * baseW)%js in
        if (abs (w_mm - snapW_rot) <=? SNAP_TOLERANCE)%js
           && (abs (h_mm - snapH_rot) <=? SNAP_TOLERANCE)%js
        then
          if (abs (w_mm - snapW_rot) >=? Fin 0.5)%js
             || (abs (h_mm - snapH_rot) >=? Fin 0.5)%js
          then evaluate best1 snapW_rot snapH_rot
          else best1
        else best1
  end.

(** [new Set(l)] iterated: the distinct strings in order of first
    occurrence. *)
Definition distinct (l : list string) : list string :=
  fold_left (fun acc x => if includesStr acc x then acc else (acc ++ [x])%list) l [].

(** The size-snap search of a group (not run for Magnet). *)
Definition sizeSuggestionFor (category : string) (items : list PriceItem)
  (w_mm h_mm : number) (targetQty : Z)
  (currentPrice : number) (currentNeedsCut : bool) : option Suggestion.t :=
  if negb (String.eqb category "Magnet") then
    fold_left
      (sizeStep category items w_mm h_mm targetQty currentPrice currentNeedsCut)
      (distinct (map ebat items)) None
  else None.

(** [findBestPriceForQty(targetQ)] *)
Definition findBestPriceForQty (items : list PriceItem) (w_mm h_mm : number)
  (targetQ : Z) : option number :=
  let qItems := filter (miktarIs targetQ) items in
  let qCandidates0 :=
    if (0 <? List.length qItems)%nat then qItems else filter (miktarIs 1000) items in
  let qCandidates :=
    match qCandidates0, items with
    | [], first :: _ => [first]
    | _, _ => qCandidates0
    end in
  let '(bestP, found) :=
    fold_left
      (fun '(bestP, found) cand =>
         match calculatePriceForItem cand w_mm h_mm targetQ with
         | Some r =>
             if (Outcome.price r <? bestP)%js then (Outcome.price r, true)
             else (bestP, found)
         | None => (bestP, found)
         end)
      qCandidates (MAX_VALUE, false) in
  if found then Some bestP else None.

(** [QUANTITY_OPTIONS.indexOf(q)]: the index, or [-1]. *)
Fixpoint indexOfFrom (i : Z) (l : list Z) (q : Z) : Z :=
  match l with
  | [] => -1
  | x :: r => if x =? q then i else indexOfFrom (i + 1) r q
  end.

Definition indexOf (l : list Z) (q : Z) : Z := indexOfFrom 0 l q.

Definition includesZ (l : list Z) (q : Z) : bool := existsb (Z.eqb q) l.

(** [prevQty]: the tier before the requested one. *)
Definition prevQtyFor (items : list PriceItem) (w_mm h_mm : number)
  (targetQty : Z) : option QtySuggestion :=
  let currentQtyIdx := indexOf QUANTITY_OPTIONS targetQty in
  if 0 <? currentQtyIdx then
    match nth_error QUANTITY_OPTIONS (Z.to_nat (currentQtyIdx - 1)) with
    | Some pQty =>
        match findBestPriceForQty items w_mm h_mm pQty with
        | Some pPrice => Some {| qty := pQty; qtyPrice := pPrice |}
        | None => None
        end
    | None => None (* not reached: the index is within the list *)
    end
  else None.

(** [nextQty]: the tier after the requested one, 4000 instead of 3000 when
    the request is 2000. *)
Definition nextQtyFor (items : list PriceItem) (w_mm h_mm : number)
  (targetQty : Z) : option QtySuggestion :=
  let currentQtyIdx := indexOf QUANTITY_OPTIONS targetQty in
  if currentQtyIdx <? Z.of_nat (List.length QUANTITY_OPTIONS) - 1 then
    match nth_error QUANTITY_OPTIONS (Z.to_nat (currentQtyIdx + 1)) with
    | Some nQty0 =>
        let nQty :=
          if (targetQty =? 2000) && (nQty0 =? 3000) then
            if includesZ QUANTITY_OPTIONS 4000 then 4000 else nQty0
          else nQty0 in
        match findBestPriceForQty items w_mm h_mm nQty with
        | Some nPrice => Some {| qty := nQty; qtyPrice := nPrice |}
        | None => None
        end
    | None => None (* not reached: the index is within the list *)
    end
  else None.

(** The body of [Object.entries(groups).forEach]: the result pushed for one
    group, if any. *)
Definition processGroup (category : string) (w_mm h_mm : number)
  (targetQty : Z) (entry : string * list PriceItem)
  : option CalculationResult :=
  let '(paperName, items) := entry in
  match bestCandidate items w_mm h_mm targetQty with
  | None => None
  | Some (calcResult, matchedItem) =>
      Some {| paperName := paperName;
              strategy := Outcome.strategy calcResult;
              matchItem := matchedItem;
              calculatedPrice := Outcome.price calcResult;
              isExact := negb (Outcome.needsCut calcResult);
              needsCut := Outcome.needsCut calcResult;
              details := Outcome.details calcResult;
              baseDims := Outcome.baseDims calcResult;
              prevQty := prevQtyFor items w_mm h_mm targetQty;
              nextQty := nextQtyFor items w_mm h_mm targetQty;
              sizeSuggestion :=
                sizeSuggestionFor category items w_mm h_mm targetQty
                  (Outcome.price calcResult) (Outcome.needsCut calcResult) |}
  end.

(* ------------------------------------------------------------------ *)
(** *** Grouping, ranking and the handler *)

(** The [groups] object, as its own properties in creation order. *)
Definition Groups : Type := list (string * list PriceItem).

(** Property names inherited from [Object.prototype].  For such a key
    [groups[key]] is already truthy, no array is created, and the call of
    [push] on the inherited value throws a TypeError. *)
Definition PROTOTYPE_KEYS : list string :=
  ["constructor"; "__proto__"; "hasOwnProperty"; "isPrototypeOf";
   "propertyIsEnumerable"; "toLocaleString"; "toString"; "valueOf";
   "__defineGetter__"; "__defineSetter__"; "__lookupGetter__";
   "__lookupSetter__"].

(** [if (!groups[key]) groups[key] = []; groups[key].push(item)] *)
Fixpoint addToGroup (key : string) (item : PriceItem) (groups : Groups)
  : Groups :=
  match groups with
  | [] => [(key, [item])]
  | (k, its) :: rest =>
      if String.eqb k key then (k, (its ++ [item])%list) :: rest
      else (k, its) :: addToGroup key item rest
  end.

(** The body of [categoryItems.forEach]; [None] once a TypeError has been
    thrown. *)
Definition groupStep (category : string) (groups : option Groups)
  (item : PriceItem) : option Groups :=
  match groups with
  | None => None
  | Some g =>
      let groupKey0 := getPaperTypeGroup (aciklama item) category in
      let skip_key :=
        if String.eqb category "Magnet" then
          if negb (String.eqb (kod item) "MGN") then (true, groupKey0)
          else (false, "Özel Ebat Magnet")
        else (false, groupKey0) in
      let '(skip, groupKey) := skip_key in
      if skip then Some g
      else if includesStr PROTOTYPE_KEYS groupKey then None
      else Some (addToGroup groupKey item g)
  end.

(** A key that is an array index ("0", "1", ... up to 2^32 - 2 in canonical
    decimal form): [Object.entries] lists these first, in ascending order. *)
Definition isArrayIndex (k : string) : bool :=
  negb (isEmpty k)
  && String.eqb (keep isDigit k) k
  && (String.eqb k "0" || negb (prefix "0" k))
  && (digitsVal 0 k <=? 4294967294).

Fixpoint insertIndexed (e : string * list PriceItem) (l : Groups) : Groups :=
  match l with
  | [] => [e]
  | f :: r =>
      if digitsVal 0 (fst e) <? digitsVal 0 (fst f) then e :: f :: r
      else f :: insertIndexed e r
  end.

(** [Object.entries(groups)] *)
Definition objectEntries (groups : Groups) : Groups :=
  (fold_right insertIndexed [] (filter (fun e => isArrayIndex (fst e)) groups)
   ++ filter (fun e => negb (isArrayIndex (fst e))) groups)%list.

(** Priority of the sort: 115 gr Broşür at top. *)
Definition isPrio (a : CalculationResult) : bool :=
  String.eqb (kategori (matchItem a)) "Broşür" && includes "115" (paperName a).

(** The comparison function handed to [sort]. *)
Definition comparator (a b : CalculationResult) : number :=
  if isPrio a && negb (isPrio b) then ofZ (-1)
  else if negb (isPrio a) && isPrio b then ofZ 1
  else (calculatedPrice a - calculatedPrice b)%js.

(** [Array.prototype.sort] is stable and, for a consistent comparison
    function, fully determined; it is modelled by the stable insertion sort
    that moves [a] after [b] exactly when [comparator(a, b) > 0]. *)
Fixpoint insertSorted (x : CalculationResult) (l : list CalculationResult)
  : list CalculationResult :=
  match l with
  | [] => [x]
  | y :: r =>
      if (comparator x y >? ofZ 0)%js then y :: insertSorted x r
      else x :: y :: r
  end.

Definition sortResults (l : list CalculationResult) : list CalculationResult :=
  fold_right insertSorted [] l.

(** Truthiness of a [parseInt] result. *)
Definition truthyInt (o : option Z) : bool :=
  match o with
  | Some z => negb (z =? 0)
  | None => false
  end.

(** Steps 1 and 2 of [handleCalculate]: filter by category and group by
    paper type; [None] when the grouping throws. *)
Definition groupItems (data : list PriceItem) (category : string)
  : option Groups :=
  let categoryItems := filter (fun i => String.eqb (kategori i) category) data in
  fold_left (groupStep category) categoryItems (Some []).

(** Step 3: the results pushed while iterating over the groups. *)
Definition calculatedResults (groups : Groups) (category : string)
  (w_mm h_mm : number) (targetQty : Z) : list CalculationResult :=
  flat_map
    (fun entry =>
       match processGroup category w_mm h_mm targetQty entry with
       | Some r => [r]
       | None => []
       end)
    (objectEntries groups).

(** [handleCalculate], as a function from the catalog and the four input
    fields to the state it leaves: [setResults([])] and [setError(null)]
    first, then either an error message or the sorted results. *)
Definition handleCalculate (data : list PriceItem)
  (width height category quantity : string) : State :=
  let w_mm := parseFloat (replaceFirst "," "." width) in
  let h_mm := parseFloat (replaceFirst "," "." height) in
  let targetQty := parseInt quantity in
  if negb (truthy w_mm) || negb (truthy h_mm) || negb (truthyInt targetQty)
  then {| results := []; error := Some MSG_INVALID_INPUT |}
  else
    match targetQty with
    | None => {| results := []; error := Some MSG_INVALID_INPUT |}
    | Some q =>
        match groupItems data category with
        | None =>
            (* the grouping threw: the state is as reset at the start *)
            {| results := []; error := None |}
        | Some groups =>
            let calculated := calculatedResults groups category w_mm h_mm q in
            if (List.length calculated =? 0)%nat
            then {| results := []; error := Some MSG_NO_RESULTS |}
            else {| results := sortResults calculated; error := None |}
        end
    end.

(* ================================================================== *)
(** ** Vocabulary of the properties *)

(** *** Parsing *)

Fixpoint allChars (p : ascii -> bool) (s : string) : bool :=
  match s with
  | EmptyString => true
  | String c r => p c && allChars p r
  end.

(** A string that is empty or starts with a digit, a dot or a comma: it is
    parsed without sign. *)
Definition plainHead (s : string) : bool :=
  match s with
  | EmptyString => true
  | String c _ => isDigit c || isDot c || isComma c
  end.

(** A number that is NaN or finite and non-negative. *)
Definition nanOrNonneg (a : number) : Prop :=
  a = NaN \/ exists q, a = Fin q /\ (0 <= q)%Q.

(** A number that is NaN or finite and positive. *)
Definition nanOrPos (a : number) : Prop :=
  a = NaN \/ exists q, a = Fin q /\ (0 < q)%Q.

(** The price label of an entry parses to a number. *)
Definition priceParseable (item : PriceItem) : Prop :=
  isNaN (parsePrice (fiyat item)) = false.

(** The size label of an entry is well formed: when it matches the size
    pattern, both captured parts parse to numbers. *)
Definition sizeWellFormed (item : PriceItem) : Prop :=
  match parseSize (ebat item) with
  | Some (a, b) => isNaN a = false /\ isNaN b = false
  | None => True
  end.

(** *** The evaluator *)

(** The entry is priced on the multiplier path of [calculatePriceForItem]:
    its category is a multiplier category and it is not the magnet
    custom-size product. *)
Definition usesMultiplier (item : PriceItem) : bool :=
  negb (String.eqb (kategori item) "Magnet" && String.eqb (kod item) "MGN")
  && includesStr MULTIPLIER_CATEGORIES (kategori item).

(** The base size in mm of an entry, when it is determined (both of
    [BASE_W] and [BASE_H] differ from 0). *)
Definition baseMm (item : PriceItem) : option (number * number) :=
  let '(BASE_W, BASE_H) := baseSizeCm item in
  if (BASE_W === ofZ 0)%js || (BASE_H === ofZ 0)%js then None
  else Some ((BASE_W * ofZ 10)%js, (BASE_H * ofZ 10)%js).

(** The quantity ratio of an evaluation: [targetQty / itemQty]. *)
Definition qtyRatioOf (item : PriceItem) (targetQty : Z) : Q :=
  (inject_Z targetQty / inject_Z (itemQtyOf item))%Q.

(** "Within 0.5 mm of an integer multiple of the base dimension". *)
Definition nearMultiple (u b : number) : Prop :=
  match u, b with
  | Fin u, Fin b => exists k : Z, (Qabs (u - inject_Z k * b) <= 1 # 2)%Q
  | _, _ => False
  end.


(** Molds of a [tw] x [th] super-tile on a [bw] x [bh] sheet, on rationals. *)
Definition qmolds (tw th bw bh : Q) : Q :=
  (inject_Z (Qceiling (tw / bw)) * inject_Z (Qceiling (th / bh)))%Q.

(** *** Vocabulary for double precision *)

(** A number that is a double: rounding leaves it unchanged. *)
Definition isDouble (a : number) : Prop := same (Binary64.rnd a) a.

(** A number that is positive: finite and above 0, or +Infinity. *)
Definition isPositive (a : number) : Prop := (ofZ 0 <? a)%js = true.

(** A number that is at least 1 (finite or +Infinity). *)
Definition atLeastOne (a : number) : Prop := (ofZ 1 <=? a)%js = true.

(** A whole number of at least 1, or +Infinity. *)
Definition wholeFromOne (a : number) : Prop :=
  a = Inf false \/ exists z : Z, 1 <= z /\ same a (ofZ z).

(** The four mold counts of a factor pair, as [layoutStep] computes them. *)
Definition arrangements64 (userW userH baseW baseH : number) (rc : Z * Z)
  : list number :=
  let '(r, c) := rc in
  let totalW1 := Binary64.mul userW (ofZ c) in
  let totalH1 := Binary64.mul userH (ofZ r) in
  let totalW2 := Binary64.mul userW (ofZ r) in
  let totalH2 := Binary64.mul userH (ofZ c) in
  [ Binary64.mul (ceil (Binary64.div totalW1 baseW))
                 (ceil (Binary64.div totalH1 baseH));
    Binary64.mul (ceil (Binary64.div totalW1 baseH))
                 (ceil (Binary64.div totalH1 baseW));
    Binary64.mul (ceil (Binary64.div totalW2 baseW))
                 (ceil (Binary64.div totalH2 baseH));
    Binary64.mul (ceil (Binary64.div totalW2 baseH))
                 (ceil (Binary64.div totalH2 baseW)) ].

(** The parsed size fields of the request in double precision. *)
Definition parsedWidth64 (width : string) : number :=
  Double.parseFloat (replaceFirst "," "." width).

(** The base size in mm of an entry in double precision, when it is
    determined. *)
Definition baseMm64 (item : PriceItem) : option (number * number) :=
  let '(BASE_W, BASE_H) := Double.baseSizeCm item in
  if (BASE_W === ofZ 0)%js || (BASE_H === ofZ 0)%js then None
  else Some (Binary64.mul BASE_W (ofZ 10), Binary64.mul BASE_H (ofZ 10)).

(** *** The handler *)

(** The parsed size fields and quantity field of [handleCalculate]. *)
Definition parsedWidth (width : string) : number :=
  parseFloat (replaceFirst "," "." width).

Definition parsedQuantity (quantity : string) : option Z := parseInt quantity.

(** A field that is missing or unparseable (it parses to NaN) or
    non-positive. *)
Definition missingOrNonPositive (x : number) : bool :=
  isNaN x || (x <=? ofZ 0)%js.

Definition missingOrNonPositiveInt (o : option Z) : bool :=
  match o with
  | None => true
  | Some z => z <=? 0
  end.

(** A field that is missing or unparseable (it parses to NaN) or zero. *)
Definition missingOrZero (x : number) : bool :=
  isNaN x || (x === ofZ 0)%js.

Definition missingOrZeroInt (o : option Z) : bool :=
  match o with
  | None => true
  | Some z => z =? 0
  end.

(** Every item of every group comes from the list being grouped. *)
Definition groupsWithin (g : Groups) (data : list PriceItem) : Prop :=
  forall k its i, In (k, its) g -> In i its -> In i data.

(** What the snap search guarantees of a suggestion, against the price and
    the cut flag of the current result. *)
Definition suggestionOk (items : list PriceItem) (targetQty : Z)
  (currentPrice : number) (currentNeedsCut : bool) (s : Suggestion.t) : Prop :=
  (exists item res,
      In item items /\
      calculatePriceForItem item (Suggestion.w_mm s) (Suggestion.h_mm s) targetQty
      = Some res /\
      Outcome.price res = Suggestion.price s /\
      (Suggestion.isSamePrice s = true -> Outcome.needsCut res = false)) /\
  ((Suggestion.price s <? currentPrice)%js = true \/
   ((Suggestion.price s === currentPrice)%js = true /\
    currentNeedsCut = true /\ Suggestion.isSamePrice s = true)) /\
  ((Suggestion.price s <? currentPrice)%js = false ->
   Suggestion.savingPercent s = ofZ 0).

(** The ranking order: a prioritised result before a non-prioritised one
    whatever the prices, and otherwise (same priority) the lower price
    first. *)
Definition rankedBefore (a b : CalculationResult) : Prop :=
  (isPrio a = true /\ isPrio b = false) \/
  (isPrio a = isPrio b /\ (calculatedPrice a <=? calculatedPrice b)%js = true).

(** Two results the ranking does not separate: same priority, same price. *)
Definition tied (a b : CalculationResult) : bool :=
  Bool.eqb (isPrio a) (isPrio b) && (calculatedPrice a === calculatedPrice b)%js.

(** The price of the result is a number (an infinite one included). *)
Definition numberPrice (r : CalculationResult) : Prop :=
  isNaN (calculatedPrice r) = false.

(** *** Whole numbers, labels and groups *)

(** Molds of a super-tile on whole numbers. *)
Definition zmolds (tw th bw bh : Q) : Z :=
  Qceiling (tw / bw) * Qceiling (th / bh).

(** One iteration of the loop over the layouts, on whole numbers. *)
Definition zLayoutStep (w h bw bh : Q) (best : Z) (rc : Z * Z) : Z :=
  let '(r, c) := rc in
  Z.min (Z.min (Z.min (Z.min best
    (zmolds (w * inject_Z c) (h * inject_Z r) bw bh))
    (zmolds (w * inject_Z c) (h * inject_Z r) bh bw))
    (zmolds (w * inject_Z r) (h * inject_Z c) bw bh))
    (zmolds (w * inject_Z r) (h * inject_Z c) bh bw).

(** The last character of a string. *)
Fixpoint lastChar (s : string) : option ascii :=
  match s with
  | EmptyString => None
  | String c EmptyString => Some c
  | String _ r => lastChar r
  end.

Definition headChar (s : string) : option ascii :=
  match s with
  | EmptyString => None
  | String c _ => Some c
  end.

(** The string starts with a white-space character. *)
Definition startsWithSpace (s : string) : bool :=
  match skipSpace s with
  | Some _ => true
  | None => false
  end.

(** The string ends with a white-space character: one of its suffixes is a
    single white-space character. *)
Fixpoint endsWithSpace (s : string) : bool :=
  match s with
  | EmptyString => false
  | String _ r =>
      match skipSpace s with
      | Some EmptyString => true
      | _ => endsWithSpace r
      end
  end.

(** The string neither starts nor ends with white space. *)
Definition isTrimmed (s : string) : bool :=
  negb (startsWithSpace s) && negb (endsWithSpace s).

Definition isHyphen (c : ascii) : bool := Ascii.eqb c "-".

(** The head of the string, if any, does not satisfy [p]. *)
Definition headNot (p : ascii -> bool) (s : string) : bool :=
  match s with
  | EmptyString => true
  | String c _ => negb (p c)
  end.

(** The value of a decimal numeral [a.b] given by its digit strings. *)
Definition decimalValue (a b : string) : Q :=
  (inject_Z (digitsVal 0 a)
   + inject_Z (digitsVal 0 b) / inject_Z (10 ^ Z.of_nat (String.length b)))%Q.

(** A character that can continue a decimal numeral after its digits: a
    digit or an exponent mark. *)
Definition isDigitOrExp (c : ascii) : bool :=
  isDigit c || Ascii.eqb c "e" || Ascii.eqb c "E".

Definition notDigitOrComma (c : ascii) : bool := negb (isDigit c || isComma c).

(** The separators accepted between the two parts of a size label. *)
Definition isSizeSep (c : ascii) : bool :=
  Ascii.eqb c "x" || Ascii.eqb c "X" || Ascii.eqb c "*".

(** The unit suffixes the theorem on size labels covers: none, or "cm" in
    any case. *)
Definition isCmUnit (unit : string) : bool :=
  isEmpty unit || String.eqb (toLowerCase unit) "cm".

(** The key under which [categoryItems.forEach] files an item, or [None]
    when the item is skipped (Magnet entries without the product code). *)
Definition groupKeyOf (category : string) (item : PriceItem) : option string :=
  if String.eqb category "Magnet" then
    if negb (String.eqb (kod item) "MGN") then None
    else Some "Özel Ebat Magnet"
  else Some (getPaperTypeGroup (aciklama item) category).

Definition hasKey (category k : string) (item : PriceItem) : bool :=
  match groupKeyOf category item with
  | Some k' => String.eqb k' k
  | None => false
  end.

(** The entries of the catalog that belong to the category and are filed
    under the key [k], in catalog order. *)
Definition itemsOfKey (category k : string) (data : list PriceItem)
  : list PriceItem :=
  filter (fun i => String.eqb (kategori i) category && hasKey category k i) data.

(** [groups[k]], or the empty list when the key is absent. *)
Definition groupOf (k : string) (g : Groups) : list PriceItem :=
  match find (fun e => String.eqb (fst e) k) g with
  | Some e => snd e
  | None => []
  end.

(** The state of the grouping loop after the items [l]: keys are distinct,
    no group is empty, and the group of each key holds the items of [l] filed
    under it, in order. *)
Definition groupedFrom (category : string) (l : list PriceItem) (g : Groups)
  : Prop :=
  NoDup (map fst g) /\
  (forall a its, In (a, its) g -> its <> []) /\
  (forall k, groupOf k g = filter (hasKey category k) l).


(** An entry of the Magnet category with the custom-size code. *)
Definition isMagnetEntry (i : PriceItem) : bool :=
  String.eqb (kategori i) "Magnet" && String.eqb (kod i) "MGN".

(* ================================================================== *)
(** ** A sample catalog *)

Definition mkItem (k e c a m f : string) : PriceItem :=
  {| kategori := k; ebat := e; kod := c; aciklama := a; miktar := m; fiyat := f |}.

Definition demoCard1000 : PriceItem :=
  mkItem "Kartvizit" "8.6x5.4 cm" "KV1" "350 gr. Mat - Tek yön" "1.000 Adet" "550 TL".

Definition demoCard2000 : PriceItem :=
  mkItem "Kartvizit" "8.6x5.4 cm" "KV2" "350 gr. Mat - Tek yön" "2.000 Adet" "900 TL".

Definition demoBrochure128 : PriceItem :=
  mkItem "Broşür" "10x20 cm" "BR1" "128 gr. Kuşe - 4 renk" "1.000 Adet" "1.100 TL".

Definition demoBrochure : PriceItem :=
  mkItem "Broşür" "10x20 cm" "BR2" "115 gr. Kuşe - 4 renk" "1.000 Adet" "1.250,50 TL".

Definition demoBrochure150 : PriceItem :=
  mkItem "Broşür" "10x20 cm" "BR3" "150 gr. Kuşe - 4 renk" "1.000 Adet" "900 TL".

Definition demoMagnet : PriceItem :=
  mkItem "Magnet" "Özel" "MGN" "Magnet - Özel ebat" "1.000 Adet" "0,21 TL".

Definition demoCatalog : list PriceItem :=
  [demoCard1000; demoCard2000; demoBrochure128; demoBrochure; demoBrochure150;
   demoMagnet].

(** A brochure entry with a base sheet of 1 x 1.05 cm. *)
Definition demoNarrow : PriceItem :=
  mkItem "Broşür" "1x1.05" "BR4" "115 gr. Kuşe - 4 renk" "1000" "100".

(** A brochure entry whose size label has no digit before the [x]. *)
Definition demoBadSize : PriceItem :=
  mkItem "Broşür" ".x5" "BR5" "115 gr. Kuşe - 4 renk" "1000" "100".

(** A business-card entry whose description starts with the name of a
    property of [Object.prototype]. *)
Definition demoProto : PriceItem :=
  mkItem "Kartvizit" "8.6x5.4" "KRT-P" "constructor - Mat Selefon" "1000" "100 TL".

(** A string of [n] zeros. *)
Fixpoint zeros (n : nat) : string :=
  match n with
  | O => EmptyString
  | S k => String "0" (zeros k)
  end.

(** A business-card entry whose quantity label has 310 digits. *)
Definition demoHugeQty : PriceItem :=
  mkItem "Kartvizit" "8.6x5.4 cm" "KV3" "350 gr. Mat - Tek yön"
    (String "1" (zeros 309)) "550 TL".

(** A business-card entry that costs nothing. *)
Definition demoFree : PriceItem :=
  mkItem "Kartvizit" "8.6x5.4 cm" "KV4" "350 gr. Mat - Numune" "1.000 Adet" "0 TL".

(** Three business-card papers; the second has no price on the list. *)
Definition demoCard300 : PriceItem :=
  mkItem "Kartvizit" "8.6x5.4 cm" "KV5" "300 gr. Bristol - Tek yön" "1.000 Adet" "300 TL".

Definition demoCardAsk : PriceItem :=
  mkItem "Kartvizit" "8.6x5.4 cm" "KV6" "Kabartma Laklı - Tek yön" "1.000 Adet"
    "Fiyat sorunuz".

Definition demoCard100 : PriceItem :=
  mkItem "Kartvizit" "8.6x5.4 cm" "KV7" "250 gr. Kuşe - Tek yön" "1.000 Adet" "100 TL".

(** A category that is offered but is not priced by the calculator. *)
Definition demoInvitation : PriceItem :=
  mkItem "Davetiye" "15x15 cm" "DVT" "300 gr. Bristol - Zarflı" "1.000 Adet" "2.500 TL".

(* ================================================================== *)
(** ** Facts about numbers *)

Lemma nle_Fin (p q : Q) : (Fin p <=? Fin q)%js = true <-> (p <= q)%Q.
Proof.
  unfold nle; simpl. destruct (Qcompare_spec p q) as [E|L|G]; split; intro H;
    try reflexivity; try discriminate; try lra.
Qed.

Lemma nlt_Fin (p q : Q) : (Fin p <? Fin q)%js = true <-> (p < q)%Q.
Proof.
  unfold nlt; simpl. destruct (Qcompare_spec p q) as [E|L|G]; split; intro H;
    try reflexivity; try discriminate; try lra.
Qed.

Lemma neq_Fin (p q : Q) : (Fin p === Fin q)%js = true <-> (p == q)%Q.
Proof.
  unfold neq; simpl. destruct (Qcompare_spec p q) as [E|L|G]; split; intro H;
    try reflexivity; try discriminate; try lra.
Qed.

Lemma ndiv_Fin (p q : Q) : ~ (q == 0)%Q -> (Fin p / Fin q)%js = Fin (p / q).
Proof.
  intro H. simpl. destruct (Qcompare_spec 0 q) as [E|L|G]; try reflexivity.
  exfalso. apply H. symmetry. exact E.
Qed.

(** [Math.round] picks a nearest integer. *)
Lemma qround_near (r : Q) :
  (inject_Z (qround r) <= r + (1 # 2) /\ r - (1 # 2) < inject_Z (qround r))%Q.
Proof.
  unfold qround. pose proof (Qfloor_le (r + (1 # 2))) as H1.
  pose proof (Qlt_floor (r + (1 # 2))) as H2.
  rewrite inject_Z_plus in H2. change (inject_Z 1) with 1%Q in H2.
  split; lra.
Qed.

Lemma qround_nearest (r : Q) (k : Z) :
  (Qabs (r - inject_Z (qround r)) <= Qabs (r - inject_Z k))%Q.
Proof.
  destruct (qround_near r) as [H1 H2].
  destruct (Z.eq_dec k (qround r)) as [->|Hne]; [lra|].
  assert (Hk : (inject_Z k <= inject_Z (qround r) - 1
                \/ inject_Z (qround r) + 1 <= inject_Z k)%Q).
  { destruct (Z_lt_le_dec k (qround r)) as [L|G].
    - left. assert (k + 1 <= qround r) as L' by lia.
      rewrite Zle_Qle in L'. rewrite inject_Z_plus in L'.
      change (inject_Z 1) with 1%Q in L'. lra.
    - right. assert (qround r + 1 <= k) as G' by lia.
      rewrite Zle_Qle in G'. rewrite inject_Z_plus in G'.
      change (inject_Z 1) with 1%Q in G'. lra. }
  apply Qabs_case; intro; apply Qabs_case; intro; destruct Hk; lra.
Qed.

(** The tolerance test against the nearest multiple is a test against some
    multiple. *)
Lemma checkFit_Fin (u b : Q) :
  (0 < b)%Q ->
  checkFit (Fin u) (Fin b) = true <->
  exists k : Z, (Qabs (u - inject_Z k * b) <= 1 # 2)%Q.
Proof.
  intro Hb. unfold checkFit, TOLERANCE.
  rewrite ndiv_Fin by lra. cbn [round ofZ nsub abs nmul].
  rewrite nle_Fin.
  assert (Hscale : forall k : Z,
             (Qabs (u / b - inject_Z k) * b == Qabs (u - inject_Z k * b))%Q).
  { intro k. rewrite <- (Qabs_pos b) at 2 by lra. rewrite <- Qabs_Qmult.
    apply Qabs_wd. field. lra. }
  split.
  - intro H. exists (qround (u / b)). rewrite <- Hscale. lra.
  - intros [k Hk]. rewrite <- Hscale in Hk.
    pose proof (qround_nearest (u / b) k) as Hn.
    assert ((Qabs (u / b - inject_Z (qround (u / b))) * b
             <= Qabs (u / b - inject_Z k) * b)%Q).
    { apply Qmult_le_compat_r; lra. }
    lra.
Qed.

(* ================================================================== *)
(** ** Facts about parsing *)

(** A byte below 128 starts no white-space character of two or three
    bytes. *)
Lemma isSpace2_ascii (a b : ascii) :
  (N_of_ascii a <? 128)%N = true -> isSpace2 a b = false.
Proof.
  intro H. apply N.ltb_lt in H. unfold isSpace2.
  destruct (N.eqb_spec (N_of_ascii a) 194) as [E|_]; [lia|reflexivity].
Qed.

Lemma isSpace3_ascii (a b c : ascii) :
  (N_of_ascii a <? 128)%N = true -> isSpace3 a b c = false.
Proof.
  intro H. apply N.ltb_lt in H. unfold isSpace3. cbv zeta.
  destruct (N.eqb_spec (N_of_ascii a) 225) as [E|_]; [lia|].
  destruct (N.eqb_spec (N_of_ascii a) 226) as [E|_]; [lia|].
  destruct (N.eqb_spec (N_of_ascii a) 227) as [E|_]; [lia|].
  destruct (N.eqb_spec (N_of_ascii a) 239) as [E|_]; [lia|].
  reflexivity.
Qed.

Lemma skipSpace_ascii (c : ascii) (r : string) :
  isSpace c = false -> (N_of_ascii c <? 128)%N = true ->
  skipSpace (String c r) = None.
Proof.
  intros Hs Hc. cbn [skipSpace]. rewrite Hs.
  destruct r as [|b r2]; [reflexivity|]. rewrite (isSpace2_ascii c b Hc).
  destruct r2 as [|d r3]; [reflexivity|]. rewrite (isSpace3_ascii c b d Hc).
  reflexivity.
Qed.

Lemma trimStart_skip (s : string) :
  trimStart s = match skipSpace s with Some r => trimStart r | None => s end.
Proof.
  destruct s as [|a r1]; [reflexivity|]. cbn [trimStart skipSpace].
  destruct (isSpace a); [reflexivity|].
  destruct r1 as [|b r2]; [reflexivity|].
  destruct (isSpace2 a b); [reflexivity|].
  destruct r2 as [|c r3]; [reflexivity|].
  destruct (isSpace3 a b c); reflexivity.
Qed.

Lemma removeSpaces_skip (s : string) :
  removeSpaces s =
  match skipSpace s with
  | Some r => removeSpaces r
  | None => match s with
            | String a r => String a (removeSpaces r)
            | EmptyString => EmptyString
            end
  end.
Proof.
  destruct s as [|a r1]; [reflexivity|]. cbn [removeSpaces skipSpace].
  destruct (isSpace a); [reflexivity|].
  destruct r1 as [|b r2]; [reflexivity|].
  destruct (isSpace2 a b); [reflexivity|].
  destruct r2 as [|c r3]; [reflexivity|].
  destruct (isSpace3 a b c); reflexivity.
Qed.

(** A string that starts with an ASCII character other than white space is
    left as it is by [trimStart]. *)
Lemma trimStart_ascii (c : ascii) (r : string) :
  isSpace c = false -> (N_of_ascii c <? 128)%N = true ->
  trimStart (String c r) = String c r.
Proof.
  intros Hs Hc. rewrite trimStart_skip, (skipSpace_ascii c r Hs Hc). reflexivity.
Qed.

Lemma plainHead_ascii (c : ascii) (r : string) :
  plainHead (String c r) = true ->
  isSpace c = false /\ (N_of_ascii c <? 128)%N = true.
Proof.
  destruct c as [[] [] [] [] [] [] [] []]; intro H; try discriminate H;
    split; reflexivity.
Qed.

Lemma span_allChars (p : ascii -> bool) (s a b : string) :
  span p s = (a, b) -> allChars p a = true.
Proof.
  revert a b. induction s as [|c r IH]; intros a b H; simpl in H.
  - inversion H. reflexivity.
  - destruct (p c) eqn:Hc.
    + destruct (span p r) as [a' b'] eqn:E. inversion H; subst. simpl.
      rewrite Hc. simpl. eapply IH. reflexivity.
    + inversion H. reflexivity.
Qed.

Lemma digitVal_nonneg (c : ascii) : isDigit c = true -> 0 <= digitVal c.
Proof.
  unfold isDigit, digitVal. intro H. apply andb_true_iff in H as [H _].
  apply N.leb_le in H. lia.
Qed.

Lemma digitsVal_nonneg (s : string) :
  forall acc, allChars isDigit s = true -> 0 <= acc -> 0 <= digitsVal acc s.
Proof.
  induction s as [|c r IH]; intros acc H Hacc; simpl in *.
  - exact Hacc.
  - apply andb_true_iff in H as [Hc Hr]. apply IH; [exact Hr|].
    pose proof (digitVal_nonneg c Hc). lia.
Qed.

Lemma scanDecimal_nonneg (s : string) (q : Q) :
  scanDecimal s = Some q -> (0 <= q)%Q.
Proof.
  unfold scanDecimal.
  destruct (span isDigit s) as [d1 r1] eqn:E1.
  set (sp := match r1 with
             | String "."%char t => span isDigit t
             | _ => (EmptyString, r1)
             end).
  assert (Hd2 : allChars isDigit (fst sp) = true).
  { subst sp. destruct r1 as [|c t]; [reflexivity|].
    destruct c as [[] [] [] [] [] [] [] []]; try reflexivity.
    destruct (span isDigit t) as [x y] eqn:E2. simpl.
    eapply span_allChars. exact E2. }
  destruct sp as [d2 r2]. simpl in Hd2.
  destruct (isEmpty d1 && isEmpty d2); [discriminate|].
  intro H. inversion H; subst q; clear H.
  pose proof (digitsVal_nonneg d1 0 (span_allChars _ _ _ _ E1) (Z.le_refl 0)) as H1.
  pose proof (digitsVal_nonneg d2 0 Hd2 (Z.le_refl 0)) as H2.
  apply Qmult_le_0_compat.
  - apply Qle_trans with (inject_Z (digitsVal 0 d1) + 0)%Q.
    + rewrite Qplus_0_r. rewrite Zle_Qle in H1. exact H1.
    + apply Qplus_le_r. apply Qle_shift_div_l.
      * change 0%Q with (inject_Z 0). rewrite <- Zlt_Qlt.
        apply Z.pow_pos_nonneg; lia.
      * rewrite Qmult_0_l. rewrite Zle_Qle in H2. exact H2.
  - apply Qlt_le_weak. apply Qpower_0_lt. reflexivity.
Qed.

Lemma parseFloat_plain (s : string) :
  plainHead s = true ->
  parseFloat s = NaN \/ exists q, parseFloat s = Fin q /\ (0 <= q)%Q.
Proof.
  intro H.
  assert (Hp : parseFloat s
               = match scanDecimal s with Some q => Fin q | None => NaN end).
  { destruct s as [|c r]; [reflexivity|].
    destruct (plainHead_ascii c r H) as [Hs Hc].
    unfold parseFloat. rewrite (trimStart_ascii c r Hs Hc).
    destruct c as [[] [] [] [] [] [] [] []]; try discriminate H; reflexivity. }
  rewrite Hp. destruct (scanDecimal s) as [q|] eqn:E; [right|left; reflexivity].
  exists q. split; [reflexivity|]. eapply scanDecimal_nonneg; exact E.
Qed.

Lemma keep_allChars (p : ascii -> bool) (s : string) :
  allChars p (keep p s) = true.
Proof.
  induction s as [|c r IH]; simpl; [reflexivity|].
  destruct (p c) eqn:E; simpl; [rewrite E|]; exact IH.
Qed.

Lemma allChars_plainHead (p : ascii -> bool) (s : string) :
  (forall c, p c = true -> isDigit c || isDot c || isComma c = true) ->
  allChars p s = true -> plainHead s = true.
Proof.
  intros Hp H. destruct s as [|c r]; [reflexivity|]. simpl in *.
  apply andb_true_iff in H as [H _]. apply Hp. exact H.
Qed.

Lemma plainHead_replaceFirst (s : string) :
  plainHead s = true -> plainHead (replaceFirst "," "." s) = true.
Proof.
  destruct s as [|c r]; [reflexivity|]. simpl.
  destruct (Ascii.eqb c ",") eqn:E; [reflexivity|]. simpl. tauto.
Qed.

Lemma parsePrice_cases (s : string) : nanOrNonneg (parsePrice s).
Proof.
  unfold parsePrice. apply parseFloat_plain. apply plainHead_replaceFirst.
  eapply allChars_plainHead; [|apply keep_allChars].
  intros c Hc. simpl in Hc. apply orb_true_iff in Hc as [->| ->]; simpl;
    [reflexivity|apply orb_true_r].
Qed.

Lemma matchSize_groups (clean g1 g2 : string) :
  matchSize clean = Some (g1, g2) ->
  plainHead g1 = true /\ plainHead g2 = true.
Proof.
  unfold matchSize. destruct (span isDigitOrDot clean) as [a r1] eqn:E1.
  destruct (isEmpty a); [discriminate|].
  destruct r1 as [|c r2]; [discriminate|].
  destruct (Ascii.eqb c "x" || Ascii.eqb c "*"); [|discriminate].
  destruct (span isDigitOrDot r2) as [b r3] eqn:E2.
  destruct (isEmpty b); [discriminate|].
  intro H; inversion H; subst.
  assert (Hp : forall c0, isDigitOrDot c0 = true ->
                 isDigit c0 || isDot c0 || isComma c0 = true).
  { intros c0 H0. unfold isDigitOrDot in H0. rewrite H0. reflexivity. }
  split; eapply allChars_plainHead; try exact Hp; eapply span_allChars; eauto.
Qed.

Lemma parseSize_cases (s : string) (a b : number) :
  parseSize s = Some (a, b) -> nanOrNonneg a /\ nanOrNonneg b.
Proof.
  unfold parseSize.
  destruct (matchSize _) as [[g1 g2]|] eqn:E; [|discriminate].
  intro H; inversion H; subst. apply matchSize_groups in E as [H1 H2].
  split; apply parseFloat_plain; assumption.
Qed.

Lemma baseSizeCm_cases (item : PriceItem) (a b : number) :
  baseSizeCm item = (a, b) -> nanOrNonneg a /\ nanOrNonneg b.
Proof.
  unfold baseSizeCm.
  destruct (String.eqb (kategori item) "Kartvizit" || String.eqb (kategori item) "Etiket").
  - intro H; inversion H; subst. split; right; eexists; split;
      try reflexivity; discriminate.
  - destruct (parseSize (ebat item)) as [[x y]|] eqn:E.
    + intro H; inversion H; subst. eapply parseSize_cases; exact E.
    + intro H; inversion H; subst. split; right; eexists; split;
        try reflexivity; discriminate.
Qed.

(** A base dimension that passed the guard [BASE === 0], scaled to mm. *)
Lemma base_mm_cases (a : number) :
  nanOrNonneg a -> (a === ofZ 0)%js = false -> nanOrPos (a * ofZ 10)%js.
Proof.
  intros [->|[q [-> Hq]]] Hz; [left; reflexivity|right].
  exists (q * inject_Z 10)%Q. split; [reflexivity|].
  assert (~ q == 0)%Q.
  { intro E. apply (neq_Fin q (inject_Z 0)) in E. unfold ofZ in Hz. congruence. }
  change (inject_Z 10) with 10%Q. lra.
Qed.

Lemma checkFit_nearMultiple (u b : number) :
  nanOrPos b -> checkFit u b = true <-> nearMultiple u b.
Proof.
  intros [->|[q [-> Hq]]].
  - destruct u as [|s|p]; simpl; split; try discriminate; try contradiction.
  - destruct u as [|s|p].
    + simpl; split; try discriminate; try contradiction.
    + unfold checkFit. simpl.
      destruct (Qcompare_spec 0 q); simpl; try rewrite eqb_reflx;
        split; try discriminate; try contradiction.
    + apply checkFit_Fin. exact Hq.
Qed.

(* ================================================================== *)
(** ** The evaluator: standard fit and orientation *)

Lemma calculate_multiplier_path (item : PriceItem) (w h : number) (q : Z) :
  usesMultiplier item = true ->
  calculatePriceForItem item w h q =
  match baseMm item with
  | None => None
  | Some (bw, bh) =>
      let si := standardImposition w h bw bh in
      let m := if fst si
               then ceil (snd si * Fin (qtyRatioOf item q))
               else bestTotalMolds w h bw bh (qtyRatioOf item q) in
      Some {| Outcome.price := (parsePrice (fiyat item) * m)%js;
              Outcome.strategy := Multiplier;
              Outcome.needsCut := negb (fst si);
              Outcome.details := MultiplierDetails m (Fin (qtyRatioOf item q));
              Outcome.baseDims := Some (bw, bh) |}
  end.
Proof.
  unfold usesMultiplier, calculatePriceForItem, baseMm, qtyRatioOf.
  intro H. apply andb_true_iff in H as [H1 H2].
  apply negb_true_iff in H1. rewrite H1, H2.
  destruct (baseSizeCm item) as [BW BH].
  destruct ((BW === ofZ 0)%js || (BH === ofZ 0)%js); [reflexivity|].
  destruct (standardImposition _ _ _ _) as [std imp]. reflexivity.
Qed.

Lemma baseMm_cases (item : PriceItem) (bw bh : number) :
  baseMm item = Some (bw, bh) -> nanOrPos bw /\ nanOrPos bh.
Proof.
  unfold baseMm. destruct (baseSizeCm item) as [BW BH] eqn:E.
  apply baseSizeCm_cases in E as [HW HH].
  destruct (BW === ofZ 0)%js eqn:EW; [discriminate|].
  destruct (BH === ofZ 0)%js eqn:EH; [discriminate|].
  simpl. intro H; inversion H; subst.
  split; apply base_mm_cases; assumption.
Qed.

Lemma standardImposition_fst (w h bw bh : number) :
  fst (standardImposition w h bw bh)
  = (checkFit w bw && checkFit h bh) || (checkFit w bh && checkFit h bw).
Proof.
  unfold standardImposition.
  destruct (checkFit w bw && checkFit h bh); [reflexivity|].
  destruct (checkFit w bh && checkFit h bw); reflexivity.
Qed.

Lemma fits_iff (w h bw bh : number) :
  nanOrPos bw -> nanOrPos bh ->
  checkFit w bw && checkFit h bh = true <-> nearMultiple w bw /\ nearMultiple h bh.
Proof.
  intros Hw Hh. rewrite andb_true_iff.
  rewrite (checkFit_nearMultiple w bw Hw), (checkFit_nearMultiple h bh Hh).
  tauto.
Qed.

(** In exact arithmetic the tolerance test of [checkFit] is "within 0.5 mm
    of an integer multiple of the base dimension": the evaluator declares a
    standard fit exactly when the request, as is or rotated, is within 0.5 mm
    of integer multiples on both axes.  (In double precision the rounding of
    the division decides at the boundary; see the section on the standard
    fit in double precision.) *)
Lemma standard_fit_exact (item : PriceItem) (w h : number) (q : Z)
  (bw bh : number) :
  usesMultiplier item = true ->
  baseMm item = Some (bw, bh) ->
  let qtyRatio := Fin (qtyRatioOf item q) in
  let fitAsIs := nearMultiple w bw /\ nearMultiple h bh in
  let fitRotated := nearMultiple w bh /\ nearMultiple h bw in
  exists res m,
    calculatePriceForItem item w h q = Some res /\
    Outcome.details res = MultiplierDetails m qtyRatio /\
    Outcome.price res = (parsePrice (fiyat item) * m)%js /\
    (Outcome.needsCut res = false <-> fitAsIs \/ fitRotated) /\
    (fitAsIs ->
     m = ceil (max (ofZ 1) (round (w / bw)) * max (ofZ 1) (round (h / bh))
               * qtyRatio)%js) /\
    (~ fitAsIs -> fitRotated ->
     m = ceil (max (ofZ 1) (round (w / bh)) * max (ofZ 1) (round (h / bw))
               * qtyRatio)%js).
Proof.
  intros Hm Hb qtyRatio fitAsIs fitRotated.
  rewrite (calculate_multiplier_path item w h q Hm), Hb.
  destruct (baseMm_cases item bw bh Hb) as [Hbw Hbh].
  pose proof (fits_iff w h bw bh Hbw Hbh) as F1.
  pose proof (fits_iff w h bh bw Hbh Hbw) as F2.
  eexists. eexists. split; [reflexivity|]. cbn [Outcome.details Outcome.price Outcome.needsCut].
  split; [reflexivity|]. split; [reflexivity|].
  rewrite negb_false_iff, standardImposition_fst, orb_true_iff, F1, F2.
  split; [reflexivity|].
  unfold standardImposition. split.
  - intro HA. apply F1 in HA. rewrite HA. reflexivity.
  - intros HA HR. apply F2 in HR.
    destruct (checkFit w bw && checkFit h bh) eqn:E1.
    + exfalso. apply HA. apply F1. reflexivity.
    + rewrite HR. reflexivity.
Qed.

(** C2.  For the magnet custom-size product (category Magnet, code MGN) and
    every request, the evaluated price is
    [widthMm * heightMm * 0.21 * (targetQty / 1000)] and the outcome is
    flagged as needing a cut; for 100 x 150 mm at quantity 2000 the price
    is 6300. *)
Theorem C2_magnet_formula (item : PriceItem) (w h : number) (q : Z) :
  kategori item = "Magnet" ->
  kod item = "MGN" ->
  (exists res,
      calculatePriceForItem item w h q = Some res /\
      Outcome.price res = (w * h * Fin 0.21 * (ofZ q / ofZ 1000))%js /\
      Outcome.strategy res = Formula /\
      Outcome.needsCut res = true) /\
  (forall wq hq : Q,
      w = Fin wq -> h = Fin hq ->
      option_map Outcome.price (calculatePriceForItem item w h q)
      = Some (Fin (wq * hq * 0.21 * (inject_Z q / 1000)))) /\
  (exists res,
      calculatePriceForItem item (ofZ 100) (ofZ 150) 2000 = Some res /\
      same (Outcome.price res) (ofZ 6300)).
Proof.
  intros Hk Hc. unfold calculatePriceForItem. rewrite Hk, Hc. simpl.
  split; [|split].
  - eexists. repeat split.
  - intros wq hq -> ->. reflexivity.
  - eexists. split; [reflexivity|]. reflexivity.
Qed.

Lemma C2_magnet_formula_witness :
  exists res,
    calculatePriceForItem demoMagnet (ofZ 100) (ofZ 150) 2000 = Some res /\
    same (Outcome.price res) (ofZ 6300).
Proof.
  exact (proj2 (proj2 (C2_magnet_formula demoMagnet (ofZ 100) (ofZ 150) 2000
                         eq_refl eq_refl))).
Defined.

Lemma nmul_comm (a b : number) : (a * b)%js = (b * a)%js.
Proof.
  destruct a as [|s|p], b as [|t|q]; simpl; try reflexivity.
  - rewrite xorb_comm. reflexivity.
  - unfold Qmult. rewrite Z.mul_comm, Pos.mul_comm. reflexivity.
Qed.

(** C9 (amended).  For an entry priced on the multiplier path whose base
    size is determined, swapping the requested width and height does not
    change whether the evaluator returns an outcome, nor its standard-fit
    verdict.  The imposed multiplier is that of the first orientation that
    fits, as is before rotated, and the swap exchanges the two orientations:
    the imposed multiplier is the same after the swap exactly when the
    request does not fit in both orientations or the two orientations give
    the same count; then, for a standard fit, the whole outcome (multiplier
    and price included) is the same. *)
Theorem C9_swap_symmetric (item : PriceItem) (w h : number) (q : Z)
  (bw bh : number) :
  usesMultiplier item = true ->
  baseMm item = Some (bw, bh) ->
  let fitAsIs := checkFit w bw && checkFit h bh in
  let fitRotated := checkFit w bh && checkFit h bw in
  let countAsIs :=
    (max (ofZ 1) (round (w / bw)) * max (ofZ 1) (round (h / bh)))%js in
  let countRotated :=
    (max (ofZ 1) (round (w / bh)) * max (ofZ 1) (round (h / bw)))%js in
  option_map Outcome.needsCut (calculatePriceForItem item h w q)
  = option_map Outcome.needsCut (calculatePriceForItem item w h q) /\
  snd (standardImposition w h bw bh)
  = (if fitAsIs then countAsIs else if fitRotated then countRotated else ofZ 0) /\
  snd (standardImposition h w bw bh)
  = (if fitRotated then countRotated else if fitAsIs then countAsIs else ofZ 0) /\
  (snd (standardImposition h w bw bh) = snd (standardImposition w h bw bh)
   <-> fitAsIs && fitRotated = false \/ countAsIs = countRotated) /\
  (fitAsIs || fitRotated = true ->
   fitAsIs && fitRotated = false \/ countAsIs = countRotated ->
   calculatePriceForItem item h w q = calculatePriceForItem item w h q).
Proof.
  intros Hm Hb fitAsIs fitRotated countAsIs countRotated.
  rewrite !(calculate_multiplier_path item _ _ q Hm), Hb.
  assert (Hsw : fst (standardImposition h w bw bh) = fst (standardImposition w h bw bh)).
  { rewrite !standardImposition_fst.
    rewrite (andb_comm (checkFit h bw)), (andb_comm (checkFit h bh)).
    apply orb_comm. }
  assert (H1 : snd (standardImposition w h bw bh)
               = if fitAsIs then countAsIs else if fitRotated then countRotated else ofZ 0).
  { unfold standardImposition. fold fitAsIs fitRotated.
    destruct fitAsIs; [reflexivity|]. destruct fitRotated; reflexivity. }
  assert (H2 : snd (standardImposition h w bw bh)
               = if fitRotated then countRotated else if fitAsIs then countAsIs else ofZ 0).
  { unfold standardImposition.
    rewrite (andb_comm (checkFit h bw)), (andb_comm (checkFit h bh)).
    fold fitAsIs fitRotated.
    destruct fitRotated; [apply nmul_comm|]. destruct fitAsIs; [apply nmul_comm|reflexivity]. }
  assert (H3 : snd (standardImposition h w bw bh) = snd (standardImposition w h bw bh)
               <-> fitAsIs && fitRotated = false \/ countAsIs = countRotated).
  { rewrite H1, H2. destruct fitAsIs, fitRotated; cbn [andb]; split; intro H;
      try (left; reflexivity); try reflexivity.
    - right. symmetry. exact H.
    - destruct H as [H|H]; [discriminate|symmetry; exact H]. }
  split; [|split; [exact H1|split; [exact H2|split; [exact H3|]]]].
  - cbn [option_map Outcome.needsCut]. rewrite Hsw. reflexivity.
  - intros Hfit Hsame. apply H3 in Hsame. cbv zeta.
    assert (Hstd : fst (standardImposition w h bw bh) = true).
    { rewrite standardImposition_fst. exact Hfit. }
    rewrite Hsw, Hsame, Hstd. reflexivity.
Qed.

Lemma C9_swap_symmetric_witness :
  calculatePriceForItem demoBrochure (ofZ 400) (ofZ 200) 2000
  = calculatePriceForItem demoBrochure (ofZ 200) (ofZ 400) 2000.
Proof.
  refine (proj2 (proj2 (proj2 (proj2
            (C9_swap_symmetric demoBrochure (ofZ 200) (ofZ 400) 2000
               (Fin (10 * 10)) (Fin (20 * 10)) eq_refl eq_refl)))) _ _).
  - reflexivity.
  - right. reflexivity.
Defined.

(** C9 as stated fails: with a base sheet of 10 x 10.5 mm the request
    10.25 x 210 mm fits in both orientations; as given it is imposed 1 x 20,
    swapped it is imposed 21 x 1. *)
Lemma C9_counterexample :
  usesMultiplier demoNarrow = true /\
  (exists bw bh, baseMm demoNarrow = Some (bw, bh) /\ same bw (ofZ 10) /\ same bh (Fin 10.5)
     /\ same (snd (standardImposition (Fin 10.25) (ofZ 210) bw bh)) (ofZ 20)
     /\ same (snd (standardImposition (ofZ 210) (Fin 10.25) bw bh)) (ofZ 21)) /\
  (exists r1 r2,
      calculatePriceForItem demoNarrow (Fin 10.25) (ofZ 210) 1000 = Some r1 /\
      calculatePriceForItem demoNarrow (ofZ 210) (Fin 10.25) 1000 = Some r2 /\
      Outcome.needsCut r1 = false /\ Outcome.needsCut r2 = false /\
      Outcome.details r1 = MultiplierDetails (ofZ 20) (Fin (qtyRatioOf demoNarrow 1000)) /\
      Outcome.details r2 = MultiplierDetails (ofZ 21) (Fin (qtyRatioOf demoNarrow 1000)) /\
      ~ same (Outcome.price r1) (Outcome.price r2)).
Proof.
  split; [reflexivity|]. split.
  - eexists. eexists. split; [reflexivity|]. vm_compute. repeat split; reflexivity.
  - eexists. eexists. split; [reflexivity|]. split; [reflexivity|].
    vm_compute. repeat split; try reflexivity. intro H. discriminate H.
Qed.

(* ================================================================== *)
(** ** The layout optimizer *)

Lemma molds_Fin (tw th bw bh : Q) :
  ~ (bw == 0)%Q -> ~ (bh == 0)%Q ->
  (ceil (Fin tw / Fin bw) * ceil (Fin th / Fin bh))%js = Fin (qmolds tw th bw bh).
Proof.
  intros Hw Hh. rewrite !ndiv_Fin by assumption. reflexivity.
Qed.

Lemma min_Fin (a b : Q) :
  exists c, min (Fin a) (Fin b) = Fin c /\ (c <= a)%Q /\ (c <= b)%Q /\ (c = a \/ c = b).
Proof.
  unfold min. simpl. destruct (Qcompare_spec a b) as [E|L|G].
  - exists a. repeat split; try lra. left; reflexivity.
  - exists a. repeat split; try lra. left; reflexivity.
  - exists b. repeat split; try lra. right; reflexivity.
Qed.

Lemma layoutStep_Fin (w h bw bh a : Q) (r c : Z) :
  ~ (bw == 0)%Q -> ~ (bh == 0)%Q ->
  let m1 := qmolds (w * inject_Z c) (h * inject_Z r) bw bh in
  let m2 := qmolds (w * inject_Z c) (h * inject_Z r) bh bw in
  let m3 := qmolds (w * inject_Z r) (h * inject_Z c) bw bh in
  let m4 := qmolds (w * inject_Z r) (h * inject_Z c) bh bw in
  exists a',
    layoutStep (Fin w) (Fin h) (Fin bw) (Fin bh) (Fin a) (r, c) = Fin a' /\
    (a' <= a /\ a' <= m1 /\ a' <= m2 /\ a' <= m3 /\ a' <= m4)%Q /\
    (a' = a \/ a' = m1 \/ a' = m2 \/ a' = m3 \/ a' = m4).
Proof.
  intros Hw Hh m1 m2 m3 m4. unfold layoutStep.
  cbn [nmul ofZ]. rewrite !molds_Fin by assumption.
  fold m1 m2 m3 m4.
  destruct (min_Fin a m1) as [c1 [-> [? [? ?]]]].
  destruct (min_Fin c1 m2) as [c2 [-> [? [? ?]]]].
  destruct (min_Fin c2 m3) as [c3 [-> [? [? ?]]]].
  destruct (min_Fin c3 m4) as [c4 [-> [? [? ?]]]].
  exists c4. split; [reflexivity|]. split; [repeat split; lra|].
  intuition congruence.
Qed.

(** The fold over the layouts stays finite, never grows, and keeps every
    property shared by the start value and by the molds of each layout. *)
Lemma fold_layoutStep_Fin (w h bw bh : Q) (P : Q -> Prop) (l : list (Z * Z)) :
  ~ (bw == 0)%Q -> ~ (bh == 0)%Q ->
  (forall r c, In (r, c) l ->
     P (qmolds (w * inject_Z c) (h * inject_Z r) bw bh) /\
     P (qmolds (w * inject_Z c) (h * inject_Z r) bh bw) /\
     P (qmolds (w * inject_Z r) (h * inject_Z c) bw bh) /\
     P (qmolds (w * inject_Z r) (h * inject_Z c) bh bw)) ->
  forall a, P a ->
  exists a',
    fold_left (layoutStep (Fin w) (Fin h) (Fin bw) (Fin bh)) l (Fin a) = Fin a' /\
    (a' <= a)%Q /\ P a'.
Proof.
  intros Hw Hh. induction l as [|[r c] l IH]; intros HP a Ha.
  - exists a. split; [reflexivity|]. split; [lra|exact Ha].
  - cbn [fold_left].
    destruct (layoutStep_Fin w h bw bh a r c Hw Hh) as [a1 [-> [Hle Hor]]].
    destruct (HP r c (or_introl eq_refl)) as [P1 [P2 [P3 P4]]].
    assert (Pa1 : P a1) by (destruct Hor as [->|[->|[->|[->| ->]]]]; assumption).
    destruct (IH (fun r' c' H' => HP r' c' (or_intror H')) a1 Pa1) as [a' [E [Hle' Pa']]].
    exists a'. split; [exact E|]. split; [lra|exact Pa'].
Qed.



Lemma Qceiling_pos (x : Q) : (0 < x)%Q -> 1 <= Qceiling x.
Proof.
  intro Hx. pose proof (Qle_ceiling x) as H.
  assert (0 < inject_Z (Qceiling x))%Q as H' by lra.
  change 0%Q with (inject_Z 0) in H'. rewrite <- Zlt_Qlt in H'. lia.
Qed.


Lemma MAX_VALUE_Fin : exists a, MAX_VALUE = Fin a /\ (1 <= a)%Q.
Proof.
  eexists. split; [reflexivity|].
  unfold Qle. vm_compute. intro H; discriminate H.
Qed.




(* ================================================================== *)
(** ** Facts about the handler *)

Lemma In_insertSorted (x r : CalculationResult) (l : list CalculationResult) :
  In r (insertSorted x l) <-> r = x \/ In r l.
Proof.
  induction l as [|y l IH]; simpl.
  - intuition congruence.
  - destruct (comparator x y >? ofZ 0)%js; simpl; rewrite ?IH; intuition congruence.
Qed.

Lemma In_sortResults (r : CalculationResult) (l : list CalculationResult) :
  In r (sortResults l) <-> In r l.
Proof.
  induction l as [|y l IH]; simpl; [tauto|].
  rewrite In_insertSorted, IH. intuition congruence.
Qed.

Lemma In_insertIndexed (e f : string * list PriceItem) (l : Groups) :
  In f (insertIndexed e l) <-> f = e \/ In f l.
Proof.
  induction l as [|y l IH]; simpl.
  - intuition congruence.
  - destruct (digitsVal 0 (fst e) <? digitsVal 0 (fst y)); simpl; rewrite ?IH;
      intuition congruence.
Qed.

Lemma In_objectEntries (f : string * list PriceItem) (g : Groups) :
  In f (objectEntries g) <-> In f g.
Proof.
  unfold objectEntries. rewrite in_app_iff.
  assert (H : forall l, In f (fold_right insertIndexed [] l) <-> In f l).
  { induction l as [|y l IH]; simpl; [tauto|].
    rewrite In_insertIndexed, IH. intuition congruence. }
  rewrite H, !filter_In. destruct (isArrayIndex (fst f)); simpl; intuition congruence.
Qed.

Lemma addToGroup_within (key : string) (item : PriceItem) (g : Groups)
  (data : list PriceItem) :
  In item data -> groupsWithin g data -> groupsWithin (addToGroup key item g) data.
Proof.
  intros Hi. induction g as [|[k its] rest IH]; intros Hg k' its' i Hin Hi'.
  - simpl in Hin. destruct Hin as [E|[]]. inversion E; subst.
    destruct Hi' as [->|[]]. exact Hi.
  - simpl in Hin. destruct (String.eqb k key).
    + destruct Hin as [E|Hin].
      * inversion E; subst. apply in_app_iff in Hi' as [Hi'|[->|[]]]; [|exact Hi].
        eapply Hg; [left; reflexivity|exact Hi'].
      * eapply Hg; [right; exact Hin|exact Hi'].
    + destruct Hin as [E|Hin].
      * inversion E; subst. eapply Hg; [left; reflexivity|exact Hi'].
      * eapply IH; [|exact Hin|exact Hi'].
        intros k0 its0 i0 H0 H1. eapply Hg; [right; exact H0|exact H1].
Qed.

Lemma groupStep_within (category : string) (data : list PriceItem)
  (l : list PriceItem) :
  (forall i, In i l -> In i data) ->
  forall g0 g, groupsWithin g0 data ->
  fold_left (groupStep category) l (Some g0) = Some g -> groupsWithin g data.
Proof.
  induction l as [|x l IH]; intros Hl g0 g Hg0 H.
  - simpl in H. inversion H; subst. exact Hg0.
  - cbn [fold_left] in H.
    assert (Hnone : forall l', fold_left (groupStep category) l' None = None).
    { induction l' as [|y l' IH']; [reflexivity|exact IH']. }
    destruct (groupStep category (Some g0) x) as [g1|] eqn:E;
      [|rewrite Hnone in H; discriminate].
    eapply IH; [intros i Hi; apply Hl; right; exact Hi| |exact H].
    unfold groupStep in E.
    destruct (if String.eqb category "Magnet"
              then if negb (String.eqb (kod x) "MGN")
                   then (true, getPaperTypeGroup (aciklama x) category)
                   else (false, "Özel Ebat Magnet")
              else (false, getPaperTypeGroup (aciklama x) category)) as [skip key].
    destruct skip; [inversion E; subst; exact Hg0|].
    destruct (includesStr PROTOTYPE_KEYS key); [discriminate|].
    inversion E; subst. apply addToGroup_within; [apply Hl; left; reflexivity|exact Hg0].
Qed.

Lemma groupItems_within (data : list PriceItem) (category : string) (g : Groups) :
  groupItems data category = Some g -> groupsWithin g data.
Proof.
  unfold groupItems. apply groupStep_within.
  - intros i Hi. apply filter_In in Hi. tauto.
  - intros k its i [].
Qed.

(** Where a result of the handler comes from. *)
Lemma results_origin (data : list PriceItem) (width height category quantity : string)
  (r : CalculationResult) :
  In r (results (handleCalculate data width height category quantity)) ->
  exists q groups name items,
    parseInt quantity = Some q /\ q <> 0 /\
    truthy (parseFloat (replaceFirst "," "." width)) = true /\
    truthy (parseFloat (replaceFirst "," "." height)) = true /\
    groupItems data category = Some groups /\
    In (name, items) groups /\
    (forall i, In i items -> In i data) /\
    processGroup category (parseFloat (replaceFirst "," "." width))
      (parseFloat (replaceFirst "," "." height)) q (name, items) = Some r.
Proof.
  unfold handleCalculate.
  destruct (truthy (parseFloat (replaceFirst "," "." width))) eqn:Ew; [|intros []].
  destruct (truthy (parseFloat (replaceFirst "," "." height))) eqn:Eh; [|intros []].
  destruct (parseInt quantity) as [q|] eqn:Eq; [|intros []].
  cbn [truthyInt negb orb].
  destruct (negb (q =? 0)) eqn:Eq0; [|intros []]. cbn [negb].
  destruct (groupItems data category) as [groups|] eqn:Eg; [|intros []].
  destruct (List.length _ =? 0)%nat; [intros []|].
  cbn [results]. rewrite In_sortResults. unfold calculatedResults.
  rewrite in_flat_map. intros [[name items] [Hin Hr]].
  rewrite In_objectEntries in Hin.
  exists q, groups, name, items. repeat split; try reflexivity; try assumption.
  - apply negb_true_iff in Eq0. apply Z.eqb_neq in Eq0. exact Eq0.
  - intros i Hi. eapply (groupItems_within data category groups Eg); eassumption.
  - destruct (processGroup _ _ _ _ _) as [r'|]; [|destruct Hr].
    destruct Hr as [->|[]]. reflexivity.
Qed.

Lemma bestCandidate_origin (items : list PriceItem) (w h : number) (q : Z)
  (res : Outcome.t) (item : PriceItem) :
  bestCandidate items w h q = Some (res, item) ->
  In item items /\ calculatePriceForItem item w h q = Some res.
Proof.
  unfold bestCandidate.
  set (step := fun bestResult candidate => _).
  assert (H : forall l acc,
             (forall r i, acc = Some (r, i) ->
                In i items /\ calculatePriceForItem i w h q = Some r) ->
             (forall i, In i l -> In i items) ->
             forall r i, fold_left step l acc = Some (r, i) ->
             In i items /\ calculatePriceForItem i w h q = Some r).
  { induction l as [|x l IH]; intros acc Hacc Hl r i Hf.
    - apply Hacc. exact Hf.
    - cbn [fold_left] in Hf. eapply IH; [| |exact Hf].
      + intros r' i' E. unfold step in E.
        destruct (calculatePriceForItem x w h q) as [rx|] eqn:Ex; [|apply Hacc; exact E].
        destruct acc as [[br bi]|].
        * destruct (Outcome.price rx <? Outcome.price br)%js.
          -- inversion E; subst. split; [apply Hl; left; reflexivity|exact Ex].
          -- apply Hacc; exact E.
        * inversion E; subst. split; [apply Hl; left; reflexivity|exact Ex].
      + intros i' Hi'. apply Hl. right. exact Hi'. }
  apply H; [discriminate|tauto].
Qed.

(* ================================================================== *)
(** ** Input validation *)

Lemma truthy_missingOrZero (x : number) : truthy x = negb (missingOrZero x).
Proof.
  destruct x as [|s|q]; try reflexivity. destruct s; reflexivity.
  unfold missingOrZero, truthy, neq, ofZ. simpl. f_equal.
  destruct (Qcompare_spec q (inject_Z 0)) as [E|L|G].
  - apply Qeq_bool_iff. exact E.
  - apply not_true_is_false. intro H. apply Qeq_bool_iff in H.
    change (inject_Z 0) with 0%Q in L. lra.
  - apply not_true_is_false. intro H. apply Qeq_bool_iff in H.
    change (inject_Z 0) with 0%Q in G. lra.
Qed.

Lemma truthyInt_missingOrZeroInt (o : option Z) :
  truthyInt o = negb (missingOrZeroInt o).
Proof. destruct o; reflexivity. Qed.

(** C6 (amended).  The handler reports the invalid-input message exactly
    when the width, the height or the quantity is missing or unparseable
    (parses to NaN) or is zero; it then returns no results.  Every other
    request, a negative size included, goes on to the computation. *)
Theorem C6_invalid_input (data : list PriceItem)
  (width height category quantity : string) :
  let st := handleCalculate data width height category quantity in
  let invalid :=
    missingOrZero (parsedWidth width) || missingOrZero (parsedWidth height)
    || missingOrZeroInt (parsedQuantity quantity) in
  (error st = Some MSG_INVALID_INPUT <-> invalid = true) /\
  (invalid = true -> results st = []) /\
  (invalid = false ->
   exists q groups,
     parsedQuantity quantity = Some q /\
     (groupItems data category = Some groups ->
      let calculated :=
        calculatedResults groups category (parsedWidth width) (parsedWidth height) q in
      (calculated = [] -> error st = Some MSG_NO_RESULTS) /\
      (calculated <> [] -> error st = None /\ results st = sortResults calculated))).
Proof.
  intros st invalid. subst st invalid.
  unfold handleCalculate, parsedWidth, parsedQuantity.
  rewrite !truthy_missingOrZero, truthyInt_missingOrZeroInt, !negb_involutive.
  destruct (missingOrZero (parseFloat (replaceFirst "," "." width))
            || missingOrZero (parseFloat (replaceFirst "," "." height))
            || missingOrZeroInt (parseInt quantity)) eqn:E.
  - cbn [error results]. split; [tauto|]. split; [reflexivity|discriminate].
  - destruct (parseInt quantity) as [q|] eqn:Eq.
    2:{ rewrite orb_true_r in E. discriminate. }
    split; [|split; [discriminate|]].
    + destruct (groupItems data category) as [g|]; cbn [error].
      * destruct (List.length _ =? 0)%nat; cbn [error]; split; discriminate.
      * split; discriminate.
    + intros _. exists q. destruct (groupItems data category) as [g|].
      * exists g. split; [reflexivity|]. intros _.
        destruct (calculatedResults g category _ _ q) as [|r l]; cbn [List.length Nat.eqb error results].
        -- split; [reflexivity|congruence].
        -- split; [discriminate|]. intros _. split; reflexivity.
      * exists []. split; [reflexivity|discriminate].
Qed.

(** C6 as stated fails: a negative width is not rejected.  Over a catalog
    with one business-card entry, the request -5 x 10 mm at quantity 1000 is
    computed and a result is returned. *)
Lemma C6_counterexample :
  let st := handleCalculate [demoCard2000] "-5" "10" "Kartvizit" "1000" in
  let claimedInvalid :=
    missingOrNonPositive (parsedWidth "-5") || missingOrNonPositive (parsedWidth "10")
    || missingOrNonPositiveInt (parsedQuantity "1000") in
  same (parsedWidth "-5") (Fin (-5)) /\
  claimedInvalid = true /\
  error st = None /\
  List.length (results st) = 1%nat /\
  ~ (error st = Some MSG_INVALID_INPUT <-> claimedInvalid = true).
Proof.
  vm_compute. repeat split; try reflexivity.
  intros [_ H]. specialize (H eq_refl). discriminate H.
Qed.

(* ================================================================== *)
(** ** Quantity-tier suggestions *)

Lemma processGroup_fields (category : string) (w h : number) (q : Z)
  (name : string) (items : list PriceItem) (r : CalculationResult) :
  processGroup category w h q (name, items) = Some r ->
  exists res item,
    bestCandidate items w h q = Some (res, item) /\
    paperName r = name /\
    matchItem r = item /\
    strategy r = Outcome.strategy res /\
    calculatedPrice r = Outcome.price res /\
    needsCut r = Outcome.needsCut res /\
    details r = Outcome.details res /\
    prevQty r = prevQtyFor items w h q /\
    nextQty r = nextQtyFor items w h q /\
    sizeSuggestion r =
      sizeSuggestionFor category items w h q (Outcome.price res) (Outcome.needsCut res).
Proof.
  unfold processGroup.
  destruct (bestCandidate items w h q) as [[res item]|]; [|discriminate].
  intro H; inversion H; subst; clear H. exists res, item.
  repeat split; reflexivity.
Qed.

Lemma nextQtyFor_2000 (items : list PriceItem) (w h : number) (s : QtySuggestion) :
  nextQtyFor items w h 2000 = Some s -> qty s = 4000.
Proof.
  unfold nextQtyFor.
  change (indexOf QUANTITY_OPTIONS 2000) with 1.
  change (1 <? Z.of_nat (List.length QUANTITY_OPTIONS) - 1) with true.
  change (nth_error QUANTITY_OPTIONS (Z.to_nat (1 + 1))) with (Some 3000).
  change (includesZ QUANTITY_OPTIONS 4000) with true.
  cbn [Z.eqb Pos.eqb andb].
  destruct (findBestPriceForQty items w h 4000); [|discriminate].
  intro H; inversion H; reflexivity.
Qed.

(** C7.  4000 is one of the fixed tiers, and for a request of quantity 2000
    every next-quantity suggestion of every result proposes the tier 4000,
    not 3000. *)
Theorem C7_next_tier_after_2000 (data : list PriceItem)
  (width height category quantity : string)
  (r : CalculationResult) (s : QtySuggestion) :
  parseInt quantity = Some 2000 ->
  In r (results (handleCalculate data width height category quantity)) ->
  nextQty r = Some s ->
  In 4000 QUANTITY_OPTIONS /\ qty s = 4000 /\ qty s <> 3000.
Proof.
  intros Hq Hr Hs.
  destruct (results_origin _ _ _ _ _ _ Hr)
    as [q [groups [name [items [Eq [_ [_ [_ [_ [_ [_ Hp]]]]]]]]]]].
  rewrite Hq in Eq. inversion Eq; subst q.
  destruct (processGroup_fields _ _ _ _ _ _ _ Hp)
    as [res [item [_ [_ [_ [_ [_ [_ [_ [_ [Hn _]]]]]]]]]]].
  rewrite Hn in Hs. apply nextQtyFor_2000 in Hs.
  split; [simpl; tauto|]. split; [exact Hs|]. rewrite Hs. discriminate.
Qed.

Lemma C7_next_tier_after_2000_witness :
  match results (handleCalculate demoCatalog "90" "54" "Kartvizit" "2000") with
  | r :: _ => option_map qty (nextQty r) = Some 4000
  | [] => False
  end.
Proof.
  destruct (results (handleCalculate demoCatalog "90" "54" "Kartvizit" "2000"))
    as [|r l] eqn:E; [vm_compute in E; discriminate E|].
  destruct (nextQty r) as [s|] eqn:En.
  - simpl. f_equal.
    apply (C7_next_tier_after_2000 demoCatalog "90" "54" "Kartvizit" "2000" r s).
    + reflexivity.
    + rewrite E. left. reflexivity.
    + exact En.
  - vm_compute in E. inversion E; subst r. discriminate En.
Defined.

Lemma indexOfFrom_notin (l : list Z) (q i : Z) :
  ~ In q l -> indexOfFrom i l q = -1.
Proof.
  revert i. induction l as [|x l IH]; intros i H; simpl; [reflexivity|].
  destruct (Z.eqb_spec x q) as [E|N].
  - exfalso. apply H. left. exact E.
  - apply IH. intro Hin. apply H. right. exact Hin.
Qed.

Lemma prevQtyFor_unknown (items : list PriceItem) (w h : number) (q : Z) :
  ~ In q QUANTITY_OPTIONS -> prevQtyFor items w h q = None.
Proof.
  intro H. unfold prevQtyFor, indexOf. rewrite indexOfFrom_notin by exact H.
  reflexivity.
Qed.

Lemma nextQtyFor_unknown (items : list PriceItem) (w h : number) (q : Z)
  (s : QtySuggestion) :
  ~ In q QUANTITY_OPTIONS -> nextQtyFor items w h q = Some s -> qty s = 1000.
Proof.
  intro H. unfold nextQtyFor, indexOf. rewrite indexOfFrom_notin by exact H.
  change (-1 <? Z.of_nat (List.length QUANTITY_OPTIONS) - 1) with true.
  change (nth_error QUANTITY_OPTIONS (Z.to_nat (-1 + 1))) with (Some 1000).
  cbn [Z.eqb Pos.eqb andb]. rewrite andb_false_r.
  destruct (findBestPriceForQty items w h 1000); [|discriminate].
  intro E; inversion E; reflexivity.
Qed.

(* ================================================================== *)
(** ** Size-snap suggestions *)

Lemma evaluateSuggestion_ok (items : list PriceItem) (itemToUse : PriceItem)
  (q : Z) (cp : number) (cn : bool) (best : option Suggestion.t) (w h : number) :
  In itemToUse items ->
  (forall b, best = Some b -> suggestionOk items q cp cn b) ->
  forall s, evaluateSuggestion itemToUse q cp cn best w h = Some s ->
  suggestionOk items q cp cn s.
Proof.
  intros Hin Hbest s. unfold evaluateSuggestion.
  destruct (calculatePriceForItem itemToUse w h q) as [res|] eqn:Ec; [|apply Hbest].
  destruct (Outcome.price res <? cp)%js eqn:Elt.
  - cbn [orb].
    destruct (match best with
              | Some b => (Outcome.price res <=? Suggestion.price b)%js
              | None => true
              end); [|apply Hbest].
    intro H; inversion H; subst s; clear H. unfold suggestionOk.
    cbn [Suggestion.w_mm Suggestion.h_mm Suggestion.price Suggestion.isSamePrice
         Suggestion.savingPercent].
    split; [|split].
    + exists itemToUse, res. repeat split; try assumption.
      intro Hs. apply andb_true_iff in Hs as [_ Hs]. apply negb_true_iff in Hs. exact Hs.
    + left. exact Elt.
    + rewrite Elt. discriminate.
  - cbn [orb].
    destruct ((Outcome.price res === cp)%js && cn && negb (Outcome.needsCut res)) eqn:Es;
      [|apply Hbest].
    destruct (match best with
              | Some b => (Outcome.price res <=? Suggestion.price b)%js
              | None => true
              end); [|apply Hbest].
    intro H; inversion H; subst s; clear H. unfold suggestionOk.
    cbn [Suggestion.w_mm Suggestion.h_mm Suggestion.price Suggestion.isSamePrice
         Suggestion.savingPercent].
    apply andb_true_iff in Es as [Es Hn]. apply andb_true_iff in Es as [He Hc].
    apply negb_true_iff in Hn.
    split; [|split].
    + exists itemToUse, res. repeat split; auto.
    + right. repeat split; auto.
    + reflexivity.
Qed.

Lemma itemForSize_In (l : list PriceItem) (q : Z) (i : PriceItem) :
  itemForSize l q = Some i -> In i l.
Proof.
  unfold itemForSize.
  destruct (find (miktarIs q) l) as [a|] eqn:E1.
  - intro H; inversion H; subst. apply find_some in E1. tauto.
  - destruct (find (miktarIs 1000) l) as [a|] eqn:E2.
    + intro H; inversion H; subst. apply find_some in E2. tauto.
    + destruct l as [|a l]; [discriminate|].
      intro H; inversion H; subst. left. reflexivity.
Qed.

Lemma sizeStep_ok (category : string) (items : list PriceItem) (w h : number)
  (q : Z) (cp : number) (cn : bool) (best : option Suggestion.t) (sStr : string) :
  (forall b, best = Some b -> suggestionOk items q cp cn b) ->
  forall s, sizeStep category items w h q cp cn best sStr = Some s ->
  suggestionOk items q cp cn s.
Proof.
  intros Hbest s. unfold sizeStep.
  destruct (itemForSize _ q) as [itemToUse|] eqn:Ei; [|apply Hbest].
  apply itemForSize_In in Ei. apply filter_In in Ei as [Hin _].
  destruct (snapBase category itemToUse) as [baseW baseH].
  destruct ((baseW === ofZ 0)%js || (baseH === ofZ 0)%js); [apply Hbest|].
  set (best1 := match checkSnap baseW baseH w h with
                | Some (sw, sh) => evaluateSuggestion itemToUse q cp cn best sw sh
                | None => best
                end).
  assert (H1 : forall b, best1 = Some b -> suggestionOk items q cp cn b).
  { subst best1. destruct (checkSnap baseW baseH w h) as [[sw sh]|]; [|exact Hbest].
    intros b. eapply evaluateSuggestion_ok; eassumption. }
  destruct (_ && _); [|apply H1].
  destruct (_ || _); [|apply H1].
  eapply evaluateSuggestion_ok; eassumption.
Qed.

Lemma sizeSuggestionFor_ok (category : string) (items : list PriceItem)
  (w h : number) (q : Z) (cp : number) (cn : bool) (s : Suggestion.t) :
  sizeSuggestionFor category items w h q cp cn = Some s ->
  suggestionOk items q cp cn s.
Proof.
  unfold sizeSuggestionFor.
  destruct (negb (String.eqb category "Magnet")); [|discriminate].
  assert (H : forall l best,
             (forall b, best = Some b -> suggestionOk items q cp cn b) ->
             forall s', fold_left (sizeStep category items w h q cp cn) l best = Some s' ->
             suggestionOk items q cp cn s').
  { induction l as [|x l IH]; intros best Hb s' Hf.
    - apply Hb. exact Hf.
    - cbn [fold_left] in Hf. eapply IH; [|exact Hf].
      intros b. apply sizeStep_ok. exact Hb. }
  apply H. discriminate.
Qed.

(** C4.  For every result that carries a size-snap suggestion: the
    suggestion's price is strictly lower than the result's price, or it is
    equal, the result needs a cut, and the suggested size, priced on an entry
    of the catalog at the requested quantity, is a standard fit; and the
    savings percentage is 0 whenever the suggestion is not strictly
    cheaper. *)
Theorem C4_size_suggestion (data : list PriceItem)
  (width height category quantity : string)
  (r : CalculationResult) (s : Suggestion.t) :
  In r (results (handleCalculate data width height category quantity)) ->
  sizeSuggestion r = Some s ->
  ((Suggestion.price s <? calculatedPrice r)%js = true \/
   ((Suggestion.price s === calculatedPrice r)%js = true /\
    needsCut r = true /\
    exists item q res,
      In item data /\ parseInt quantity = Some q /\
      calculatePriceForItem item (Suggestion.w_mm s) (Suggestion.h_mm s) q = Some res /\
      Outcome.price res = Suggestion.price s /\
      Outcome.needsCut res = false)) /\
  ((Suggestion.price s <? calculatedPrice r)%js = false ->
   Suggestion.savingPercent s = ofZ 0).
Proof.
  intros Hr Hs.
  destruct (results_origin _ _ _ _ _ _ Hr)
    as [q [groups [name [items [Eq [_ [_ [_ [_ [_ [Hsub Hp]]]]]]]]]]].
  destruct (processGroup_fields _ _ _ _ _ _ _ Hp)
    as [res [item [_ [_ [_ [_ [Hprice [Hcut [_ [_ [_ Hsug]]]]]]]]]]].
  rewrite Hsug in Hs. apply sizeSuggestionFor_ok in Hs.
  destruct Hs as [[it [rs [Hit [Hcalc [Hpr Hstd]]]]] [Hor Hpct]].
  rewrite Hprice, Hcut. split; [|exact Hpct].
  destruct Hor as [Hlt|[He [Hc Hsame]]]; [left; exact Hlt|right].
  repeat split; try assumption.
  exists it, q, rs. repeat split; try assumption.
  - apply Hsub. exact Hit.
  - apply Hstd. exact Hsame.
Qed.

(** The request 199 x 100 mm on the 10 x 20 cm brochure entry is a custom cut
    on one mold; the snap to 200 x 100 mm costs the same and is a standard
    fit, so it is suggested with a savings percentage of 0. *)
Lemma C4_size_suggestion_witness :
  match results (handleCalculate [demoBrochure] "199" "100" "Broşür" "1000") with
  | r :: _ =>
      match sizeSuggestion r with
      | Some s => Suggestion.savingPercent s = ofZ 0
      | None => False
      end
  | [] => False
  end.
Proof.
  destruct (results (handleCalculate [demoBrochure] "199" "100" "Broşür" "1000"))
    as [|r l] eqn:E; [vm_compute in E; discriminate E|].
  destruct (sizeSuggestion r) as [s|] eqn:Es.
  - apply (C4_size_suggestion [demoBrochure] "199" "100" "Broşür" "1000" r s).
    + rewrite E. left. reflexivity.
    + exact Es.
    + vm_compute in E. inversion E; subst r.
      vm_compute in Es. inversion Es; subst s. reflexivity.
  - vm_compute in E. inversion E; subst r. discriminate Es.
Defined.

(* ================================================================== *)
(** ** Bounds on prices and multipliers *)

Lemma nge_Fin (p q : Q) : (Fin p >=? Fin q)%js = true <-> (q <= p)%Q.
Proof. unfold nge. apply nle_Fin. Qed.

Lemma layouts_pos (n r c : Z) : In (r, c) (layouts n) -> 1 <= r /\ 1 <= c.
Proof.
  unfold layouts. rewrite in_flat_map. intros [k [Hk Hin]].
  apply in_seq in Hk.
  destruct (Z.rem n (Z.of_nat k) =? 0) eqn:E; [|destruct Hin].
  destruct Hin as [H|[]]. inversion H; subst r c; clear H.
  assert (Hs : Z.of_nat k <= Z.sqrt n) by lia.
  assert (Hn : 0 <= n).
  { destruct (Z_lt_le_dec n 0) as [L|G]; [|exact G].
    rewrite Z.sqrt_neg in Hs by exact L. lia. }
  pose proof (Z.sqrt_spec n Hn) as [Hsq _].
  assert (Z.of_nat k <= n) by nia.
  split; [lia|].
  rewrite Z.quot_div_nonneg by lia.
  apply Z.div_le_lower_bound; lia.
Qed.

Lemma qmolds_pos (tw th bw bh : Q) :
  (0 < tw)%Q -> (0 < th)%Q -> (0 < bw)%Q -> (0 < bh)%Q -> (1 <= qmolds tw th bw bh)%Q.
Proof.
  intros Htw Hth Hbw Hbh. unfold qmolds.
  assert (H1 : 1 <= Qceiling (tw / bw)) by (apply Qceiling_pos, Qlt_shift_div_l; lra).
  assert (H2 : 1 <= Qceiling (th / bh)) by (apply Qceiling_pos, Qlt_shift_div_l; lra).
  rewrite <- inject_Z_mult. change 1%Q with (inject_Z 1). rewrite <- Zle_Qle. nia.
Qed.

Lemma scaled_pos (x : Q) (z : Z) : (0 < x)%Q -> 1 <= z -> (0 < x * inject_Z z)%Q.
Proof.
  intros Hx Hz. apply Qmult_lt_0_compat; [exact Hx|].
  change 0%Q with (inject_Z 0). rewrite <- Zlt_Qlt. lia.
Qed.

(** On positive finite sizes the custom-fit search returns at least one
    mold. *)
Lemma bestTotalMolds_pos (w h bw bh k : Q) :
  (0 < w)%Q -> (0 < h)%Q -> (0 < bw)%Q -> (0 < bh)%Q ->
  exists a, bestTotalMolds (Fin w) (Fin h) (Fin bw) (Fin bh) k = Fin a /\ (1 <= a)%Q.
Proof.
  intros Hw Hh Hbw Hbh. unfold bestTotalMolds.
  destruct MAX_VALUE_Fin as [mx [-> Hmx]].
  destruct (fold_layoutStep_Fin w h bw bh (fun x => (1 <= x)%Q) (layouts (Qceiling k)))
    with (a := mx) as [a [E [_ Ha]]]; try lra.
  - intros r c Hin. apply layouts_pos in Hin as [Hr Hc].
    repeat split; apply qmolds_pos; try assumption; apply scaled_pos; assumption.
  - exists a. split; assumption.
Qed.

Lemma max1_round (u b : Q) :
  ~ (b == 0)%Q ->
  exists z, 1 <= z /\ max (ofZ 1) (round (Fin u / Fin b)) = ofZ z.
Proof.
  intro Hb. rewrite ndiv_Fin by exact Hb. cbn [round]. unfold max, ofZ. simpl.
  destruct (Qcompare_spec (inject_Z 1) (inject_Z (qround (u / b)))) as [E|L|G].
  - exists 1. split; [lia|reflexivity].
  - exists (qround (u / b)). split; [|reflexivity].
    rewrite <- Zlt_Qlt in L. lia.
  - exists 1. split; [lia|reflexivity].
Qed.

Lemma standardImposition_pos (w h bw bh : Q) (imp : number) :
  (0 < bw)%Q -> (0 < bh)%Q ->
  standardImposition (Fin w) (Fin h) (Fin bw) (Fin bh) = (true, imp) ->
  exists i, imp = Fin i /\ (1 <= i)%Q.
Proof.
  intros Hbw Hbh. unfold standardImposition.
  assert (Nbw : ~ (bw == 0)%Q) by lra. assert (Nbh : ~ (bh == 0)%Q) by lra.
  assert (Hprod : forall z1 z2, 1 <= z1 -> 1 <= z2 ->
            exists i, (ofZ z1 * ofZ z2)%js = Fin i /\ (1 <= i)%Q).
  { intros z1 z2 H1 H2. exists (inject_Z z1 * inject_Z z2)%Q. split; [reflexivity|].
    rewrite <- inject_Z_mult. change 1%Q with (inject_Z 1). rewrite <- Zle_Qle. nia. }
  destruct (checkFit (Fin w) (Fin bw) && checkFit (Fin h) (Fin bh)).
  - destruct (max1_round w bw Nbw) as [z1 [H1 ->]].
    destruct (max1_round h bh Nbh) as [z2 [H2 ->]].
    intro E; inversion E; subst imp. apply Hprod; assumption.
  - destruct (checkFit (Fin w) (Fin bh) && checkFit (Fin h) (Fin bw)); [|discriminate].
    destruct (max1_round w bh Nbh) as [z1 [H1 ->]].
    destruct (max1_round h bw Nbw) as [z2 [H2 ->]].
    intro E; inversion E; subst imp. apply Hprod; assumption.
Qed.

(** A string of digits is parsed by [parseInt] as a non-negative integer. *)
Lemma parseInt_digits (s : string) :
  allChars isDigit s = true ->
  parseInt s = None \/ exists z, parseInt s = Some z /\ 0 <= z.
Proof.
  intro H.
  assert (Hp : parseInt s
               = let '(d, _) := span isDigit s in
                 if isEmpty d then None else Some (digitsVal 0 d)).
  { destruct s as [|c r]; [reflexivity|].
    simpl in H. apply andb_true_iff in H as [Hc Hr].
    assert (Ha : isSpace c = false /\ (N_of_ascii c <? 128)%N = true)
      by (destruct c as [[] [] [] [] [] [] [] []]; try discriminate Hc;
          split; reflexivity).
    unfold parseInt. rewrite (trimStart_ascii c r (proj1 Ha) (proj2 Ha)). clear Ha.
    destruct c as [[] [] [] [] [] [] [] []]; try discriminate Hc; try reflexivity.
    destruct r as [|c' r']; [reflexivity|].
    simpl in Hr. apply andb_true_iff in Hr as [Hc' _].
    destruct c' as [[] [] [] [] [] [] [] []]; try discriminate Hc'; reflexivity. }
  rewrite Hp. destruct (span isDigit s) as [d rest] eqn:E.
  destruct (isEmpty d); [left; reflexivity|right].
  eexists. split; [reflexivity|].
  apply digitsVal_nonneg; [eapply span_allChars; exact E|lia].
Qed.

Lemma itemQtyOf_pos (item : PriceItem) : 0 < itemQtyOf item.
Proof.
  unfold itemQtyOf, parseMiktar.
  destruct (parseInt_digits (keep isDigit (miktar item)) (keep_allChars _ _))
    as [->|[z [-> Hz]]]; [lia|].
  destruct (Z.eqb_spec z 0); lia.
Qed.

Lemma qtyRatioOf_pos (item : PriceItem) (q : Z) : 0 < q -> (0 < qtyRatioOf item q)%Q.
Proof.
  intro Hq. unfold qtyRatioOf. pose proof (itemQtyOf_pos item) as Hi.
  apply Qlt_shift_div_l.
  - change 0%Q with (inject_Z 0). rewrite <- Zlt_Qlt. exact Hi.
  - rewrite Qmult_0_l. change 0%Q with (inject_Z 0). rewrite <- Zlt_Qlt. exact Hq.
Qed.

Lemma baseMm_pos (item : PriceItem) (bw bh : number) :
  sizeWellFormed item ->
  baseMm item = Some (bw, bh) ->
  exists x y, bw = Fin x /\ bh = Fin y /\ (0 < x)%Q /\ (0 < y)%Q.
Proof.
  intros Hwf Hb. destruct (baseMm_cases item bw bh Hb) as [Hw Hh].
  assert (Hnn : isNaN bw = false /\ isNaN bh = false).
  { unfold baseMm, baseSizeCm in Hb. unfold sizeWellFormed in Hwf.
    destruct (String.eqb (kategori item) "Kartvizit" || String.eqb (kategori item) "Etiket").
    - simpl in Hb. inversion Hb. split; reflexivity.
    - destruct (parseSize (ebat item)) as [[a b]|].
      + destruct Hwf as [Ha Hb'].
        destruct ((a === ofZ 0)%js || (b === ofZ 0)%js); [discriminate|].
        inversion Hb; subst.
        destruct a; try discriminate; destruct b; try discriminate; split; reflexivity.
      + simpl in Hb. discriminate. }
  destruct Hnn as [N1 N2].
  destruct Hw as [->|[x [-> Hx]]]; [discriminate|].
  destruct Hh as [->|[y [-> Hy]]]; [discriminate|].
  exists x, y. repeat split; assumption.
Qed.

(** Price and multiplier of one evaluation, for positive finite sizes and a
    positive quantity, on an entry with parseable price and well-formed
    size. *)
Lemma calculate_nonneg (item : PriceItem) (w h : Q) (q : Z) (res : Outcome.t) :
  (0 < w)%Q -> (0 < h)%Q -> 0 < q ->
  priceParseable item -> sizeWellFormed item ->
  calculatePriceForItem item (Fin w) (Fin h) q = Some res ->
  (Outcome.price res >=? ofZ 0)%js = true /\
  (Outcome.strategy res = Multiplier ->
   exists m qr, Outcome.details res = MultiplierDetails m qr /\ (m >=? ofZ 1)%js = true).
Proof.
  intros Hw Hh Hq Hprice Hsize.
  destruct (String.eqb (kategori item) "Magnet" && String.eqb (kod item) "MGN") eqn:Emag.
  - unfold calculatePriceForItem. rewrite Emag.
    intro H; inversion H; subst res; clear H.
    cbn [Outcome.price Outcome.strategy]. split; [|discriminate].
    unfold ofZ. apply nge_Fin. change (inject_Z 0) with 0%Q.
    assert (0 < inject_Z q)%Q by (change 0%Q with (inject_Z 0); rewrite <- Zlt_Qlt; exact Hq).
    repeat apply Qmult_le_0_compat; try lra.
    apply Qinv_le_0_compat. discriminate.
  - destruct (includesStr MULTIPLIER_CATEGORIES (kategori item)) eqn:Ecat.
    2:{ unfold calculatePriceForItem. rewrite Emag, Ecat. discriminate. }
    rewrite calculate_multiplier_path
      by (unfold usesMultiplier; rewrite Emag, Ecat; reflexivity).
    destruct (baseMm item) as [[bw bh]|] eqn:Eb; [|discriminate].
    destruct (baseMm_pos item bw bh Hsize Eb) as [x [y [-> [-> [Hx Hy]]]]].
    pose proof (qtyRatioOf_pos item q Hq) as Hqr.
    assert (Hm : exists m,
               (if fst (standardImposition (Fin w) (Fin h) (Fin x) (Fin y))
                then ceil (snd (standardImposition (Fin w) (Fin h) (Fin x) (Fin y))
                           * Fin (qtyRatioOf item q))
                else bestTotalMolds (Fin w) (Fin h) (Fin x) (Fin y) (qtyRatioOf item q))
               = Fin m /\ (1 <= m)%Q).
    { destruct (standardImposition (Fin w) (Fin h) (Fin x) (Fin y)) as [std imp] eqn:Es.
      cbn [fst snd]. destruct std.
      - destruct (standardImposition_pos w h x y imp Hx Hy Es) as [i [-> Hi]].
        cbn [nmul ceil]. eexists. split; [reflexivity|].
        change 1%Q with (inject_Z 1). rewrite <- Zle_Qle.
        apply Qceiling_pos. apply Qmult_lt_0_compat; lra.
      - apply bestTotalMolds_pos; assumption. }
    destruct Hm as [m [Hm Hm1]]. cbv zeta. rewrite Hm.
    intro H; inversion H; subst res; clear H.
    cbn [Outcome.price Outcome.strategy Outcome.details]. split.
    + destruct (parsePrice_cases (fiyat item)) as [En|[p [Ep Hp]]].
      * unfold priceParseable in Hprice. rewrite En in Hprice. discriminate.
      * rewrite Ep. cbn [nmul]. apply nge_Fin. change (inject_Z 0) with 0%Q.
        apply Qmult_le_0_compat; lra.
    + intros _. eexists. eexists. split; [reflexivity|].
      apply nge_Fin. exact Hm1.
Qed.

(** In exact arithmetic, for a request with positive width, height and
    quantity over a catalog whose price labels parse to numbers and whose
    size labels are well formed, every result has a price of at least 0 and
    every result of the multiplier strategy a multiplier of at least 1.  (In
    double precision a ratio can underflow to 0 and a product can overflow;
    see the section on bounds in double precision.) *)
Lemma price_bounds_exact (data : list PriceItem)
  (width height category quantity : string) (w h : Q) (q : Z) :
  parsedWidth width = Fin w -> (0 < w)%Q ->
  parsedWidth height = Fin h -> (0 < h)%Q ->
  parseInt quantity = Some q -> 0 < q ->
  (forall item, In item data -> priceParseable item) ->
  (forall item, In item data -> sizeWellFormed item) ->
  forall r,
    In r (results (handleCalculate data width height category quantity)) ->
    (calculatedPrice r >=? ofZ 0)%js = true /\
    (strategy r = Multiplier ->
     exists m qr, details r = MultiplierDetails m qr /\ (m >=? ofZ 1)%js = true).
Proof.
  intros Ew Hw Eh Hh Eq Hq Hprice Hsize r Hr.
  destruct (results_origin _ _ _ _ _ _ Hr)
    as [q' [groups [name [items [Eq' [_ [_ [_ [_ [_ [Hsub Hp]]]]]]]]]]].
  rewrite Eq in Eq'. inversion Eq'; subst q'; clear Eq'.
  unfold parsedWidth in Ew, Eh. rewrite Ew, Eh in Hp.
  destruct (processGroup_fields _ _ _ _ _ _ _ Hp)
    as [res [item [Hbest [_ [_ [Hst [Hpr [_ [Hdet _]]]]]]]]].
  apply bestCandidate_origin in Hbest as [Hin Hcalc].
  rewrite Hst, Hpr, Hdet.
  exact (calculate_nonneg item w h q res Hw Hh Hq
           (Hprice _ (Hsub _ Hin)) (Hsize _ (Hsub _ Hin)) Hcalc).
Qed.

(* ================================================================== *)
(** ** Rounding to double precision *)

Import Binary64.

Lemma pow2_pos (e : Z) : (0 < Qpower 2 e)%Q.
Proof. apply Qpower_0_lt. reflexivity. Qed.

Lemma pow2_add (a b : Z) : (Qpower 2 (a + b) == Qpower 2 a * Qpower 2 b)%Q.
Proof. apply Qpower_plus. discriminate. Qed.

Lemma pow2_le (a b : Z) : a <= b -> (Qpower 2 a <= Qpower 2 b)%Q.
Proof. intro H. apply Qpower_le_compat_l; [exact H|discriminate]. Qed.

Lemma pow2_lt_inv (a b : Z) : (Qpower 2 a < Qpower 2 b)%Q -> a < b.
Proof. intro H. apply (Qpower_lt_compat_l_inv 2); [exact H|reflexivity]. Qed.

Lemma pow2_Z (n : Z) : 0 <= n -> (inject_Z (2 ^ n) == Qpower 2 n)%Q.
Proof. intro H. apply (Zpower_Qpower 2 n H). Qed.

(** [ilog2] is the binary exponent. *)
Lemma ilog2_spec (x : Q) :
  (0 < x)%Q ->
  (Qpower 2 (ilog2 x) <= x)%Q /\ (x < Qpower 2 (ilog2 x + 1))%Q.
Proof.
  intro Hx. unfold ilog2.
  destruct x as [p q]. cbn [Qnum Qden].
  assert (Hp : 0 < p).
  { unfold Qlt in Hx. cbn in Hx. lia. }
  set (a := Z.log2 p). set (b := Z.log2 (Zpos q)).
  assert (Ha : 2 ^ a <= p < 2 ^ (a + 1)).
  { pose proof (Z.log2_spec p Hp) as H. unfold a. replace (Z.log2 p + 1) with (Z.succ (Z.log2 p)) by lia. exact H. }
  assert (Hb : 2 ^ b <= Zpos q < 2 ^ (b + 1)).
  { pose proof (Z.log2_spec (Zpos q) eq_refl) as H. unfold b.
    replace (Z.log2 (Zpos q) + 1) with (Z.succ (Z.log2 (Zpos q))) by lia. exact H. }
  assert (Ha0 : 0 <= a) by apply Z.log2_nonneg.
  assert (Hb0 : 0 <= b) by apply Z.log2_nonneg.
  assert (Hq : (0 < inject_Z (Zpos q))%Q) by reflexivity.
  assert (Ex : (p # q == inject_Z p / inject_Z (Zpos q))%Q) by apply Qmake_Qdiv.
  (* bounds on the numerator and the denominator as rationals *)
  assert (A1 : (Qpower 2 a <= inject_Z p)%Q).
  { rewrite <- pow2_Z by exact Ha0. rewrite <- Zle_Qle. lia. }
  assert (A2 : (inject_Z p < Qpower 2 (a + 1))%Q).
  { rewrite <- pow2_Z by lia. rewrite <- Zlt_Qlt. lia. }
  assert (B1 : (Qpower 2 b <= inject_Z (Zpos q))%Q).
  { rewrite <- pow2_Z by exact Hb0. rewrite <- Zle_Qle. lia. }
  assert (B2 : (inject_Z (Zpos q) < Qpower 2 (b + 1))%Q).
  { rewrite <- pow2_Z by lia. rewrite <- Zlt_Qlt. lia. }
  assert (U : (p # q < Qpower 2 (a - b + 1))%Q).
  { rewrite Ex. apply Qlt_shift_div_r; [exact Hq|].
    eapply Qlt_le_trans; [exact A2|].
    replace (a + 1) with ((a - b + 1) + b) by lia. rewrite pow2_add.
    apply Qmult_le_l; [apply pow2_pos|exact B1]. }
  assert (L : (Qpower 2 (a - b - 1) <= p # q)%Q).
  { rewrite Ex. apply Qle_shift_div_l; [exact Hq|].
    eapply Qle_trans; [|exact A1].
    replace a with ((a - b - 1) + (b + 1)) at 2 by lia. rewrite pow2_add.
    apply Qmult_le_l; [apply pow2_pos|]. apply Qlt_le_weak. exact B2. }
  destruct (Qle_bool (Qpower 2 (a - b)) (p # q)) eqn:E.
  - apply Qle_bool_iff in E. split; [exact E|exact U].
  - split; [exact L|].
    replace (a - b - 1 + 1) with (a - b) by lia.
    apply Qnot_le_lt. intro H. apply Qle_bool_iff in H. rewrite H in E. discriminate.
Qed.

Lemma ilog2_mono (x y : Q) :
  (0 < x)%Q -> (x <= y)%Q -> ilog2 x <= ilog2 y.
Proof.
  intros Hx Hxy.
  assert (Hy : (0 < y)%Q) by (eapply Qlt_le_trans; eassumption).
  destruct (ilog2_spec x Hx) as [Lx _]. destruct (ilog2_spec y Hy) as [_ Uy].
  assert (H : (Qpower 2 (ilog2 x) < Qpower 2 (ilog2 y + 1))%Q).
  { eapply Qle_lt_trans; [exact Lx|]. eapply Qle_lt_trans; [exact Hxy|exact Uy]. }
  apply pow2_lt_inv in H. lia.
Qed.

(** The exponent is determined by the binade. *)
Lemma ilog2_unique (x : Q) (e : Z) :
  (Qpower 2 e <= x)%Q -> (x < Qpower 2 (e + 1))%Q -> ilog2 x = e.
Proof.
  intros L U.
  assert (Hx : (0 < x)%Q) by (eapply Qlt_le_trans; [apply pow2_pos|exact L]).
  destruct (ilog2_spec x Hx) as [L' U'].
  assert (H1 : (Qpower 2 e < Qpower 2 (ilog2 x + 1))%Q) by (eapply Qle_lt_trans; eassumption).
  assert (H2 : (Qpower 2 (ilog2 x) < Qpower 2 (e + 1))%Q) by (eapply Qle_lt_trans; eassumption).
  apply pow2_lt_inv in H1, H2. lia.
Qed.

(** *** Rounding to the nearest integer *)

Lemma rne_floor (t : Q) : Qfloor t <= rne t <= Qfloor t + 1.
Proof.
  unfold rne. destruct (_ ?= _)%Q; [destruct (Z.even _)| |]; lia.
Qed.

Lemma rne_Z (k : Z) : rne (inject_Z k) = k.
Proof.
  unfold rne. rewrite Qfloor_Z.
  assert (E : (inject_Z k - inject_Z k ?= 1 # 2)%Q = Lt).
  { rewrite <- Qlt_alt. lra. }
  rewrite E. reflexivity.
Qed.

Lemma rne_mono (s t : Q) : (s <= t)%Q -> rne s <= rne t.
Proof.
  intro H. pose proof (Qfloor_resp_le s t H) as Hf.
  pose proof (rne_floor s) as Bs. pose proof (rne_floor t) as Bt.
  destruct (Z.eq_dec (Qfloor s) (Qfloor t)) as [E|N]; [|lia].
  unfold rne in *. rewrite E in *.
  set (f := Qfloor t) in *.
  destruct (Qcompare_spec (s - inject_Z f) (1 # 2)) as [Es|Ls|Gs];
    destruct (Qcompare_spec (t - inject_Z f) (1 # 2)) as [Et|Lt|Gt];
    try (destruct (Z.even f)); try lia; exfalso; lra.
Qed.

Lemma rne_ge (k : Z) (t : Q) : (inject_Z k <= t)%Q -> k <= rne t.
Proof. intro H. rewrite <- (rne_Z k). apply rne_mono. exact H. Qed.

Lemma rne_le (k : Z) (t : Q) : (t <= inject_Z k)%Q -> rne t <= k.
Proof. intro H. rewrite <- (rne_Z k). apply rne_mono. exact H. Qed.

(** *** Rounding a positive rational *)

Lemma ulp_pos (a : Q) : (0 < ulp a)%Q.
Proof. apply pow2_pos. Qed.

Lemma nearest_nonneg (a : Q) : (0 <= a)%Q -> (0 <= nearest a)%Q.
Proof.
  intro H. unfold nearest. apply Qmult_le_0_compat; [|apply Qlt_le_weak, ulp_pos].
  change 0%Q with (inject_Z 0). rewrite <- Zle_Qle. apply rne_ge.
  apply Qle_shift_div_l; [apply ulp_pos|]. change (inject_Z 0) with 0%Q. lra.
Qed.

Lemma nearest_mono (a b : Q) :
  (0 < a)%Q -> (a <= b)%Q -> (nearest a <= nearest b)%Q.
Proof.
  intros Ha Hab.
  assert (Hb : (0 < b)%Q) by (eapply Qlt_le_trans; eassumption).
  pose proof (ilog2_mono a b Ha Hab) as He.
  unfold nearest, ulp.
  set (ea := Z.max (ilog2 a) (-1022)). set (eb := Z.max (ilog2 b) (-1022)).
  assert (Hle : ea <= eb) by (unfold ea, eb; lia).
  destruct (Z.eq_dec ea eb) as [E|N].
  - rewrite E. apply Qmult_le_compat_r; [|apply Qlt_le_weak, pow2_pos].
    rewrite <- Zle_Qle. apply rne_mono.
    apply Qmult_le_compat_r; [exact Hab|].
    apply Qlt_le_weak, Qinv_lt_0_compat, pow2_pos.
  - assert (Hlt : ea < eb) by lia.
    assert (Eb : eb = ilog2 b) by (unfold ea, eb in *; lia).
    destruct (ilog2_spec a Ha) as [_ Ua]. destruct (ilog2_spec b Hb) as [Lb _].
    (* nearest a <= 2^(ea+1) <= 2^eb <= nearest b *)
    apply Qle_trans with (Qpower 2 (ea + 1)).
    + assert (Hn : rne (a / Qpower 2 (ea - 52)) <= 2 ^ 53).
      { apply rne_le. apply Qle_shift_div_r; [apply pow2_pos|].
        rewrite pow2_Z by lia. rewrite <- pow2_add.
        replace (53 + (ea - 52)) with (ea + 1) by lia.
        apply Qlt_le_weak. eapply Qlt_le_trans; [exact Ua|].
        apply pow2_le. unfold ea. lia. }
      apply Qle_trans with (inject_Z (2 ^ 53) * Qpower 2 (ea - 52))%Q.
      * apply Qmult_le_compat_r; [|apply Qlt_le_weak, pow2_pos].
        rewrite <- Zle_Qle. exact Hn.
      * rewrite pow2_Z by lia. rewrite <- pow2_add.
        replace (53 + (ea - 52)) with (ea + 1) by lia. apply Qle_refl.
    + apply Qle_trans with (Qpower 2 eb); [apply pow2_le; lia|].
      assert (Hn : 2 ^ 52 <= rne (b / Qpower 2 (eb - 52))).
      { apply rne_ge. apply Qle_shift_div_l; [apply pow2_pos|].
        rewrite pow2_Z by lia. rewrite <- pow2_add.
        replace (52 + (eb - 52)) with eb by lia. rewrite Eb. exact Lb. }
      apply Qle_trans with (inject_Z (2 ^ 52) * Qpower 2 (eb - 52))%Q.
      * rewrite pow2_Z by lia. rewrite <- pow2_add.
        replace (52 + (eb - 52)) with eb by lia. apply Qle_refl.
      * apply Qmult_le_compat_r; [|apply Qlt_le_weak, pow2_pos].
        rewrite <- Zle_Qle. exact Hn.
Qed.

(** *** Rounding a number *)

Lemma roundQ_pos (x : Q) :
  (0 < x)%Q ->
  roundQ x = if Qle_bool (Qpower 2 1024) (nearest x) then Inf false
             else Fin (nearest x).
Proof.
  intro H. unfold roundQ, roundPos.
  assert (E : (0 ?= x)%Q = Lt) by (rewrite <- Qlt_alt; exact H). rewrite E.
  destruct (Qle_bool _ _); reflexivity.
Qed.

Lemma roundQ_neg (x : Q) :
  (x < 0)%Q ->
  roundQ x = if Qle_bool (Qpower 2 1024) (nearest (- x)) then Inf true
             else Fin (- nearest (- x)).
Proof.
  intro H. unfold roundQ, roundPos.
  assert (E : (0 ?= x)%Q = Gt) by (rewrite <- Qgt_alt; exact H). rewrite E.
  destruct (Qle_bool _ _); reflexivity.
Qed.

Lemma roundQ_zero (x : Q) : (x == 0)%Q -> roundQ x = Fin 0.
Proof.
  intro H. unfold roundQ.
  assert (E : (0 ?= x)%Q = Eq) by (rewrite <- Qeq_alt; symmetry; exact H).
  rewrite E. reflexivity.
Qed.

Lemma nle_refl_Fin (p : Q) : (Fin p <=? Fin p)%js = true.
Proof. apply nle_Fin. apply Qle_refl. Qed.

Lemma nle_trans (a b c : number) :
  (a <=? b)%js = true -> (b <=? c)%js = true -> (a <=? c)%js = true.
Proof.
  destruct a as [|s|p], b as [|t|q], c as [|u|r];
    try (repeat match goal with x : bool |- _ => destruct x end;
         cbn; intros; (discriminate || reflexivity)).
  rewrite !nle_Fin. intros. lra.
Qed.

Lemma nlt_le_trans (a b c : number) :
  (a <? b)%js = true -> (b <=? c)%js = true -> (a <? c)%js = true.
Proof.
  destruct a as [|s|p], b as [|t|q], c as [|u|r];
    try (repeat match goal with x : bool |- _ => destruct x end;
         cbn; intros; (discriminate || reflexivity)).
  rewrite !nlt_Fin, nle_Fin. intros. lra.
Qed.

Lemma roundQ_nonneg (x : Q) :
  (0 <= x)%Q -> (Fin 0 <=? roundQ x)%js = true.
Proof.
  intro H. destruct (Qlt_le_dec 0 x) as [L|G].
  - rewrite roundQ_pos by exact L. destruct (Qle_bool _ _); [reflexivity|].
    apply nle_Fin. apply nearest_nonneg. exact H.
  - rewrite roundQ_zero by lra. apply nle_refl_Fin.
Qed.

Lemma roundQ_nonpos (x : Q) :
  (x <= 0)%Q -> (roundQ x <=? Fin 0)%js = true.
Proof.
  intro H. destruct (Qlt_le_dec x 0) as [L|G].
  - rewrite roundQ_neg by exact L. destruct (Qle_bool _ _); [reflexivity|].
    apply nle_Fin. assert (0 <= nearest (- x))%Q by (apply nearest_nonneg; lra). lra.
  - rewrite roundQ_zero by lra. apply nle_refl_Fin.
Qed.

(** Rounding is monotone. *)
Lemma roundQ_mono (x y : Q) :
  (x <= y)%Q -> (roundQ x <=? roundQ y)%js = true.
Proof.
  intro H. destruct (Qlt_le_dec 0 x) as [Px|Nx].
  - (* both positive *)
    assert (Py : (0 < y)%Q) by lra.
    pose proof (nearest_mono x y Px H) as Hn.
    rewrite (roundQ_pos x Px), (roundQ_pos y Py).
    destruct (Qle_bool (Qpower 2 1024) (nearest x)) eqn:Ex.
    + apply Qle_bool_iff in Ex.
      assert (Ey : Qle_bool (Qpower 2 1024) (nearest y) = true)
        by (apply Qle_bool_iff; lra).
      rewrite Ey. reflexivity.
    + destruct (Qle_bool (Qpower 2 1024) (nearest y)); [reflexivity|].
      apply nle_Fin. exact Hn.
  - destruct (Qlt_le_dec y 0) as [Ny|Py].
    + (* both negative *)
      assert (Nx' : (x < 0)%Q) by lra.
      assert (Hn : (nearest (- y) <= nearest (- x))%Q) by (apply nearest_mono; lra).
      rewrite (roundQ_neg x Nx'), (roundQ_neg y Ny).
      destruct (Qle_bool (Qpower 2 1024) (nearest (- y))) eqn:Ey.
      * apply Qle_bool_iff in Ey.
        assert (Ex : Qle_bool (Qpower 2 1024) (nearest (- x)) = true)
          by (apply Qle_bool_iff; lra).
        rewrite Ex. reflexivity.
      * destruct (Qle_bool (Qpower 2 1024) (nearest (- x))); [reflexivity|].
        apply nle_Fin. lra.
    + eapply nle_trans; [apply roundQ_nonpos; exact Nx|apply roundQ_nonneg; exact Py].
Qed.

Lemma rnd_not_NaN (a : number) : isNaN a = false -> isNaN (rnd a) = false.
Proof.
  destruct a as [|s|q]; [discriminate|reflexivity|]. intros _. cbn [rnd].
  unfold roundQ, roundPos. destruct (0 ?= q)%Q; [reflexivity| |];
    destruct (Qle_bool _ _); reflexivity.
Qed.

Lemma rnd_mono (a b : number) :
  (a <=? b)%js = true -> (rnd a <=? rnd b)%js = true.
Proof.
  destruct a as [|s|p], b as [|t|q]; try discriminate.
  - destruct s, t; try discriminate; reflexivity.
  - destruct s; [|discriminate]. intros _. cbn [rnd].
    pose proof (rnd_not_NaN (Fin q) eq_refl) as H. cbn [rnd] in H.
    destruct (roundQ q) as [|u|r]; [discriminate|destruct u; reflexivity|reflexivity].
  - destruct t; [discriminate|]. intros _. cbn [rnd].
    pose proof (rnd_not_NaN (Fin p) eq_refl) as H. cbn [rnd] in H.
    destruct (roundQ p) as [|u|r]; [discriminate|destruct u; reflexivity|reflexivity].
  - rewrite nle_Fin. cbn [rnd]. apply roundQ_mono.
Qed.

(** Rounding keeps a number that is at least 1 at least 1, and a number
    that is not negative not negative. *)
Lemma rnd_atLeastOne (a : number) : atLeastOne a -> atLeastOne (rnd a).
Proof.
  unfold atLeastOne. intro H.
  eapply nle_trans; [|apply rnd_mono; exact H]. vm_compute. reflexivity.
Qed.

Lemma rnd_nonneg (a : number) :
  (ofZ 0 <=? a)%js = true -> (ofZ 0 <=? rnd a)%js = true.
Proof.
  intro H. eapply nle_trans; [|apply rnd_mono; exact H]. vm_compute. reflexivity.
Qed.

(** A rounded number is positive only if the exact one is. *)
Lemma rnd_positive_inv (a : number) : isPositive (rnd a) -> isPositive a.
Proof.
  unfold isPositive. intro H.
  destruct a as [|s|q]; [discriminate H|exact H|].
  apply nlt_Fin. change (inject_Z 0) with 0%Q.
  apply Qnot_le_lt. intro Hq. cbn [rnd] in H.
  pose proof (roundQ_nonpos q Hq) as Hn.
  destruct (roundQ q) as [|u|r]; [discriminate H|destruct u; discriminate|].
  unfold ofZ in H. rewrite nlt_Fin in H. rewrite nle_Fin in Hn.
  change (inject_Z 0) with 0%Q in H. lra.
Qed.

(** The least positive double is 2^-1074. *)
Lemma nearest_positive (a : Q) :
  (0 < nearest a)%Q -> (Qpower 2 (-1074) <= nearest a)%Q.
Proof.
  unfold nearest. intro H.
  assert (Hn : 1 <= rne (a / ulp a)).
  { destruct (Z_lt_le_dec (rne (a / ulp a)) 1) as [L|G]; [|exact G]. exfalso.
    assert (Hz : (inject_Z (rne (a / ulp a)) <= 0)%Q).
    { change 0%Q with (inject_Z 0). rewrite <- Zle_Qle. lia. }
    pose proof (ulp_pos a) as Hu.
    assert (inject_Z (rne (a / ulp a)) * ulp a <= 0)%Q.
    { rewrite <- (Qmult_0_l (ulp a)). apply Qmult_le_compat_r; [exact Hz|lra]. }
    lra. }
  apply Qle_trans with (inject_Z 1 * ulp a)%Q.
  - rewrite Qmult_1_l. unfold ulp. apply pow2_le. lia.
  - apply Qmult_le_compat_r; [|apply Qlt_le_weak, ulp_pos].
    rewrite <- Zle_Qle. exact Hn.
Qed.

Lemma rnd_positive_least (a : number) :
  isPositive (rnd a) -> (Fin (Qpower 2 (-1074)) <=? rnd a)%js = true.
Proof.
  intro H. pose proof (rnd_positive_inv a H) as Ha. unfold isPositive, ofZ in *.
  destruct a as [|s|q]; [discriminate|destruct s; [discriminate|reflexivity]|].
  rewrite nlt_Fin in Ha. change (inject_Z 0) with 0%Q in Ha.
  cbn [rnd] in *. rewrite roundQ_pos in * by exact Ha.
  destruct (Qle_bool _ _); [reflexivity|].
  rewrite nlt_Fin in H. change (inject_Z 0) with 0%Q in H.
  apply nle_Fin. apply nearest_positive. exact H.
Qed.

(** Whatever is at least the least positive double rounds to a positive
    number. *)
Lemma rnd_positive_from (a : number) :
  (Fin (Qpower 2 (-1074)) <=? a)%js = true -> isPositive (rnd a).
Proof.
  intro H. unfold isPositive.
  eapply nlt_le_trans; [|apply rnd_mono; exact H]. vm_compute. reflexivity.
Qed.

(* ------------------------------------------------------------------ *)
(** *** Agreement with the IEEE-754 operations of the Standard Library *)

(** On the inputs that decide the properties below, the operations of
    [Binary64] give the results of the binary64 operations of [SpecFloat]. *)

Example div_as_SpecFloat :
  same (div (Fin 86.5) (ofZ 86))
       (ofSpec (SpecFloat.SFdiv 53 1024 (specOf 173 (-1)) (specOf 86 0))).
Proof. vm_compute. reflexivity. Qed.

Example sub_as_SpecFloat :
  same (sub (div (Fin 86.5) (ofZ 86)) (ofZ 1))
       (ofSpec (SpecFloat.SFsub 53 1024
                  (SpecFloat.SFdiv 53 1024 (specOf 173 (-1)) (specOf 86 0))
                  (specOf 1 0))).
Proof. vm_compute. reflexivity. Qed.

Example deviation_as_SpecFloat :
  same (mul (abs (sub (div (Fin 86.5) (ofZ 86)) (ofZ 1))) (ofZ 86))
       (ofSpec (SpecFloat.SFmul 53 1024
                  (SpecFloat.SFsub 53 1024
                     (SpecFloat.SFdiv 53 1024 (specOf 173 (-1)) (specOf 86 0))
                     (specOf 1 0))
                  (specOf 86 0))).
Proof. vm_compute. reflexivity. Qed.

Example lit_as_SpecFloat :
  same (lit 0.21) (ofSpec (SpecFloat.SFdiv 53 1024 (specOf 21 0) (specOf 100 0))).
Proof. vm_compute. reflexivity. Qed.

Example mul_as_SpecFloat :
  same (mul (ofZ 15000) (lit 0.21))
       (ofSpec (SpecFloat.SFmul 53 1024 (specOf 15000 0)
                  (SpecFloat.SFdiv 53 1024 (specOf 21 0) (specOf 100 0)))).
Proof. vm_compute. reflexivity. Qed.

Example sqrt_as_SpecFloat :
  same (sqrt (ofZ 2)) (ofSpec (SpecFloat.SFsqrt 53 1024 (specOf 2 0))) /\
  same (sqrt (roundQ (Qpower 10 37)))
       (ofSpec (SpecFloat.SFsqrt 53 1024
                  (SpecFloat.binary_normalize 53 1024 (10 ^ 37) 0 false))).
Proof. split; vm_compute; reflexivity. Qed.

Example underflow_as_SpecFloat :
  same (roundQ (Qpower 10 (-323))) (ofSpec (specOf 2 (-1074))) /\
  same (div (roundQ (Qpower 10 (-323))) (ofZ 86))
       (ofSpec (SpecFloat.SFdiv 53 1024 (specOf 2 (-1074)) (specOf 86 0))).
Proof. split; vm_compute; reflexivity. Qed.

Example overflow_as_SpecFloat :
  same (mul (roundQ (Qpower 2 1000)) (roundQ (Qpower 2 1000)))
       (ofSpec (SpecFloat.SFmul 53 1024 (specOf 1 1000) (specOf 1 1000))).
Proof. vm_compute. reflexivity. Qed.

(** *** Whole numbers in double precision *)

Lemma rne_comp (s t : Q) : (s == t)%Q -> rne s = rne t.
Proof.
  intro H. apply Z.le_antisymm; apply rne_mono; rewrite H; apply Qle_refl.
Qed.

Lemma ilog2_ge_0 (x : Q) : (1 <= x)%Q -> 0 <= ilog2 x.
Proof.
  intro H. replace 0 with (ilog2 1) by reflexivity.
  apply ilog2_mono; [reflexivity|exact H].
Qed.

(** A whole number of at least 1 rounds to such a number or overflows. *)
Lemma roundQ_whole (x : Q) (z : Z) :
  (x == inject_Z z)%Q -> 1 <= z -> wholeFromOne (roundQ x).
Proof.
  intros Ex Hz.
  assert (H1 : (1 <= x)%Q).
  { rewrite Ex. change 1%Q with (inject_Z 1). rewrite <- Zle_Qle. exact Hz. }
  assert (Hx : (0 < x)%Q) by lra.
  rewrite roundQ_pos by exact Hx.
  destruct (Qle_bool _ _); [left; reflexivity|]. right.
  pose proof (ilog2_ge_0 x H1) as He.
  destruct (ilog2_spec x Hx) as [L U].
  unfold nearest, ulp. rewrite Z.max_l by lia.
  set (e := ilog2 x) in *.
  assert (Hn : 2 ^ 52 <= rne (x / Qpower 2 (e - 52))).
  { apply rne_ge. apply Qle_shift_div_l; [apply pow2_pos|].
    rewrite pow2_Z by lia. rewrite <- pow2_add.
    replace (52 + (e - 52)) with e by lia. exact L. }
  destruct (Z_le_gt_dec e 52) as [Hs|Hb].
  - (* the number is below 2^53 and is kept *)
    exists z. split; [exact Hz|]. cbn [same ofZ].
    assert (En : rne (x / Qpower 2 (e - 52)) = z * 2 ^ (52 - e)).
    { rewrite <- (rne_Z (z * 2 ^ (52 - e))). apply rne_comp.
      rewrite inject_Z_mult, pow2_Z by lia. rewrite Ex.
      replace (e - 52) with (- (52 - e)) by lia. rewrite Qpower_opp.
      field. apply Qnot_eq_sym, Qlt_not_eq, pow2_pos. }
    rewrite En, inject_Z_mult, pow2_Z by lia.
    rewrite <- Qmult_assoc, <- pow2_add.
    replace (52 - e + (e - 52)) with 0 by lia. change (Qpower 2 0) with 1%Q. ring.
  - (* the unit in the last place is a whole number *)
    exists (rne (x / Qpower 2 (e - 52)) * 2 ^ (e - 52)). split.
    + assert (0 < 2 ^ (e - 52)) by (apply Z.pow_pos_nonneg; lia).
      assert (0 < 2 ^ 52) by reflexivity. nia.
    + cbn [same ofZ]. rewrite inject_Z_mult, pow2_Z by lia. reflexivity.
Qed.

Lemma wholeFromOne_atLeastOne (a : number) : wholeFromOne a -> atLeastOne a.
Proof.
  unfold atLeastOne. intros [->|[z [Hz E]]]; [reflexivity|].
  destruct a as [| |q]; try contradiction. cbn [same ofZ] in E.
  apply nle_Fin. rewrite E. rewrite <- Zle_Qle. exact Hz.
Qed.

Lemma mul_whole (a b : number) :
  wholeFromOne a -> wholeFromOne b -> wholeFromOne (mul a b).
Proof.
  unfold mul. intros [->|[za [Ha Ea]]] [->|[zb [Hb Eb]]].
  - left. reflexivity.
  - destruct b as [| |q]; try contradiction. cbn [same ofZ] in Eb.
    cbn [nmul]. assert (E : (0 ?= q)%Q = Lt).
    { rewrite <- Qlt_alt. rewrite Eb. change 0%Q with (inject_Z 0).
      rewrite <- Zlt_Qlt. lia. }
    rewrite E. left. reflexivity.
  - destruct a as [| |p]; try contradiction. cbn [same ofZ] in Ea.
    cbn [nmul]. assert (E : (0 ?= p)%Q = Lt).
    { rewrite <- Qlt_alt. rewrite Ea. change 0%Q with (inject_Z 0).
      rewrite <- Zlt_Qlt. lia. }
    rewrite E. left. reflexivity.
  - destruct a as [| |p]; try contradiction. destruct b as [| |q]; try contradiction.
    cbn [same ofZ] in Ea, Eb. cbn [nmul rnd].
    apply (roundQ_whole _ (za * zb)); [|nia].
    rewrite Ea, Eb, inject_Z_mult. reflexivity.
Qed.

Lemma ceil_whole (a : number) : isPositive a -> wholeFromOne (ceil a).
Proof.
  unfold isPositive. destruct a as [|s|q]; [discriminate| |].
  - destruct s; [discriminate|]. intros _. left. reflexivity.
  - unfold ofZ. rewrite nlt_Fin. change (inject_Z 0) with 0%Q. intro H.
    right. exists (Qceiling q). split; [|cbn; reflexivity].
    pose proof (Qle_ceiling q) as Hc.
    destruct (Z_lt_le_dec (Qceiling q) 1) as [L|G]; [|exact G]. exfalso.
    assert (inject_Z (Qceiling q) <= 0)%Q.
    { change 0%Q with (inject_Z 0). rewrite <- Zle_Qle. lia. }
    lra.
Qed.

Lemma max1_round_whole (r : number) :
  isPositive r -> wholeFromOne (max (ofZ 1) (round r)).
Proof.
  unfold isPositive. destruct r as [|s|q]; [discriminate| |].
  - destruct s; [discriminate|]. intros _. left. reflexivity.
  - intros _. right. cbn [round]. unfold max, ofZ. cbn [ncompare].
    destruct (Qcompare_spec (inject_Z 1) (inject_Z (qround q))) as [E|L|G].
    + exists 1. split; [lia|cbn; reflexivity].
    + exists (qround q). rewrite <- Zlt_Qlt in L. split; [lia|cbn; reflexivity].
    + exists 1. split; [lia|cbn; reflexivity].
Qed.

Lemma min_whole (a b : number) :
  wholeFromOne a -> wholeFromOne b -> wholeFromOne (min a b).
Proof.
  intros Ha Hb. unfold min.
  pose proof (wholeFromOne_atLeastOne a Ha) as Na.
  pose proof (wholeFromOne_atLeastOne b Hb) as Nb.
  unfold atLeastOne, nle in Na, Nb.
  destruct (ncompare a b) as [[| |]|] eqn:E; try assumption.
  exfalso. destruct a as [| |p], b as [| |q]; try discriminate.
Qed.

Lemma MAX_VALUE_whole : wholeFromOne MAX_VALUE.
Proof.
  right. exists (2 ^ 1024 - 2 ^ 971). split; [|cbn; reflexivity].
  assert (2 ^ 971 < 2 ^ 1024) by (apply Z.pow_lt_mono_r; lia).
  assert (0 < 2 ^ 971) by (apply Z.pow_pos_nonneg; lia). lia.
Qed.

(** *** The evaluator in double precision *)

Lemma nle_same_l (a b c : number) :
  same a b -> (b <=? c)%js = true -> (a <=? c)%js = true.
Proof.
  destruct a as [|s|p], b as [|t|q]; cbn [same]; try contradiction.
  - intros _ H. exact H.
  - intros -> H. exact H.
  - intros E. destruct c as [|u|r]; [discriminate| |].
    + intro H. exact H.
    + rewrite !nle_Fin. intro H. rewrite E. exact H.
Qed.

(** Scaling a positive double by a whole number of at least 1 does not make
    it smaller. *)
Lemma mul_scale_ge (wq : Q) (c : Z) :
  (0 < wq)%Q -> isDouble (Fin wq) -> 1 <= c ->
  (Fin wq <=? mul (Fin wq) (ofZ c))%js = true.
Proof.
  intros Hw Hd Hc. unfold mul. cbn [nmul ofZ].
  assert (Hle : (Fin wq <=? Fin (wq * inject_Z c))%js = true).
  { apply nle_Fin.
    assert (1 <= inject_Z c)%Q by (change 1%Q with (inject_Z 1); rewrite <- Zle_Qle; exact Hc).
    nra. }
  apply rnd_mono in Hle.
  unfold isDouble in Hd.
  assert (Hs : same (Fin wq) (rnd (Fin wq))).
  { destruct (rnd (Fin wq)) as [| |r]; cbn [same] in *; try contradiction.
    symmetry. exact Hd. }
  exact (nle_same_l _ _ _ Hs Hle).
Qed.

Lemma Qdiv_pos_neg (p b : Q) : (0 < p)%Q -> (b < 0)%Q -> (p / b < 0)%Q.
Proof.
  intros Hp Hb.
  assert (H : (0 < p / (- b))%Q) by (apply Qlt_shift_div_l; lra).
  assert (E : (p / b == - (p / (- b)))%Q) by (field; lra).
  rewrite E. lra.
Qed.

Lemma ndiv_mono_positive (p : Q) (x b : number) :
  (0 < p)%Q -> (Fin p <=? x)%js = true ->
  isPositive (Fin p / b)%js ->
  (Fin p / b <=? x / b)%js = true.
Proof.
  unfold isPositive, ofZ. intros Hp Hx Hpos.
  destruct b as [|t|bq]; [discriminate Hpos|discriminate Hpos|].
  destruct x as [|s|xq]; [discriminate Hx| |].
  - destruct s; [discriminate Hx|]. cbn [ndiv] in *.
    destruct (Qcompare_spec 0 bq) as [E|L|G].
    + destruct (Qcompare_spec 0 p) as [E'|L'|G']; try reflexivity; exfalso; lra.
    + reflexivity.
    + exfalso. rewrite nlt_Fin in Hpos. change (inject_Z 0) with 0%Q in Hpos.
      pose proof (Qdiv_pos_neg p bq Hp G). lra.
  - rewrite nle_Fin in Hx. cbn [ndiv] in *.
    destruct (Qcompare_spec 0 bq) as [E|L|G].
    + destruct (Qcompare_spec 0 p) as [E'|L'|G']; try (exfalso; lra).
      destruct (Qcompare_spec 0 xq) as [E''|L''|G'']; try (exfalso; lra). reflexivity.
    + apply nle_Fin. apply Qmult_le_compat_r; [exact Hx|].
      apply Qlt_le_weak, Qinv_lt_0_compat. exact L.
    + exfalso. rewrite nlt_Fin in Hpos. change (inject_Z 0) with 0%Q in Hpos.
      pose proof (Qdiv_pos_neg p bq Hp G). lra.
Qed.

Lemma div_scaled_positive (wq : Q) (c : Z) (b : number) :
  (0 < wq)%Q -> isDouble (Fin wq) -> 1 <= c ->
  isPositive (div (Fin wq) b) ->
  isPositive (div (mul (Fin wq) (ofZ c)) b).
Proof.
  intros Hw Hd Hc Hpos.
  pose proof (mul_scale_ge wq c Hw Hd Hc) as Hge.
  pose proof (rnd_positive_inv _ Hpos) as Hp.
  pose proof (ndiv_mono_positive wq _ b Hw Hge Hp) as Hle.
  apply rnd_mono in Hle. unfold isPositive in *.
  eapply nlt_le_trans; [exact Hpos|exact Hle].
Qed.

Lemma molds_whole (wq hq : Q) (r c : Z) (b1 b2 : number) :
  (0 < wq)%Q -> (0 < hq)%Q -> isDouble (Fin wq) -> isDouble (Fin hq) ->
  1 <= r -> 1 <= c ->
  isPositive (div (Fin wq) b1) -> isPositive (div (Fin hq) b2) ->
  wholeFromOne
    (mul (ceil (div (mul (Fin wq) (ofZ c)) b1))
         (ceil (div (mul (Fin hq) (ofZ r)) b2))).
Proof.
  intros Hw Hh Dw Dh Hr Hc P1 P2.
  apply mul_whole; apply ceil_whole; apply div_scaled_positive; assumption.
Qed.

(** The pairs of the layout loop are pairs of whole numbers from 1 on. *)
Lemma layouts64_pos (k : number) (l : list (Z * Z)) (r c : Z) :
  Double.layouts (ceil k) = Returns l -> In (r, c) l -> 1 <= r /\ 1 <= c.
Proof.
  unfold Double.layouts.
  destruct k as [|s|q]; cbn [ceil sqrt].
  - intro H; inversion H; subst. intros [].
  - destruct s; [|discriminate]. intro H; inversion H; subst. intros [].
  - unfold ofZ. cbn [sqrt].
    destruct (Qcompare_spec 0 (inject_Z (Qceiling q))) as [E0|L0|G0].
    + cbn. intro H; inversion H; subst. intros [].
    + set (sq := sqrtPos (inject_Z (Qceiling q))). rewrite Qfloor_Z.
      destruct (Qle_bool _ _); [discriminate|].
      intro H. injection H as <-.
      rewrite in_flat_map. intros [k [Hk Hin]]. apply in_seq in Hk.
      destruct (Z.rem (Qceiling q) (Z.of_nat k) =? 0) eqn:E; [|destruct Hin].
      destruct Hin as [H|[]]. inversion H; subst r c; clear H.
      apply Z.eqb_eq in E. split; [lia|].
      change 0%Q with (inject_Z 0) in L0. rewrite <- Zlt_Qlt in L0.
      pose proof (Z.quot_rem' (Qceiling q) (Z.of_nat k)) as Hqr.
      rewrite E, Z.add_0_r in Hqr.
      assert (Hq0 : 0 <= Qceiling q ÷ Z.of_nat k) by (apply Z.quot_pos; lia).
      nia.
    + intro H; inversion H; subst. intros [].
Qed.

Lemma layoutStep_whole (wq hq : Q) (bw bh best : number) (r c : Z) :
  (0 < wq)%Q -> (0 < hq)%Q -> isDouble (Fin wq) -> isDouble (Fin hq) ->
  isPositive (div (Fin wq) bw) -> isPositive (div (Fin wq) bh) ->
  isPositive (div (Fin hq) bw) -> isPositive (div (Fin hq) bh) ->
  1 <= r -> 1 <= c ->
  wholeFromOne best ->
  wholeFromOne (Double.layoutStep (Fin wq) (Fin hq) bw bh best (r, c)).
Proof.
  intros Hw Hh Dw Dh P1 P2 P3 P4 Hr Hc Hb. unfold Double.layoutStep.
  repeat apply min_whole; try exact Hb; apply molds_whole; assumption.
Qed.

Lemma bestTotalMolds_whole (wq hq : Q) (bw bh k m : number) :
  (0 < wq)%Q -> (0 < hq)%Q -> isDouble (Fin wq) -> isDouble (Fin hq) ->
  isPositive (div (Fin wq) bw) -> isPositive (div (Fin wq) bh) ->
  isPositive (div (Fin hq) bw) -> isPositive (div (Fin hq) bh) ->
  Double.bestTotalMolds (Fin wq) (Fin hq) bw bh k = Returns m ->
  wholeFromOne m.
Proof.
  intros Hw Hh Dw Dh P1 P2 P3 P4. unfold Double.bestTotalMolds.
  destruct (Double.layouts (ceil k)) as [l|] eqn:El; [|discriminate].
  intro H; inversion H; subst m; clear H.
  assert (Hl : forall r c, In (r, c) l -> 1 <= r /\ 1 <= c)
    by (intros r c; apply (layouts64_pos k l r c El)).
  clear El. revert Hl. generalize MAX_VALUE_whole. generalize MAX_VALUE.
  induction l as [|[r c] l IH]; intros best Hb Hl; [exact Hb|].
  cbn [fold_left]. apply IH.
  - destruct (Hl r c (or_introl eq_refl)) as [Hr Hc].
    apply layoutStep_whole; assumption.
  - intros r' c' Hin. apply Hl. right. exact Hin.
Qed.

Lemma standardImposition64_whole (w h bw bh : number) :
  isPositive (div w bw) -> isPositive (div w bh) ->
  isPositive (div h bw) -> isPositive (div h bh) ->
  fst (Double.standardImposition w h bw bh) = true ->
  wholeFromOne (snd (Double.standardImposition w h bw bh)).
Proof.
  intros P1 P2 P3 P4. unfold Double.standardImposition.
  destruct (Double.checkFit w bw && Double.checkFit h bh).
  - intros _. cbn [snd]. apply mul_whole; apply max1_round_whole; assumption.
  - destruct (Double.checkFit w bh && Double.checkFit h bw); [|discriminate].
    intros _. cbn [snd]. apply mul_whole; apply max1_round_whole; assumption.
Qed.

(** The product of a whole number of at least 1 and a positive double is
    positive. *)
Lemma mul_whole_positive (a k : number) :
  wholeFromOne a -> isPositive (rnd k) -> isPositive (mul a (rnd k)).
Proof.
  intros Ha Hk. pose proof (rnd_positive_least k Hk) as Hl.
  unfold mul. apply rnd_positive_from.
  eapply nle_trans; [exact Hl|].
  destruct Ha as [->|[z [Hz Ea]]].
  - destruct (rnd k) as [|s|q]; [discriminate Hl| |].
    + destruct s; [discriminate Hl|reflexivity].
    + rewrite nle_Fin in Hl. cbn [nmul].
      assert (E : (0 ?= q)%Q = Lt).
      { rewrite <- Qlt_alt. eapply Qlt_le_trans; [apply (pow2_pos (-1074))|exact Hl]. }
      rewrite E. reflexivity.
  - destruct a as [| |p]; try contradiction. cbn [same ofZ] in Ea.
    destruct (rnd k) as [|s|q]; [discriminate Hl| |].
    + destruct s; [discriminate Hl|]. cbn [nmul].
      assert (E : (0 ?= p)%Q = Lt).
      { rewrite <- Qlt_alt. rewrite Ea. change 0%Q with (inject_Z 0).
        rewrite <- Zlt_Qlt. lia. }
      rewrite E. reflexivity.
    + rewrite nle_Fin in Hl. cbn [nmul]. apply nle_Fin.
      assert (Hp : (1 <= p)%Q).
      { rewrite Ea. change 1%Q with (inject_Z 1). rewrite <- Zle_Qle. exact Hz. }
      pose proof (pow2_pos (-1074)). nra.
Qed.

Lemma calculate64_multiplier_path (item : PriceItem) (w h q : number) :
  usesMultiplier item = true ->
  Double.calculatePriceForItem item w h q =
  match baseMm64 item with
  | None => Returns None
  | Some (bw, bh) =>
      let qtyRatio := div q (Double.itemQtyOf item) in
      let result multiplier :=
        Some {| Outcome.price := mul (Double.parsePrice (fiyat item)) multiplier;
                Outcome.strategy := Multiplier;
                Outcome.needsCut := negb (fst (Double.standardImposition w h bw bh));
                Outcome.details := MultiplierDetails multiplier qtyRatio;
                Outcome.baseDims := Some (bw, bh) |} in
      if fst (Double.standardImposition w h bw bh)
      then Returns
             (result (ceil (mul (snd (Double.standardImposition w h bw bh)) qtyRatio)))
      else match Double.bestTotalMolds w h bw bh qtyRatio with
           | Returns m => Returns (result m)
           | Diverges => Diverges
           end
  end.
Proof.
  unfold usesMultiplier, Double.calculatePriceForItem, baseMm64.
  intro H. apply andb_true_iff in H as [H1 H2].
  apply negb_true_iff in H1. rewrite H1, H2.
  destruct (Double.baseSizeCm item) as [BW BH].
  destruct ((BW === ofZ 0)%js || (BH === ofZ 0)%js); [reflexivity|].
  cbv zeta.
  destruct (Double.standardImposition w h (mul BW (ofZ 10)) (mul BH (ofZ 10)))
    as [b m]. cbn [fst snd]. destruct b; reflexivity.
Qed.


(** The multiplier of an evaluation on the multiplier path, when no ratio of
    a requested to a base dimension and neither the quantity ratio is lost
    (zero, negative or NaN): a whole number of at least 1, or +Infinity. *)
Lemma multiplier64_whole (item : PriceItem) (wq hq : Q) (q bw bh : number)
  (res : Outcome.t) :
  usesMultiplier item = true ->
  baseMm64 item = Some (bw, bh) ->
  (0 < wq)%Q -> (0 < hq)%Q -> isDouble (Fin wq) -> isDouble (Fin hq) ->
  isPositive (div (Fin wq) bw) -> isPositive (div (Fin wq) bh) ->
  isPositive (div (Fin hq) bw) -> isPositive (div (Fin hq) bh) ->
  isPositive (div q (Double.itemQtyOf item)) ->
  Double.calculatePriceForItem item (Fin wq) (Fin hq) q = Returns (Some res) ->
  exists m,
    wholeFromOne m /\
    Outcome.details res = MultiplierDetails m (div q (Double.itemQtyOf item)) /\
    Outcome.price res = mul (Double.parsePrice (fiyat item)) m /\
    Outcome.strategy res = Multiplier.
Proof.
  intros Hm Hb Hw Hh Dw Dh P1 P2 P3 P4 Pk.
  rewrite (calculate64_multiplier_path item _ _ q Hm), Hb. cbv zeta.
  destruct (fst (Double.standardImposition (Fin wq) (Fin hq) bw bh)) eqn:Ef.
  - intro H. injection H as <-. eexists. split; [|repeat split].
    apply ceil_whole. apply mul_whole_positive; [|exact Pk].
    apply standardImposition64_whole; assumption.
  - destruct (Double.bestTotalMolds _ _ _ _ _) as [m|] eqn:Eb; [|discriminate].
    intro H. injection H as <-. exists m. split; [|repeat split].
    eapply bestTotalMolds_whole; try exact Eb; assumption.
Qed.

(** The price label in double precision: NaN, or a number that is not
    negative. *)
Lemma parsePrice64_range (s : string) :
  Double.parsePrice s = NaN \/ (ofZ 0 <=? Double.parsePrice s)%js = true.
Proof.
  unfold Double.parsePrice, Double.parseFloat.
  destruct (parsePrice_cases s) as [E|[p [E Hp]]]; unfold parsePrice in E; rewrite E.
  - left. reflexivity.
  - right. apply rnd_nonneg. apply nle_Fin. exact Hp.
Qed.

(** A price that is not negative times a whole number of at least 1. *)
Lemma price_times_whole (p m : number) :
  (ofZ 0 <=? p)%js = true -> wholeFromOne m ->
  (ofZ 0 <=? mul p m)%js = true \/ ((p === ofZ 0)%js = true /\ m = Inf false).
Proof.
  intros Hp Hm. unfold mul.
  destruct p as [|s|pq]; [discriminate Hp| |].
  - destruct s; [discriminate Hp|]. left.
    destruct Hm as [->|[z [Hz E]]]; [reflexivity|].
    destruct m as [| |mq]; try contradiction. cbn [same ofZ] in E. cbn [nmul].
    assert (E0 : (0 ?= mq)%Q = Lt).
    { rewrite <- Qlt_alt. rewrite E. change 0%Q with (inject_Z 0).
      rewrite <- Zlt_Qlt. lia. }
    rewrite E0. reflexivity.
  - unfold ofZ in Hp. rewrite nle_Fin in Hp. change (inject_Z 0) with 0%Q in Hp.
    destruct Hm as [->|[z [Hz E]]].
    + cbn [nmul]. destruct (Qcompare_spec 0 pq) as [E0|L0|G0].
      * right. split; [|reflexivity]. apply neq_Fin. symmetry. exact E0.
      * left. reflexivity.
      * exfalso. lra.
    + left. destruct m as [| |mq]; try contradiction. cbn [same ofZ] in E.
      cbn [nmul]. apply rnd_nonneg. apply nle_Fin. change (inject_Z 0) with 0%Q.
      assert (1 <= mq)%Q.
      { rewrite E. change 1%Q with (inject_Z 1). rewrite <- Zle_Qle. exact Hz. }
      nra.
Qed.

(** The magnet formula in double precision never gives a negative price or
    NaN for a positive request. *)
Lemma formula64_nonneg (wq hq qq : Q) :
  (0 < wq)%Q -> (0 < hq)%Q -> (1 <= qq)%Q -> isDouble (Fin qq) ->
  (ofZ 0 <=? mul (mul (mul (Fin wq) (Fin hq)) (lit 0.21))
               (div (Fin qq) (ofZ 1000)))%js = true.
Proof.
  intros Hw Hh Hq Dq.
  (* the quantity factor is a positive finite number *)
  assert (Hk : exists kq, div (Fin qq) (ofZ 1000) = Fin kq /\ (0 < kq)%Q).
  { unfold div, ofZ. cbn [ndiv].
    assert (E : (0 ?= inject_Z 1000)%Q = Lt) by reflexivity. rewrite E.
    assert (Lo : (Fin (1 # 1000) <=? Fin (qq / inject_Z 1000))%js = true).
    { apply nle_Fin. apply Qle_shift_div_l; [reflexivity|].
      change (inject_Z 1000) with 1000%Q. lra. }
    assert (Hi : (Fin (qq / inject_Z 1000) <=? Fin qq)%js = true).
    { apply nle_Fin. apply Qle_shift_div_r; [reflexivity|].
      change (inject_Z 1000) with 1000%Q. lra. }
    apply rnd_mono in Lo, Hi.
    assert (Hs : (rnd (Fin (qq / inject_Z 1000)) <=? Fin qq)%js = true).
    { unfold isDouble in Dq.
      destruct (rnd (Fin qq)) as [| |r] eqn:Er; cbn [same] in Dq; try contradiction.
      eapply nle_trans; [exact Hi|]. apply nle_Fin. rewrite Dq. apply Qle_refl. }
    assert (Hp : (Fin 0 <? rnd (Fin (1 # 1000)))%js = true) by (vm_compute; reflexivity).
    pose proof (nlt_le_trans _ _ _ Hp Lo) as Hpos.
    destruct (rnd (Fin (qq / inject_Z 1000))) as [|s|kq]; [discriminate Hpos| |].
    - destruct s; [discriminate Hpos|discriminate Hs].
    - exists kq. split; [reflexivity|]. rewrite nlt_Fin in Hpos. exact Hpos. }
  destruct Hk as [kq [-> Hkq]].
  (* the area factor is not negative *)
  assert (H1 : (ofZ 0 <=? mul (Fin wq) (Fin hq))%js = true).
  { unfold mul. cbn [nmul]. apply rnd_nonneg. apply nle_Fin.
    change (inject_Z 0) with 0%Q. nra. }
  assert (H2 : (ofZ 0 <=? mul (mul (Fin wq) (Fin hq)) (lit 0.21))%js = true).
  { assert (El : exists l, lit 0.21 = Fin l /\ (0 < l)%Q).
    { eexists. split; [vm_compute; reflexivity|reflexivity]. }
    destruct El as [l [-> Hl]].
    destruct (mul (Fin wq) (Fin hq)) as [|s|aq]; [discriminate H1| |].
    - destruct s; [discriminate H1|]. unfold mul. cbn [nmul].
      assert (E : (0 ?= l)%Q = Lt) by (rewrite <- Qlt_alt; exact Hl). rewrite E. reflexivity.
    - unfold ofZ in H1. rewrite nle_Fin in H1. change (inject_Z 0) with 0%Q in H1.
      unfold mul. cbn [nmul]. apply rnd_nonneg. apply nle_Fin.
      change (inject_Z 0) with 0%Q. nra. }
  destruct (mul (mul (Fin wq) (Fin hq)) (lit 0.21)) as [|s|aq]; [discriminate H2| |].
  - destruct s; [discriminate H2|]. unfold mul. cbn [nmul].
    assert (E : (0 ?= kq)%Q = Lt) by (rewrite <- Qlt_alt; exact Hkq). rewrite E. reflexivity.
  - unfold ofZ in H2. rewrite nle_Fin in H2. change (inject_Z 0) with 0%Q in H2.
    unfold mul. cbn [nmul]. apply rnd_nonneg. apply nle_Fin.
    change (inject_Z 0) with 0%Q. nra.
Qed.

(* ------------------------------------------------------------------ *)
(** *** When the layout loop ends *)

(** The square root of a number below 2^104 is below 2^53. *)
Lemma sqrtPos_bound (a : Q) :
  (0 < a)%Q -> (a < Qpower 2 104)%Q -> (sqrtPos a < inject_Z (2 ^ 53))%Q.
Proof.
  intros Ha Hb. unfold sqrtPos.
  set (e := ilog2 a / 2). set (u := Qpower 2 (e - 52)).
  set (t := (a / (u * u))%Q). set (m := Z.sqrt (Qfloor t)).
  destruct (ilog2_spec a Ha) as [La Ua].
  assert (Hl : ilog2 a < 104).
  { apply pow2_lt_inv. eapply Qle_lt_trans; [exact La|exact Hb]. }
  assert (He : e < 52) by (subst e; apply Z.div_lt_upper_bound; lia).
  assert (He2 : ilog2 a + 1 <= 2 * e + 2).
  { subst e. pose proof (Z.mod_pos_bound (ilog2 a) 2 ltac:(lia)).
    pose proof (Z.div_mod (ilog2 a) 2 ltac:(lia)). lia. }
  assert (Hu : (0 < u)%Q) by apply pow2_pos.
  assert (Huu : (u * u == Qpower 2 (2 * e - 104))%Q).
  { subst u. rewrite <- pow2_add. replace (e - 52 + (e - 52)) with (2 * e - 104) by lia.
    reflexivity. }
  assert (Ht : (t < Qpower 2 106)%Q).
  { subst t. apply Qlt_shift_div_r; [nra|].
    rewrite Huu, <- pow2_add. replace (106 + (2 * e - 104)) with (2 * e + 2) by lia.
    eapply Qlt_le_trans; [exact Ua|]. apply pow2_le. exact He2. }
  assert (Ht0 : (0 <= t)%Q).
  { subst t. apply Qle_shift_div_l; [nra|]. lra. }
  assert (Hf : 0 <= Qfloor t < 2 ^ 106).
  { split.
    - replace 0 with (Qfloor 0) by reflexivity. apply Qfloor_resp_le. exact Ht0.
    - rewrite Zlt_Qlt. eapply Qle_lt_trans; [apply Qfloor_le|].
      rewrite pow2_Z by lia. exact Ht. }
  assert (Hm : 0 <= m < 2 ^ 53).
  { subst m. split; [apply Z.sqrt_nonneg|].
    apply Z.sqrt_lt_square; [lia|lia|]. change (2 ^ 53 * 2 ^ 53) with (2 ^ 106). lia. }
  assert (Hx : forall z : Z, 0 <= z <= 2 ^ 53 ->
                 (inject_Z z * u < inject_Z (2 ^ 53))%Q).
  { intros z Hz.
    assert (Hu1 : (u <= 1 # 2)%Q).
    { subst u. change (1 # 2)%Q with (Qpower 2 (-1)). apply pow2_le. lia. }
    assert (Hz1 : (0 <= inject_Z z)%Q)
      by (change 0%Q with (inject_Z 0); rewrite <- Zle_Qle; lia).
    assert (Hz2 : (inject_Z z <= inject_Z (2 ^ 53))%Q) by (rewrite <- Zle_Qle; lia).
    assert (Hp : (0 < inject_Z (2 ^ 53))%Q) by reflexivity.
    nra. }
  destruct (_ ?= _)%Q; [destruct (Z.odd m)| |]; apply Hx; lia.
Qed.

(** The layout loop ends for a piece count of at most 2^53. *)
Lemma layouts64_returns (n : number) :
  n = NaN \/ (n <=? ofZ (2 ^ 53))%js = true -> Double.layouts n <> Diverges.
Proof.
  intros [->|H]; [discriminate|].
  destruct n as [|s|q]; [discriminate| |].
  - destruct s; [discriminate|discriminate H].
  - unfold Double.layouts. cbn [sqrt].
    unfold ofZ in H. rewrite nle_Fin in H.
    destruct (Qcompare_spec 0 q) as [E|L|G]; try discriminate.
    assert (Hs : (sqrtPos q < inject_Z (2 ^ 53))%Q).
    { apply sqrtPos_bound; [exact L|]. eapply Qle_lt_trans; [exact H|].
      reflexivity. }
    destruct (Qle_bool (inject_Z (2 ^ 53)) (sqrtPos q)) eqn:Eb; [|discriminate].
    apply Qle_bool_iff in Eb. lra.
Qed.

(** The quantity of an entry in double precision is at least 1, or
    +Infinity for a label of too many digits. *)
Lemma itemQty64_cases (item : PriceItem) :
  Double.itemQtyOf item = Inf false \/
  exists x, Double.itemQtyOf item = Fin x /\ (1 <= x)%Q.
Proof.
  unfold Double.itemQtyOf, Double.parseInt.
  destruct (parseInt_digits (keep isDigit (miktar item)) (keep_allChars _ _))
    as [->|[z [-> Hz]]].
  - right. exists 1000%Q. split; [reflexivity|]. lra.
  - cbn [rnd ofZ]. destruct (Z.eq_dec z 0) as [->|Hn].
    + right. exists 1000%Q. split; [reflexivity|]. lra.
    + destruct (roundQ_whole (inject_Z z) z (Qeq_refl _) ltac:(lia)) as [E|[y [Hy E]]].
      * rewrite E. left. reflexivity.
      * destruct (roundQ (inject_Z z)) as [| |x]; try contradiction.
        cbn [same ofZ] in E. right. exists x.
        assert (Hx : (1 <= x)%Q).
        { rewrite E. change 1%Q with (inject_Z 1). rewrite <- Zle_Qle. exact Hy. }
        cbn [truthy].
        destruct (Qeq_bool x 0) eqn:Eq0.
        -- apply Qeq_bool_iff in Eq0. lra.
        -- split; [reflexivity|exact Hx].
Qed.

(** A quantity of at most 2^53 gives a piece count of at most 2^53. *)
Lemma ratioInt64_bound (item : PriceItem) (tq : number) :
  (tq <=? ofZ (2 ^ 53))%js = true ->
  let n := ceil (div tq (Double.itemQtyOf item)) in
  n = NaN \/ (n <=? ofZ (2 ^ 53))%js = true.
Proof.
  intros H n. subst n.
  assert (Hc : forall y, (y <= inject_Z (2 ^ 53))%Q ->
                 (ceil (roundQ y) <=? ofZ (2 ^ 53))%js = true).
  { intros y Hy. pose proof (roundQ_mono y (inject_Z (2 ^ 53)) Hy) as Hr.
    replace (roundQ (inject_Z (2 ^ 53))) with (Fin (inject_Z (2 ^ 53))) in Hr
      by (vm_compute; reflexivity).
    destruct (roundQ y) as [|s|r]; [discriminate Hr| |].
    - destruct s; [reflexivity|discriminate Hr].
    - rewrite nle_Fin in Hr. cbn [ceil]. unfold ofZ. rewrite nle_Fin.
      rewrite <- Zle_Qle. rewrite <- (Qceiling_Z (2 ^ 53)).
      apply Qceiling_resp_le. exact Hr. }
  destruct tq as [|s|t]; [discriminate H| |].
  - destruct s; [|discriminate H].
    destruct (itemQty64_cases item) as [->|[x [-> Hx]]]; [left; reflexivity|].
    right. unfold div. cbn [ndiv].
    assert (E : (0 ?= x)%Q = Lt) by (rewrite <- Qlt_alt; lra).
    rewrite E. reflexivity.
  - unfold ofZ in H. rewrite nle_Fin in H.
    destruct (itemQty64_cases item) as [->|[x [-> Hx]]]; right; unfold div.
    + cbn [ndiv rnd]. apply Hc. change 0%Q with (inject_Z 0).
      rewrite <- Zle_Qle. lia.
    + cbn [ndiv].
      assert (E : (0 ?= x)%Q = Lt) by (rewrite <- Qlt_alt; lra).
      rewrite E. cbn [rnd]. apply Hc.
      destruct (Qlt_le_dec t 0) as [Ht|Ht].
      * apply Qle_trans with 0%Q; [|change 0%Q with (inject_Z 0); rewrite <- Zle_Qle; lia].
        apply Qlt_le_weak. apply Qlt_shift_div_r; lra.
      * apply Qle_trans with t; [|exact H].
        apply Qle_shift_div_r; [lra|]. nra.
Qed.

(** The evaluator in double precision returns for every quantity of at most
    2^53. *)
Lemma calculate64_returns (item : PriceItem) (w h tq : number) :
  (tq <=? ofZ (2 ^ 53))%js = true ->
  Double.calculatePriceForItem item w h tq <> Diverges.
Proof.
  intro H. unfold Double.calculatePriceForItem.
  destruct (_ && _); [discriminate|].
  destruct (includesStr _ _); [|discriminate].
  destruct (Double.baseSizeCm item) as [BW BH].
  destruct (_ || _); [discriminate|].
  destruct (Double.standardImposition _ _ _ _) as [std imp].
  destruct std; [discriminate|].
  unfold Double.bestTotalMolds.
  pose proof (layouts64_returns _ (ratioInt64_bound item tq H)) as Hl.
  destruct (Double.layouts _); [discriminate|contradiction].
Qed.

(* ================================================================== *)
(** ** The standard fit in double precision *)




(** One millimetre over the base width is beyond the tolerance. *)
Example one_mm_over_is_cut :
  Double.checkFit (ofZ 201) (ofZ 200) = false /\
  Double.checkFit (ofZ 200) (ofZ 200) = true /\
  Double.checkFit (Fin 200.4) (ofZ 200) = true.
Proof. repeat split; vm_compute; reflexivity. Qed.




(* ================================================================== *)
(** ** Bounds on prices and multipliers in double precision *)

(** C5 (amended).  In double precision, for a request of positive width and
    height and a quantity of at least 1, on an entry whose price label parses
    to a number: the price is at least 0 and, on the multiplier path, the
    multiplier is at least 1, provided that on the multiplier path the four
    ratios of a requested to a base dimension and the quantity ratio are
    positive as the code computes them (none is NaN, is negative, or has
    underflowed to 0).  The one exception is the price of an entry that costs
    0 when the multiplier has overflowed to Infinity: it is NaN. *)
Theorem C5_price_and_multiplier_bounds (item : PriceItem) (wq hq qq : Q)
  (res : Outcome.t) :
  (0 < wq)%Q -> (0 < hq)%Q -> (1 <= qq)%Q ->
  isDouble (Fin wq) -> isDouble (Fin hq) -> isDouble (Fin qq) ->
  isNaN (Double.parsePrice (fiyat item)) = false ->
  (forall bw bh,
     usesMultiplier item = true -> baseMm64 item = Some (bw, bh) ->
     isPositive (div (Fin wq) bw) /\ isPositive (div (Fin wq) bh) /\
     isPositive (div (Fin hq) bw) /\ isPositive (div (Fin hq) bh) /\
     isPositive (div (Fin qq) (Double.itemQtyOf item))) ->
  Double.calculatePriceForItem item (Fin wq) (Fin hq) (Fin qq)
  = Returns (Some res) ->
  ((ofZ 0 <=? Outcome.price res)%js = true \/
   ((Double.parsePrice (fiyat item) === ofZ 0)%js = true /\
    exists qr, Outcome.details res = MultiplierDetails (Inf false) qr)) /\
  (Outcome.strategy res = Multiplier ->
   exists m qr,
     Outcome.details res = MultiplierDetails m qr /\ (ofZ 1 <=? m)%js = true).
Proof.
  intros Hw Hh Hq Dw Dh Dq Hprice Hbase Hcalc.
  destruct (String.eqb (kategori item) "Magnet" && String.eqb (kod item) "MGN") eqn:Emag.
  - (* the formula *)
    unfold Double.calculatePriceForItem in Hcalc. rewrite Emag in Hcalc.
    injection Hcalc as <-. cbn [Outcome.price Outcome.strategy]. split.
    + left. apply formula64_nonneg; assumption.
    + discriminate.
  - destruct (includesStr MULTIPLIER_CATEGORIES (kategori item)) eqn:Ecat.
    + assert (Hm : usesMultiplier item = true).
      { unfold usesMultiplier. rewrite Emag, Ecat. reflexivity. }
      destruct (baseMm64 item) as [[bw bh]|] eqn:Eb.
      * destruct (Hbase bw bh Hm eq_refl) as [P1 [P2 [P3 [P4 Pk]]]].
        destruct (multiplier64_whole item wq hq (Fin qq) bw bh res
                    Hm Eb Hw Hh Dw Dh P1 P2 P3 P4 Pk Hcalc)
          as [m [Hwhole [Hdet [Hpr Hst]]]].
        split.
        -- rewrite Hpr.
           destruct (parsePrice64_range (fiyat item)) as [En|Hp];
             [rewrite En in Hprice; discriminate|].
           destruct (price_times_whole _ m Hp Hwhole) as [H|[H1 H2]]; [left; exact H|].
           right. split; [exact H1|]. subst m. eexists. exact Hdet.
        -- intros _. exists m. eexists. split; [exact Hdet|].
           apply wholeFromOne_atLeastOne. exact Hwhole.
      * rewrite (calculate64_multiplier_path item _ _ _ Hm), Eb in Hcalc. discriminate.
    + unfold Double.calculatePriceForItem in Hcalc. rewrite Emag, Ecat in Hcalc.
      discriminate.
Qed.

Lemma C5_price_and_multiplier_bounds_witness :
  exists res m qr,
    Double.calculatePriceForItem demoCard2000 (Fin 90) (Fin 54) (Fin 1000)
    = Returns (Some res) /\
    Outcome.details res = MultiplierDetails m qr /\ (ofZ 1 <=? m)%js = true.
Proof.
  destruct (Double.calculatePriceForItem demoCard2000 (Fin 90) (Fin 54) (Fin 1000))
    as [[res|]|] eqn:E; [|vm_compute in E; discriminate E|vm_compute in E; discriminate E].
  assert (Hd : exists m qr, Outcome.details res = MultiplierDetails m qr).
  { revert E. vm_compute. intro E. injection E as <-. eexists. eexists. reflexivity. }
  destruct (C5_price_and_multiplier_bounds demoCard2000 90 54 1000 res)
    as [_ H].
  - reflexivity.
  - reflexivity.
  - discriminate.
  - vm_compute. reflexivity.
  - vm_compute. reflexivity.
  - vm_compute. reflexivity.
  - vm_compute. reflexivity.
  - intros bw bh _ Eb. vm_compute in Eb. injection Eb as <- <-.
    repeat split; vm_compute; reflexivity.
  - exact E.
  - destruct H as [m [qr [H1 H2]]].
    + destruct Hd as [m [qr Hd]]. revert E Hd. vm_compute. intros E Hd.
      injection E as <-. reflexivity.
    + exists res, m, qr. repeat split; assumption.
Defined.

(** C5 as stated fails, for positive requests on entries whose price and
    quantity labels parse.  A width of 1e-323 mm divided by the base width
    underflows to 0: the optimizer counts 0 molds.  A quantity label of 310
    digits parses to Infinity: the quantity ratio is 0 and so is the
    multiplier.  A request of 1e200 x 1e200 mm overflows the imposed
    multiplier to Infinity: on an entry that costs 0 the price is NaN.  Of
    another kind is the size label ".x5": it matches the size pattern with a
    NaN width that the guard [=== 0] on the base size does not catch, and
    the multiplier and the price are NaN. *)
Lemma C5_counterexample :
  (exists res qr,
      isPositive (Double.parseFloat "1e-323") /\
      Double.calculatePriceForItem demoCard1000
        (Double.parseFloat "1e-323") (ofZ 60) (ofZ 1000)
      = Returns (Some res) /\
      Outcome.details res = MultiplierDetails (Fin 0) qr /\
      (ofZ 1 <=? Fin 0)%js = false) /\
  (exists res m qr,
      Double.itemQtyOf demoHugeQty = Inf false /\
      Double.calculatePriceForItem demoHugeQty (ofZ 86) (ofZ 54) (ofZ 1000)
      = Returns (Some res) /\
      Outcome.details res = MultiplierDetails m qr /\
      same qr (ofZ 0) /\ same m (ofZ 0) /\ (ofZ 1 <=? m)%js = false) /\
  (exists res qr,
      same (Double.parsePrice (fiyat demoFree)) (ofZ 0) /\
      Double.calculatePriceForItem demoFree
        (Double.parseFloat "1e200") (Double.parseFloat "1e200") (ofZ 1000)
      = Returns (Some res) /\
      Outcome.details res = MultiplierDetails (Inf false) qr /\
      Outcome.price res = NaN /\
      (ofZ 0 <=? Outcome.price res)%js = false) /\
  (exists res,
      Double.calculatePriceForItem demoBadSize (ofZ 10) (ofZ 10) (ofZ 1000)
      = Returns (Some res) /\
      Outcome.price res = NaN /\
      exists qr, Outcome.details res = MultiplierDetails NaN qr).
Proof.
  split; [|split; [|split]].
  - eexists. eexists. split; [vm_compute; reflexivity|].
    split; [vm_compute; reflexivity|]. split; reflexivity.
  - eexists. eexists. eexists. split; [vm_compute; reflexivity|].
    split; [vm_compute; reflexivity|]. split; [reflexivity|].
    split; [vm_compute; reflexivity|]. split; [vm_compute; reflexivity|].
    vm_compute. reflexivity.
  - eexists. eexists. split; [vm_compute; reflexivity|].
    split; [vm_compute; reflexivity|]. split; [reflexivity|].
    split; reflexivity.
  - eexists. split; [vm_compute; reflexivity|]. split; [reflexivity|].
    eexists. reflexivity.
Qed.

(* ================================================================== *)
(** ** Ranking *)

Lemma ngt_sub_0 (a b : number) :
  isNaN a = false -> isNaN b = false ->
  (a - b >? ofZ 0)%js = (b <? a)%js.
Proof.
  unfold ngt, ofZ. destruct a as [|s|p], b as [|t|q]; try discriminate; intros _ _.
  - destruct s, t; reflexivity.
  - destruct s; reflexivity.
  - destruct t; reflexivity.
  - cbn [nsub]. apply eq_true_iff_eq. rewrite !nlt_Fin.
    change (inject_Z 0) with 0%Q. split; intro; lra.
Qed.

Lemma nlt_false_nle (a b : number) :
  isNaN a = false -> isNaN b = false ->
  (b <? a)%js = false -> (a <=? b)%js = true.
Proof.
  destruct a as [|s|p], b as [|t|q]; try discriminate; intros _ _.
  - destruct s, t; cbn; intro; (discriminate || reflexivity).
  - destruct s; cbn; intro; (discriminate || reflexivity).
  - destruct t; cbn; intro; (discriminate || reflexivity).
  - intro H. apply nle_Fin. apply not_true_iff_false in H. rewrite nlt_Fin in H. lra.
Qed.

Lemma nlt_nle (a b : number) : (b <? a)%js = true -> (b <=? a)%js = true.
Proof.
  destruct a as [|s|p], b as [|t|q];
    try (repeat match goal with x : bool |- _ => destruct x end;
         cbn; intros; (discriminate || reflexivity)).
  rewrite nlt_Fin, nle_Fin. intro. lra.
Qed.

Lemma nlt_not_neq (a b : number) : (b <? a)%js = true -> (a === b)%js = false.
Proof.
  destruct a as [|s|p], b as [|t|q];
    try (repeat match goal with x : bool |- _ => destruct x end;
         cbn; intros; (discriminate || reflexivity)).
  rewrite nlt_Fin. intro H. apply not_true_is_false. rewrite neq_Fin. lra.
Qed.

Lemma comparator_gt (x y : CalculationResult) :
  numberPrice x -> numberPrice y ->
  (comparator x y >? ofZ 0)%js = true ->
  rankedBefore y x /\ tied x y = false.
Proof.
  unfold numberPrice, comparator, rankedBefore, tied. intros Nx Ny.
  destruct (isPrio x), (isPrio y); cbn [andb negb Bool.eqb];
    try discriminate.
  - rewrite (ngt_sub_0 _ _ Nx Ny). intro H. split.
    + right. split; [reflexivity|apply nlt_nle; exact H].
    + apply nlt_not_neq. exact H.
  - intros _. split; [left; split; reflexivity|reflexivity].
  - rewrite (ngt_sub_0 _ _ Nx Ny). intro H. split.
    + right. split; [reflexivity|apply nlt_nle; exact H].
    + apply nlt_not_neq. exact H.
Qed.

Lemma comparator_not_gt (x y : CalculationResult) :
  numberPrice x -> numberPrice y ->
  (comparator x y >? ofZ 0)%js = false ->
  rankedBefore x y.
Proof.
  unfold numberPrice, comparator, rankedBefore. intros Nx Ny.
  destruct (isPrio x), (isPrio y); cbn [andb negb].
  - rewrite (ngt_sub_0 _ _ Nx Ny). intro H. right.
    split; [reflexivity|apply nlt_false_nle; assumption].
  - intros _. left. split; reflexivity.
  - discriminate.
  - rewrite (ngt_sub_0 _ _ Nx Ny). intro H. right.
    split; [reflexivity|apply nlt_false_nle; assumption].
Qed.

Lemma rankedBefore_trans (a b c : CalculationResult) :
  rankedBefore a b -> rankedBefore b c -> rankedBefore a c.
Proof.
  unfold rankedBefore.
  intros [[A1 A2]|[A1 A2]] [[B1 B2]|[B1 B2]]; try congruence.
  - left. split; congruence.
  - left. split; congruence.
  - right. split; [congruence|]. eapply nle_trans; eassumption.
Qed.

Lemma insertSorted_Forall (P : CalculationResult -> Prop)
  (x : CalculationResult) (l : list CalculationResult) :
  P x -> Forall P l -> Forall P (insertSorted x l).
Proof.
  intros Hx Hl. apply Forall_forall. intros r Hr.
  apply In_insertSorted in Hr as [->|Hr]; [exact Hx|].
  rewrite Forall_forall in Hl. apply Hl. exact Hr.
Qed.

Lemma insertSorted_sorted (x : CalculationResult) (l : list CalculationResult) :
  numberPrice x -> Forall numberPrice l ->
  StronglySorted rankedBefore l -> StronglySorted rankedBefore (insertSorted x l).
Proof.
  intros Hx Hfin Hs. induction Hs as [|y l Hs IH Hy]; simpl.
  - constructor; constructor.
  - inversion Hfin as [|? ? Fy Fl]; subst.
    destruct (comparator x y >? ofZ 0)%js eqn:E.
    + constructor; [apply IH; exact Fl|].
      apply insertSorted_Forall; [|exact Hy].
      apply (comparator_gt x y Hx Fy E).
    + pose proof (comparator_not_gt x y Hx Fy E) as Hxy.
      constructor; [constructor; assumption|].
      constructor; [exact Hxy|].
      rewrite Forall_forall in *. intros z Hz.
      apply (rankedBefore_trans x y z); auto.
Qed.

Lemma sortResults_sorted (l : list CalculationResult) :
  Forall numberPrice l -> StronglySorted rankedBefore (sortResults l).
Proof.
  induction l as [|x l IH]; intro H; simpl; [constructor|].
  inversion H; subst.
  apply insertSorted_sorted; [assumption| |apply IH; assumption].
  apply Forall_forall. intros r Hr. rewrite In_sortResults in Hr.
  rewrite Forall_forall in H3. apply H3. exact Hr.
Qed.

Lemma insertSorted_perm (x : CalculationResult) (l : list CalculationResult) :
  Permutation (x :: l) (insertSorted x l).
Proof.
  induction l as [|y l IH]; simpl; [apply Permutation_refl|].
  destruct (comparator x y >? ofZ 0)%js; [|apply Permutation_refl].
  eapply Permutation_trans; [apply perm_swap|]. apply perm_skip. exact IH.
Qed.

Lemma sortResults_perm (l : list CalculationResult) :
  Permutation l (sortResults l).
Proof.
  induction l as [|x l IH]; simpl; [constructor|].
  eapply Permutation_trans; [apply perm_skip; exact IH|apply insertSorted_perm].
Qed.

Lemma neq_sym (a b : number) : (a === b)%js = (b === a)%js.
Proof.
  unfold neq. destruct a as [|s|p], b as [|t|q]; simpl; try reflexivity;
    try (destruct s; reflexivity); try (destruct t; reflexivity).
  - destruct s, t; reflexivity.
  - rewrite <- (Qcompare_antisym q p). destruct (q ?= p)%Q; reflexivity.
Qed.

Lemma neq_trans (a b c : number) :
  (a === b)%js = true -> (b === c)%js = true -> (a === c)%js = true.
Proof.
  destruct a as [|s|p], b as [|t|q], c as [|u|r];
    try (repeat match goal with x : bool |- _ => destruct x end;
         cbn; intros; (discriminate || reflexivity)).
  rewrite !neq_Fin. intros; lra.
Qed.

Lemma tied_sym (a b : CalculationResult) : tied a b = tied b a.
Proof.
  unfold tied. rewrite neq_sym. f_equal. destruct (isPrio a), (isPrio b); reflexivity.
Qed.

Lemma tied_trans (a b c : CalculationResult) :
  tied a b = true -> tied b c = true -> tied a c = true.
Proof.
  unfold tied. rewrite !andb_true_iff. intros [P1 E1] [P2 E2].
  apply eqb_prop in P1, P2. split.
  - rewrite P1, P2. apply eqb_reflx.
  - eapply neq_trans; eassumption.
Qed.

Lemma nsub_pos_neq (a b : number) :
  (a - b >? ofZ 0)%js = true -> (a === b)%js = false.
Proof.
  unfold ngt, ofZ.
  destruct a as [|s|p], b as [|t|q];
    try (repeat match goal with x : bool |- _ => destruct x end;
         cbn; intros; (discriminate || reflexivity)).
  cbn [nsub]. rewrite nlt_Fin. intro H. apply not_true_is_false.
  rewrite neq_Fin. change (inject_Z 0) with 0%Q in H. lra.
Qed.

(** The comparison function moves [x] only past results it is not tied
    with. *)
Lemma comparator_gt_not_tied (x y : CalculationResult) :
  (comparator x y >? ofZ 0)%js = true -> tied x y = false.
Proof.
  unfold comparator, tied.
  destruct (isPrio x), (isPrio y); cbn [andb negb Bool.eqb];
    try reflexivity; apply nsub_pos_neq.
Qed.

Lemma insertSorted_stable (z x : CalculationResult) (l : list CalculationResult) :
  filter (tied z) (insertSorted x l) = filter (tied z) (x :: l).
Proof.
  induction l as [|y l IH]; [reflexivity|]. cbn [insertSorted].
  destruct (comparator x y >? ofZ 0)%js eqn:E; [|reflexivity].
  apply comparator_gt_not_tied in E.
  cbn [filter]. rewrite IH. cbn [filter].
  destruct (tied z x) eqn:Ezx; [|reflexivity].
  destruct (tied z y) eqn:Ezy; [|reflexivity].
  rewrite tied_sym in Ezx. rewrite (tied_trans x z y Ezx Ezy) in E. discriminate.
Qed.

Lemma sortResults_stable (z : CalculationResult) (l : list CalculationResult) :
  filter (tied z) (sortResults l) = filter (tied z) l.
Proof.
  induction l as [|x l IH]; [reflexivity|]. cbn [sortResults fold_right].
  fold (sortResults l). rewrite insertSorted_stable. cbn [filter]. rewrite IH.
  reflexivity.
Qed.

(** C8 (amended).  When no result has a NaN price, the final list is
    ranked: every result of the primary brochure category whose paper name
    contains "115" stands before every result without that property whatever
    the prices, and results of the same priority are in ascending order of
    price (an infinite price included).  The list is a permutation of the
    results in the order the groups were processed, and results with the
    same priority and the same price keep that order. *)
Theorem C8_ranking (data : list PriceItem)
  (width height category quantity : string) :
  let st := handleCalculate data width height category quantity in
  Forall numberPrice (results st) ->
  StronglySorted rankedBefore (results st) /\
  (forall groups q,
      groupItems data category = Some groups ->
      parseInt quantity = Some q ->
      error st = None ->
      let calculated :=
        calculatedResults groups category (parsedWidth width) (parsedWidth height) q in
      Permutation calculated (results st) /\
      forall z, filter (tied z) (results st) = filter (tied z) calculated).
Proof.
  intro st. subst st. unfold handleCalculate, parsedWidth.
  destruct (negb (truthy (parseFloat (replaceFirst "," "." width)))
            || negb (truthy (parseFloat (replaceFirst "," "." height)))
            || negb (truthyInt (parseInt quantity))).
  { cbn [results error]. intros _. split; [constructor|]. discriminate. }
  destruct (parseInt quantity) as [q|].
  2:{ cbn [results error]. intros _. split; [constructor|]. discriminate. }
  destruct (groupItems data category) as [g|].
  2:{ cbn [results error]. intros _. split; [constructor|]. discriminate. }
  destruct (List.length _ =? 0)%nat.
  { cbn [results error]. intros _. split; [constructor|]. discriminate. }
  cbn [results error]. intro Hfin. split.
  - apply sortResults_sorted. apply Forall_forall. intros r Hr.
    rewrite Forall_forall in Hfin. apply Hfin. rewrite In_sortResults. exact Hr.
  - intros g' q' Eg Eq _. inversion Eg; subst g'. inversion Eq; subst q'.
    split; [apply sortResults_perm|]. intro z. apply sortResults_stable.
Qed.

Lemma C8_ranking_witness :
  let st := handleCalculate demoCatalog "100" "201" "Broşür" "1000" in
  map paperName (results st) = ["115 gr. Kuşe"; "150 gr. Kuşe"; "128 gr. Kuşe"] /\
  StronglySorted rankedBefore (results st).
Proof.
  split; [reflexivity|].
  apply (C8_ranking demoCatalog "100" "201" "Broşür" "1000").
  vm_compute. repeat constructor.
Defined.

(** C8 as stated fails when a price is NaN.  A price label without a digit
    parses to NaN, the entry is priced at NaN, and every comparison with it
    gives NaN, which the sort takes for "equal": business cards priced 300,
    NaN and 100, in that order in the catalog, stay in that order, so 300
    stands before 100.  (With such a comparison function the order is left
    to the engine; inserting each element in turn, as short arrays are
    sorted, moves none of the three.) *)
Lemma C8_counterexample :
  let st := handleCalculate [demoCard300; demoCardAsk; demoCard100]
              "86" "54" "Kartvizit" "1000" in
  parsePrice (fiyat demoCardAsk) = NaN /\
  exists r1 r2 r3,
    results st = [r1; r2; r3] /\
    same (calculatedPrice r1) (ofZ 300) /\
    calculatedPrice r2 = NaN /\
    same (calculatedPrice r3) (ofZ 100) /\
    isPrio r1 = false /\ isPrio r2 = false /\ isPrio r3 = false /\
    (calculatedPrice r1 <=? calculatedPrice r3)%js = false /\
    ~ rankedBefore r1 r3 /\
    ~ StronglySorted rankedBefore (results st).
Proof.
  cbv zeta. split; [reflexivity|].
  eexists. eexists. eexists. split; [vm_compute; reflexivity|].
  split; [vm_compute; reflexivity|]. split; [reflexivity|].
  split; [vm_compute; reflexivity|].
  split; [reflexivity|]. split; [reflexivity|]. split; [reflexivity|].
  split; [vm_compute; reflexivity|].
  assert (Hn : forall a b : CalculationResult,
             isPrio a = false -> isPrio b = false ->
             (calculatedPrice a <=? calculatedPrice b)%js = false ->
             ~ rankedBefore a b).
  { intros a b Pa Pb Hle [[H _]|[_ H]]; congruence. }
  split.
  - apply Hn; vm_compute; reflexivity.
  - intro Hs. inversion Hs as [|? ? _ Hall]; subst.
    inversion Hall as [|? ? _ Hall']; subst. inversion Hall' as [|? ? H13 _]; subst.
    revert H13. apply Hn; vm_compute; reflexivity.
Qed.

(* ================================================================== *)
(** ** The layout optimizer in whole numbers *)

Lemma layouts_spec (n r c : Z) :
  In (r, c) (layouts n) <-> 1 <= r /\ r * r <= n /\ r * c = n.
Proof.
  unfold layouts. rewrite in_flat_map. split.
  - intros [k [Hk Hin]]. apply in_seq in Hk.
    destruct (Z.rem n (Z.of_nat k) =? 0) eqn:E; [|destruct Hin].
    destruct Hin as [H|[]]. inversion H; subst r c; clear H.
    apply Z.eqb_eq in E.
    assert (Hs : Z.of_nat k <= Z.sqrt n) by lia.
    assert (Hn : 0 <= n).
    { destruct (Z_lt_le_dec n 0) as [L|G]; [|exact G].
      rewrite Z.sqrt_neg in Hs by exact L. lia. }
    pose proof (Z.sqrt_spec n Hn) as [Hsq _].
    split; [lia|]. split; [nia|].
    pose proof (Z.quot_rem' n (Z.of_nat k)) as Hqr. lia.
  - intros [Hr [Hsq Hrc]]. exists (Z.to_nat r). split.
    + apply in_seq. assert (r <= Z.sqrt n) by (apply Z.sqrt_le_square; nia). lia.
    + rewrite Z2Nat.id by lia. subst n.
      rewrite (Z.mul_comm r c), Z.rem_mul by lia. simpl.
      rewrite Z.quot_mul by lia. left. reflexivity.
Qed.

Lemma inject_Z_mult_eq (a b : Z) : (inject_Z a * inject_Z b)%Q = inject_Z (a * b).
Proof. reflexivity. Qed.

Lemma min_ofZ (a b : Z) : min (ofZ a) (ofZ b) = ofZ (Z.min a b).
Proof.
  unfold min, ofZ. simpl. 
  destruct (Qcompare_spec (inject_Z a) (inject_Z b)) as [E|L|G].
  - rewrite inject_Z_injective in E. subst. rewrite Z.min_id. reflexivity.
  - rewrite <- Zlt_Qlt in L. rewrite Z.min_l by lia. reflexivity.
  - rewrite <- Zlt_Qlt in G. rewrite Z.min_r by lia. reflexivity.
Qed.

Lemma molds_ofZ (tw th bw bh : Q) :
  ~ (bw == 0)%Q -> ~ (bh == 0)%Q ->
  (ceil (Fin tw / Fin bw) * ceil (Fin th / Fin bh))%js = ofZ (zmolds tw th bw bh).
Proof.
  intros Hw Hh. rewrite !ndiv_Fin by assumption. reflexivity.
Qed.

Lemma layoutStep_ofZ (w h bw bh : Q) (a : Z) (rc : Z * Z) :
  ~ (bw == 0)%Q -> ~ (bh == 0)%Q ->
  layoutStep (Fin w) (Fin h) (Fin bw) (Fin bh) (ofZ a) rc
  = ofZ (zLayoutStep w h bw bh a rc).
Proof.
  intros Hw Hh. destruct rc as [r c]. unfold layoutStep, zLayoutStep.
  assert (E : forall x z, (Fin x * ofZ z)%js = Fin (x * inject_Z z)) by reflexivity.
  rewrite !E, !molds_ofZ by assumption. rewrite !min_ofZ. reflexivity.
Qed.

Lemma fold_layoutStep_ofZ (w h bw bh : Q) (l : list (Z * Z)) (a : Z) :
  ~ (bw == 0)%Q -> ~ (bh == 0)%Q ->
  fold_left (layoutStep (Fin w) (Fin h) (Fin bw) (Fin bh)) l (ofZ a)
  = ofZ (fold_left (zLayoutStep w h bw bh) l a).
Proof.
  intros Hw Hh. revert a. induction l as [|rc l IH]; intro a; [reflexivity|].
  cbn [fold_left]. rewrite layoutStep_ofZ by assumption. apply IH.
Qed.

Lemma zmolds_swap (tw th bw bh : Q) : zmolds th tw bh bw = zmolds tw th bw bh.
Proof. unfold zmolds. apply Z.mul_comm. Qed.

Lemma zLayoutStep_swap (w h bw bh : Q) (a : Z) (rc : Z * Z) :
  zLayoutStep h w bw bh a rc = zLayoutStep w h bw bh a rc.
Proof.
  destruct rc as [r c]. unfold zLayoutStep.
  rewrite (zmolds_swap (w * inject_Z r) (h * inject_Z c) bh bw).
  rewrite (zmolds_swap (w * inject_Z r) (h * inject_Z c) bw bh).
  rewrite (zmolds_swap (w * inject_Z c) (h * inject_Z r) bh bw).
  rewrite (zmolds_swap (w * inject_Z c) (h * inject_Z r) bw bh).
  lia.
Qed.

Lemma zLayoutStep_turn (w h bw bh : Q) (a : Z) (rc : Z * Z) :
  zLayoutStep w h bh bw a rc = zLayoutStep w h bw bh a rc.
Proof. destruct rc as [r c]. unfold zLayoutStep. lia. Qed.

Lemma fold_ext_step (f g : Z -> Z * Z -> Z) (l : list (Z * Z)) (a : Z) :
  (forall x rc, f x rc = g x rc) -> fold_left f l a = fold_left g l a.
Proof.
  intro H. revert a. induction l as [|rc l IH]; intro a; [reflexivity|].
  cbn [fold_left]. rewrite H. apply IH.
Qed.

Lemma MAX_VALUE_ofZ : MAX_VALUE = ofZ (2 ^ 1024 - 2 ^ 971).
Proof. reflexivity. Qed.

Lemma bestTotalMolds_ofZ (w h bw bh k : Q) :
  ~ (bw == 0)%Q -> ~ (bh == 0)%Q ->
  bestTotalMolds (Fin w) (Fin h) (Fin bw) (Fin bh) k
  = ofZ (fold_left (zLayoutStep w h bw bh) (layouts (Qceiling k))
           (2 ^ 1024 - 2 ^ 971)).
Proof.
  intros Hw Hh. unfold bestTotalMolds. rewrite MAX_VALUE_ofZ.
  apply fold_layoutStep_ofZ; assumption.
Qed.

Lemma bestTotalMolds_swap_request (w h bw bh k : Q) :
  ~ (bw == 0)%Q -> ~ (bh == 0)%Q ->
  bestTotalMolds (Fin h) (Fin w) (Fin bw) (Fin bh) k
  = bestTotalMolds (Fin w) (Fin h) (Fin bw) (Fin bh) k.
Proof.
  intros Hw Hh. rewrite !bestTotalMolds_ofZ by assumption. f_equal.
  apply fold_ext_step. intros x rc. apply zLayoutStep_swap.
Qed.

(** X1.  The custom-fit search does not depend on the orientation of the piece
    nor on that of the base sheet: swapping the requested width and height,
    or the two base dimensions, gives the same number of molds. *)
Theorem bestTotalMolds_orientation (w h bw bh k : Q) :
  ~ (bw == 0)%Q -> ~ (bh == 0)%Q ->
  bestTotalMolds (Fin h) (Fin w) (Fin bw) (Fin bh) k
  = bestTotalMolds (Fin w) (Fin h) (Fin bw) (Fin bh) k /\
  bestTotalMolds (Fin w) (Fin h) (Fin bh) (Fin bw) k
  = bestTotalMolds (Fin w) (Fin h) (Fin bw) (Fin bh) k.
Proof.
  intros Hw Hh. split.
  - apply bestTotalMolds_swap_request; assumption.
  - rewrite !bestTotalMolds_ofZ by assumption. f_equal.
    apply fold_ext_step. intros x rc. apply zLayoutStep_turn.
Qed.

Lemma bestTotalMolds_orientation_witness :
  bestTotalMolds (Fin 54) (Fin 90) (Fin 86) (Fin 54) 3
  = bestTotalMolds (Fin 90) (Fin 54) (Fin 86) (Fin 54) 3.
Proof.
  apply (bestTotalMolds_orientation 90 54 86 54 3); discriminate.
Defined.

(** X2.  The loop over [i] lists exactly the factor pairs [(r, c)] of [n] with
    [r * r <= n], each once, and every way of writing [n] as a product of two
    positive whole numbers is a listed pair or the transpose of one. *)
Theorem layouts_factor_pairs (n : Z) :
  (forall r c, In (r, c) (layouts n) <-> 1 <= r /\ r * r <= n /\ r * c = n) /\
  NoDup (layouts n) /\
  (forall a b, 1 <= a -> 1 <= b -> a * b = n ->
     In (a, b) (layouts n) \/ In (b, a) (layouts n)).
Proof.
  split; [intros r c; apply layouts_spec|]. split.
  - unfold layouts.
    assert (H : forall m s, NoDup
      (flat_map (fun k : nat => let i := Z.of_nat k in
                   if Z.rem n i =? 0 then [(i, Z.quot n i)] else []) (seq s m))
      /\ forall r c, In (r, c)
      (flat_map (fun k : nat => let i := Z.of_nat k in
                   if Z.rem n i =? 0 then [(i, Z.quot n i)] else []) (seq s m))
         -> Z.of_nat s <= r).
    { induction m as [|m IH]; intro s; cbn [seq flat_map].
      - split; [constructor|intros r c []].
      - destruct (IH (S s)) as [Hnd Hlow].
        destruct (Z.rem n (Z.of_nat s) =? 0); cbn [app].
        + split.
          * constructor; [|exact Hnd]. intro Hin. apply Hlow in Hin. lia.
          * intros r c [E|Hin]; [inversion E; lia|apply Hlow in Hin; lia].
        + split; [exact Hnd|]. intros r c Hin. apply Hlow in Hin. lia. }
    apply H.
  - intros a b Ha Hb Hab.
    destruct (Z_le_gt_dec a b) as [L|G].
    + left. apply layouts_spec. repeat split; try lia. nia.
    + right. apply layouts_spec. repeat split; try lia. nia.
Qed.

Lemma layouts_factor_pairs_witness :
  In (4, 3) (layouts 12) \/ In (3, 4) (layouts 12).
Proof.
  apply (layouts_factor_pairs 12); reflexivity || lia.
Defined.

Lemma zmolds_area (tw th bw bh : Q) :
  (0 < tw)%Q -> (0 < th)%Q -> (0 < bw)%Q -> (0 < bh)%Q ->
  (tw * th <= inject_Z (zmolds tw th bw bh) * bw * bh)%Q.
Proof.
  intros Htw Hth Hbw Hbh. unfold zmolds. rewrite inject_Z_mult.
  pose proof (Qle_ceiling (tw / bw)) as H1.
  pose proof (Qle_ceiling (th / bh)) as H2.
  set (A := inject_Z (Qceiling (tw / bw))) in *.
  set (B := inject_Z (Qceiling (th / bh))) in *.
  assert (E1 : (tw == tw / bw * bw)%Q) by (field; lra).
  assert (E2 : (th == th / bh * bh)%Q) by (field; lra).
  assert (P1 : (0 < tw / bw)%Q) by (apply Qlt_shift_div_l; lra).
  assert (P2 : (0 < th / bh)%Q) by (apply Qlt_shift_div_l; lra).
  assert (L1 : (tw <= A * bw)%Q).
  { rewrite E1 at 1. apply Qmult_le_compat_r; lra. }
  assert (L2 : (th <= B * bh)%Q).
  { rewrite E2 at 1. apply Qmult_le_compat_r; lra. }
  assert (L3 : (tw * th <= (A * bw) * (B * bh))%Q).
  { apply Qle_trans with ((A * bw) * th)%Q.
    - apply Qmult_le_compat_r; lra.
    - rewrite (Qmult_comm (A * bw) th), (Qmult_comm (A * bw) (B * bh)).
      apply Qmult_le_compat_r; [exact L2|]. lra. }
  assert (E3 : (A * bw * (B * bh) == A * B * bw * bh)%Q) by ring.
  lra.
Qed.

(** In exact arithmetic the custom-fit search returns a whole number of
    molds, and unless it is [Number.MAX_VALUE] itself the sheets it counts
    cover the total area of the [ratioInt] pieces:
    [ratioInt * w * h <= molds * baseW * baseH].  (In double precision the
    rounding of a quotient just above a whole number can lose a mold.) *)
Lemma covers_area_exact (w h bw bh k : Q) :
  (0 < w)%Q -> (0 < h)%Q -> (0 < bw)%Q -> (0 < bh)%Q ->
  exists z,
    bestTotalMolds (Fin w) (Fin h) (Fin bw) (Fin bh) k = ofZ z /\
    (ofZ z = MAX_VALUE \/
     (inject_Z (Qceiling k) * (w * h) <= inject_Z z * bw * bh)%Q).
Proof.
  intros Hw Hh Hbw Hbh.
  rewrite bestTotalMolds_ofZ by lra.
  eexists. split; [reflexivity|].
  set (n := Qceiling k). set (mx := 2 ^ 1024 - 2 ^ 971).
  assert (H : forall l a,
             (forall r c, In (r, c) l -> In (r, c) (layouts n)) ->
             (a = mx \/ (inject_Z n * (w * h) <= inject_Z a * bw * bh)%Q) ->
             fold_left (zLayoutStep w h bw bh) l a = mx \/
             (inject_Z n * (w * h)
              <= inject_Z (fold_left (zLayoutStep w h bw bh) l a) * bw * bh)%Q).
  { induction l as [|[r c] l IH]; intros a Hl Ha; [exact Ha|].
    cbn [fold_left]. apply IH; [intros r' c' H'; apply Hl; right; exact H'|].
    destruct (proj1 (layouts_spec n r c) (Hl r c (or_introl eq_refl)))
      as [Hr [Hsq Hrc]].
    assert (Hc : 1 <= c) by nia.
    assert (Hbound : forall tw th b1 b2,
               (0 < b1)%Q -> (0 < b2)%Q -> (0 < tw)%Q -> (0 < th)%Q ->
               (tw * th == inject_Z n * (w * h))%Q ->
               (inject_Z n * (w * h) <= inject_Z (zmolds tw th b1 b2) * b1 * b2)%Q).
    { intros tw th b1 b2 P1 P2 P3 P4 E. rewrite <- E. apply zmolds_area; assumption. }
    assert (Pr : (0 < inject_Z r)%Q) by (change 0%Q with (inject_Z 0); rewrite <- Zlt_Qlt; lia).
    assert (Pc : (0 < inject_Z c)%Q) by (change 0%Q with (inject_Z 0); rewrite <- Zlt_Qlt; lia).
    assert (En : (inject_Z n == inject_Z r * inject_Z c)%Q)
      by (rewrite <- inject_Z_mult, Hrc; reflexivity).
    assert (E1 : ((w * inject_Z c) * (h * inject_Z r) == inject_Z n * (w * h))%Q)
      by (rewrite En; ring).
    assert (E2 : ((w * inject_Z r) * (h * inject_Z c) == inject_Z n * (w * h))%Q)
      by (rewrite En; ring).
    assert (Q1 : (0 < w * inject_Z c)%Q) by (apply Qmult_lt_0_compat; assumption).
    assert (Q2 : (0 < h * inject_Z r)%Q) by (apply Qmult_lt_0_compat; assumption).
    assert (Q3 : (0 < w * inject_Z r)%Q) by (apply Qmult_lt_0_compat; assumption).
    assert (Q4 : (0 < h * inject_Z c)%Q) by (apply Qmult_lt_0_compat; assumption).
    pose proof (Hbound _ _ bw bh Hbw Hbh Q1 Q2 E1) as B1.
    pose proof (Hbound _ _ bh bw Hbh Hbw Q1 Q2 E1) as B2.
    pose proof (Hbound _ _ bw bh Hbw Hbh Q3 Q4 E2) as B3.
    pose proof (Hbound _ _ bh bw Hbh Hbw Q3 Q4 E2) as B4.
    assert (Hcases : let x := zLayoutStep w h bw bh a (r, c) in
              x = a \/ x = zmolds (w * inject_Z c) (h * inject_Z r) bw bh
              \/ x = zmolds (w * inject_Z c) (h * inject_Z r) bh bw
              \/ x = zmolds (w * inject_Z r) (h * inject_Z c) bw bh
              \/ x = zmolds (w * inject_Z r) (h * inject_Z c) bh bw).
    { unfold zLayoutStep. cbv zeta. lia. }
    cbv zeta in Hcases.
    destruct Hcases as [->|[->|[->|[->| ->]]]]; [exact Ha| | | |]; right.
    - exact B1.
    - eapply Qle_trans; [exact B2|]. apply Qle_lteq. right. ring.
    - exact B3.
    - eapply Qle_trans; [exact B4|]. apply Qle_lteq. right. ring. }
  destruct (H (layouts n) mx (fun _ _ H' => H') (or_introl eq_refl)) as [E|B].
  - left. rewrite E. reflexivity.
  - right. exact B.
Qed.

Lemma standardImposition_swap_fst (w h bw bh : number) :
  fst (standardImposition h w bw bh) = fst (standardImposition w h bw bh).
Proof.
  rewrite !standardImposition_fst.
  rewrite (andb_comm (checkFit h bw)), (andb_comm (checkFit h bh)).
  apply orb_comm.
Qed.

(** X4.  On the custom-cut path the evaluation does not depend on the orientation
    of the request: when a finite request needs a cut on an entry with a
    well-formed size, the swapped request gets the same outcome (same
    multiplier, same price, same cut flag). *)
Theorem custom_cut_orientation (item : PriceItem) (w h : Q) (q : Z)
  (res : Outcome.t) :
  usesMultiplier item = true ->
  sizeWellFormed item ->
  calculatePriceForItem item (Fin w) (Fin h) q = Some res ->
  Outcome.needsCut res = true ->
  calculatePriceForItem item (Fin h) (Fin w) q = Some res.
Proof.
  intros Hm Hwf. rewrite !(calculate_multiplier_path item _ _ q Hm).
  destruct (baseMm item) as [[bw bh]|] eqn:Hb; [|discriminate].
  destruct (baseMm_pos item bw bh Hwf Hb) as [x [y [-> [-> [Hx Hy]]]]].
  cbv zeta. rewrite (standardImposition_swap_fst (Fin w) (Fin h)).
  intros H Hcut. inversion H; subst res; clear H.
  cbn [Outcome.needsCut] in Hcut. apply negb_true_iff in Hcut.
  rewrite Hcut.
  assert (Nx : ~ (x == 0)%Q) by lra. assert (Ny : ~ (y == 0)%Q) by lra.
  rewrite (bestTotalMolds_swap_request w h x y (qtyRatioOf item q) Nx Ny).
  reflexivity.
Qed.

Lemma custom_cut_orientation_witness :
  exists res,
    calculatePriceForItem demoCard2000 (Fin 54) (Fin 90) 1000 = Some res /\
    Outcome.needsCut res = true.
Proof.
  destruct (calculatePriceForItem demoCard2000 (Fin 90) (Fin 54) 1000)
    as [res|] eqn:E; [|vm_compute in E; discriminate E].
  assert (Hcut : Outcome.needsCut res = true).
  { revert E. vm_compute. intro E. inversion E. reflexivity. }
  exists res. split; [|exact Hcut].
  apply (custom_cut_orientation demoCard2000 90 54 1000 res).
  - reflexivity.
  - vm_compute. split; reflexivity.
  - exact E.
  - exact Hcut.
Defined.

(* ================================================================== *)
(** ** The custom-fit search in double precision *)

Lemma layoutStep_arrangements (w h bw bh best : number) (rc : Z * Z) :
  Double.layoutStep w h bw bh best rc
  = fold_left min (arrangements64 w h bw bh rc) best.
Proof. destruct rc as [r c]. reflexivity. Qed.

Lemma wholeFromOne_refl (a : number) : wholeFromOne a -> (a <=? a)%js = true.
Proof.
  intros [->|[z [_ E]]]; [reflexivity|].
  destruct a as [| |q]; try contradiction. apply nle_refl_Fin.
Qed.

Lemma min_le (a b : number) :
  wholeFromOne a -> wholeFromOne b ->
  (min a b <=? a)%js = true /\ (min a b <=? b)%js = true.
Proof.
  intros Ha Hb.
  pose proof (wholeFromOne_atLeastOne a Ha) as Na.
  pose proof (wholeFromOne_atLeastOne b Hb) as Nb.
  unfold atLeastOne in Na, Nb.
  destruct a as [|s|p], b as [|t|q]; try discriminate;
    try (destruct s; [discriminate Na|]); try (destruct t; [discriminate Nb|]).
  - split; reflexivity.
  - split; [reflexivity|apply nle_refl_Fin].
  - split; [apply nle_refl_Fin|reflexivity].
  - unfold min. cbn [ncompare].
    destruct (Qcompare_spec p q) as [E|L|G].
    + split; [apply nle_refl_Fin|apply nle_Fin; lra].
    + split; [apply nle_refl_Fin|apply nle_Fin; lra].
    + split; [apply nle_Fin; lra|apply nle_refl_Fin].
Qed.

(** The least of a list of whole numbers and a starting value. *)
Lemma fold_min_le (l : list number) (acc : number) :
  wholeFromOne acc -> Forall wholeFromOne l ->
  wholeFromOne (fold_left min l acc) /\
  (fold_left min l acc <=? acc)%js = true /\
  forall x, In x l -> (fold_left min l acc <=? x)%js = true.
Proof.
  revert acc. induction l as [|y l IH]; intros acc Ha Hl.
  - split; [exact Ha|]. split; [apply wholeFromOne_refl; exact Ha|]. intros x [].
  - inversion Hl as [|? ? Hy Hl']; subst. cbn [fold_left].
    destruct (IH (min acc y) (min_whole acc y Ha Hy) Hl') as [W [L A]].
    destruct (min_le acc y Ha Hy) as [M1 M2].
    split; [exact W|]. split; [eapply nle_trans; eassumption|].
    intros x [<-|Hx]; [eapply nle_trans; eassumption|]. apply A. exact Hx.
Qed.

Lemma arrangements64_whole (wq hq : Q) (bw bh : number) (r c : Z) :
  (0 < wq)%Q -> (0 < hq)%Q -> isDouble (Fin wq) -> isDouble (Fin hq) ->
  isPositive (div (Fin wq) bw) -> isPositive (div (Fin wq) bh) ->
  isPositive (div (Fin hq) bw) -> isPositive (div (Fin hq) bh) ->
  1 <= r -> 1 <= c ->
  Forall wholeFromOne (arrangements64 (Fin wq) (Fin hq) bw bh (r, c)).
Proof.
  intros Hw Hh Dw Dh P1 P2 P3 P4 Hr Hc. unfold arrangements64.
  apply Forall_cons; [|apply Forall_cons; [|apply Forall_cons;
    [|apply Forall_cons; [|apply Forall_nil]]]]; apply molds_whole; assumption.
Qed.

(** The search keeps the least count of the arrangements it has seen. *)
Lemma fold_layoutStep_le (wq hq : Q) (bw bh : number) (l : list (Z * Z))
  (acc : number) :
  (0 < wq)%Q -> (0 < hq)%Q -> isDouble (Fin wq) -> isDouble (Fin hq) ->
  isPositive (div (Fin wq) bw) -> isPositive (div (Fin wq) bh) ->
  isPositive (div (Fin hq) bw) -> isPositive (div (Fin hq) bh) ->
  (forall r c, In (r, c) l -> 1 <= r /\ 1 <= c) ->
  wholeFromOne acc ->
  let m := fold_left (Double.layoutStep (Fin wq) (Fin hq) bw bh) l acc in
  wholeFromOne m /\ (m <=? acc)%js = true /\
  forall rc x, In rc l -> In x (arrangements64 (Fin wq) (Fin hq) bw bh rc) ->
               (m <=? x)%js = true.
Proof.
  intros Hw Hh Dw Dh P1 P2 P3 P4. revert acc.
  induction l as [|[r c] l IH]; intros acc Hl Ha; cbv zeta.
  - split; [exact Ha|]. split; [apply wholeFromOne_refl; exact Ha|]. intros rc x [].
  - cbn [fold_left]. destruct (Hl r c (or_introl eq_refl)) as [Hr Hc].
    pose proof (arrangements64_whole wq hq bw bh r c Hw Hh Dw Dh P1 P2 P3 P4 Hr Hc) as Hall.
    destruct (fold_min_le _ acc Ha Hall) as [W1 [L1 A1]].
    rewrite <- layoutStep_arrangements in W1, L1, A1.
    destruct (IH (Double.layoutStep (Fin wq) (Fin hq) bw bh acc (r, c))
                (fun r' c' H => Hl r' c' (or_intror H)) W1) as [W [L A]].
    split; [exact W|]. split; [eapply nle_trans; eassumption|].
    intros rc x [<-|Hin] Hx.
    + eapply nle_trans; [exact L|]. apply A1. exact Hx.
    + apply (A rc x Hin Hx).
Qed.

(** The square root of a number of at least 1 is at least 1. *)
Lemma sqrtPos_ge_1 (a : Q) : (1 <= a)%Q -> (1 <= sqrtPos a)%Q.
Proof.
  intro Ha. assert (Hp : (0 < a)%Q) by lra. unfold sqrtPos.
  set (e := ilog2 a / 2). set (u := Qpower 2 (e - 52)).
  set (t := (a / (u * u))%Q). set (m := Z.sqrt (Qfloor t)).
  destruct (ilog2_spec a Hp) as [La Ua].
  pose proof (ilog2_ge_0 a Ha) as H0.
  assert (He : 0 <= e) by (subst e; apply Z.div_pos; lia).
  assert (He2 : 2 * e <= ilog2 a).
  { subst e. pose proof (Z.mod_pos_bound (ilog2 a) 2 ltac:(lia)).
    pose proof (Z.div_mod (ilog2 a) 2 ltac:(lia)). lia. }
  assert (Hu : (0 < u)%Q) by apply pow2_pos.
  assert (Huu : (u * u == Qpower 2 (2 * e - 104))%Q).
  { subst u. rewrite <- pow2_add. replace (e - 52 + (e - 52)) with (2 * e - 104) by lia.
    reflexivity. }
  assert (Ht : (Qpower 2 104 <= t)%Q).
  { subst t. apply Qle_shift_div_l; [nra|].
    rewrite Huu, <- pow2_add. replace (104 + (2 * e - 104)) with (2 * e) by lia.
    eapply Qle_trans; [|exact La]. apply pow2_le. exact He2. }
  assert (Hf : 2 ^ 104 <= Qfloor t).
  { rewrite <- (Qfloor_Z (2 ^ 104)). apply Qfloor_resp_le.
    rewrite pow2_Z by lia. exact Ht. }
  assert (Hm : 2 ^ 52 <= m).
  { subst m. apply Z.sqrt_le_square; [lia|lia|].
    change (2 ^ 52 * 2 ^ 52) with (2 ^ 104). exact Hf. }
  assert (Hx : forall z : Z, 2 ^ 52 <= z -> (1 <= inject_Z z * u)%Q).
  { intros z Hz.
    assert (Hu1 : (Qpower 2 (-52) <= u)%Q) by (subst u; apply pow2_le; lia).
    assert (Hz1 : (inject_Z (2 ^ 52) <= inject_Z z)%Q) by (rewrite <- Zle_Qle; exact Hz).
    assert (E1 : (inject_Z (2 ^ 52) * Qpower 2 (-52) == 1)%Q) by reflexivity.
    assert (Hp52 : (0 < inject_Z (2 ^ 52))%Q) by reflexivity.
    assert (Hm52 : (0 < Qpower 2 (-52))%Q) by apply pow2_pos.
    nra. }
  destruct (_ ?= _)%Q; [destruct (Z.odd m)| |]; apply Hx; lia.
Qed.

(** The loop lists the pair of one row. *)
Lemma layouts64_row (n : Z) :
  1 <= n <= 2 ^ 53 ->
  exists l, Double.layouts (ofZ n) = Returns l /\ In (1, n) l.
Proof.
  intro Hn. unfold Double.layouts, ofZ. cbn [sqrt].
  assert (H1 : (1 <= inject_Z n)%Q)
    by (change 1%Q with (inject_Z 1); rewrite <- Zle_Qle; lia).
  assert (E : (0 ?= inject_Z n)%Q = Lt) by (rewrite <- Qlt_alt; lra).
  rewrite E.
  pose proof (sqrtPos_ge_1 _ H1) as Hs1.
  assert (Hs2 : (sqrtPos (inject_Z n) < inject_Z (2 ^ 53))%Q).
  { apply sqrtPos_bound; [lra|].
    apply Qle_lt_trans with (inject_Z (2 ^ 53)); [rewrite <- Zle_Qle; lia|reflexivity]. }
  set (s := sqrtPos (inject_Z n)) in *.
  destruct (Qle_bool (inject_Z (2 ^ 53)) s) eqn:Eb.
  { apply Qle_bool_iff in Eb. lra. }
  eexists. split; [reflexivity|].
  rewrite Qfloor_Z. apply in_flat_map. exists 1%nat. split.
  - apply in_seq.
    assert (Hf : 1 <= Qfloor s).
    { rewrite <- (Qfloor_Z 1). apply Qfloor_resp_le. exact Hs1. }
    lia.
  - change (Z.of_nat 1) with 1. rewrite Z.rem_1_r. cbn [Z.eqb].
    rewrite Z.quot_1_r. left. reflexivity.
Qed.

(** X3.  In double precision, for positive piece and base sizes whose ratios
    are computed positive and a piece count [ratioInt] from 1 to 2^53, the
    custom-fit search ends and returns a whole number of molds of at least
    1 (or +Infinity after an overflow) that is no more than any of the four
    counts of the pieces laid in one row: [(r, c) = (1, ratioInt)], as is and
    transposed, on the sheet as is and rotated. *)
Theorem custom_search_bound (wq hq : Q) (bw bh k : number) (n : Z) :
  (0 < wq)%Q -> (0 < hq)%Q -> isDouble (Fin wq) -> isDouble (Fin hq) ->
  isPositive (div (Fin wq) bw) -> isPositive (div (Fin wq) bh) ->
  isPositive (div (Fin hq) bw) -> isPositive (div (Fin hq) bh) ->
  ceil k = ofZ n -> 1 <= n <= 2 ^ 53 ->
  exists m,
    Double.bestTotalMolds (Fin wq) (Fin hq) bw bh k = Returns m /\
    wholeFromOne m /\
    (m <=? MAX_VALUE)%js = true /\
    forall x, In x (arrangements64 (Fin wq) (Fin hq) bw bh (1, n)) ->
              (m <=? x)%js = true.
Proof.
  intros Hw Hh Dw Dh P1 P2 P3 P4 Ek Hn. unfold Double.bestTotalMolds.
  pose proof (layouts64_pos k) as Hpos. rewrite Ek in *.
  destruct (layouts64_row n Hn) as [l [El Hin]]. rewrite El.
  eexists. split; [reflexivity|].
  destruct (fold_layoutStep_le wq hq bw bh l MAX_VALUE Hw Hh Dw Dh P1 P2 P3 P4
              (fun r c H => Hpos l r c El H) MAX_VALUE_whole) as [W [L A]].
  split; [exact W|]. split; [exact L|].
  intros x Hx. exact (A (1, n) x Hin Hx).
Qed.

Lemma custom_search_bound_witness :
  exists m,
    Double.bestTotalMolds (ofZ 90) (ofZ 54) (ofZ 86) (ofZ 54) (Fin 2.5) = Returns m /\
    (m <=? mul (ceil (div (mul (ofZ 90) (ofZ 3)) (ofZ 86)))
               (ceil (div (mul (ofZ 54) (ofZ 1)) (ofZ 54))))%js = true.
Proof.
  destruct (custom_search_bound 90 54 (ofZ 86) (ofZ 54) (Fin 2.5) 3)
    as [m [Hm [_ [_ Hb]]]].
  - reflexivity.
  - reflexivity.
  - vm_compute. reflexivity.
  - vm_compute. reflexivity.
  - vm_compute. reflexivity.
  - vm_compute. reflexivity.
  - vm_compute. reflexivity.
  - vm_compute. reflexivity.
  - reflexivity.
  - split; [lia|]. vm_compute. discriminate.
  - exists m. split; [exact Hm|]. apply Hb. left. reflexivity.
Defined.

(* ================================================================== *)
(** ** Shape of an evaluation *)

(** In exact arithmetic, for a finite request on an entry with a well-formed
    size, the multiplier of the multiplier strategy is a whole number (of
    molds). *)
Lemma multiplier_whole_exact (item : PriceItem) (w h : Q) (q : Z)
  (res : Outcome.t) :
  usesMultiplier item = true ->
  sizeWellFormed item ->
  calculatePriceForItem item (Fin w) (Fin h) q = Some res ->
  exists z : Z,
    Outcome.details res = MultiplierDetails (ofZ z) (Fin (qtyRatioOf item q)) /\
    Outcome.price res = (parsePrice (fiyat item) * ofZ z)%js.
Proof.
  intros Hm Hwf. rewrite (calculate_multiplier_path item _ _ q Hm).
  destruct (baseMm item) as [[bw bh]|] eqn:Hb; [|discriminate].
  destruct (baseMm_pos item bw bh Hwf Hb) as [x [y [-> [-> [Hx Hy]]]]].
  cbv zeta.
  destruct (standardImposition (Fin w) (Fin h) (Fin x) (Fin y)) as [std imp] eqn:Es.
  cbn [fst snd]. destruct std.
  - destruct (standardImposition_pos w h x y imp Hx Hy Es) as [i [-> _]].
    intro H; inversion H; subst res; clear H.
    exists (Qceiling (i * qtyRatioOf item q)). split; reflexivity.
  - rewrite bestTotalMolds_ofZ by lra.
    intro H; inversion H; subst res; clear H.
    eexists. split; reflexivity.
Qed.

(** X5.  In double precision, for a positive request on an entry priced on the
    multiplier path whose size ratios and quantity ratio are computed
    positive, the multiplier stored in the details is a whole number of at
    least 1, or +Infinity when a product overflows, on the standard-fit
    path and on the custom-cut path alike; the price is the parsed price
    times it, and it is NaN exactly when the label has no price or the
    price is 0 and the multiplier infinite. *)
Theorem multiplier_is_whole (item : PriceItem) (wq hq : Q) (q bw bh : number)
  (res : Outcome.t) :
  usesMultiplier item = true ->
  baseMm64 item = Some (bw, bh) ->
  (0 < wq)%Q -> (0 < hq)%Q -> isDouble (Fin wq) -> isDouble (Fin hq) ->
  isPositive (div (Fin wq) bw) -> isPositive (div (Fin wq) bh) ->
  isPositive (div (Fin hq) bw) -> isPositive (div (Fin hq) bh) ->
  isPositive (div q (Double.itemQtyOf item)) ->
  Double.calculatePriceForItem item (Fin wq) (Fin hq) q = Returns (Some res) ->
  exists m,
    Outcome.details res = MultiplierDetails m (div q (Double.itemQtyOf item)) /\
    wholeFromOne m /\
    Outcome.price res = mul (Double.parsePrice (fiyat item)) m /\
    (isNaN (Outcome.price res) = true <->
     Double.parsePrice (fiyat item) = NaN \/
     ((Double.parsePrice (fiyat item) === ofZ 0)%js = true /\ m = Inf false)).
Proof.
  intros Hm Hb Hw Hh Dw Dh P1 P2 P3 P4 Pk Hres.
  destruct (multiplier64_whole item wq hq q bw bh res Hm Hb Hw Hh Dw Dh P1 P2 P3 P4 Pk Hres)
    as [m [Hwhole [Hd [Hp _]]]].
  exists m. split; [exact Hd|]. split; [exact Hwhole|]. split; [exact Hp|].
  rewrite Hp. unfold mul.
  destruct (parsePrice64_range (fiyat item)) as [->|Hnn].
  { split; [intros _; left; reflexivity|reflexivity]. }
  destruct (Double.parsePrice (fiyat item)) as [|s|pq]; [discriminate Hnn| |].
  - destruct s; [discriminate Hnn|].
    destruct Hwhole as [->|[z [Hz E]]].
    + split; [discriminate|]. intros [H|[H _]]; discriminate H.
    + destruct m as [| |mq]; try contradiction. cbn [same ofZ] in E. cbn [nmul].
      assert (E0 : (0 ?= mq)%Q = Lt).
      { rewrite <- Qlt_alt. rewrite E. change 0%Q with (inject_Z 0).
        rewrite <- Zlt_Qlt. lia. }
      rewrite E0. split; [discriminate|]. intros [H|[H _]]; discriminate H.
  - destruct Hwhole as [->|[z [Hz E]]].
    + cbn [nmul]. unfold ofZ. rewrite neq_Fin. change (inject_Z 0) with 0%Q.
      unfold ofZ in Hnn. rewrite nle_Fin in Hnn. change (inject_Z 0) with 0%Q in Hnn.
      destruct (Qcompare_spec 0 pq) as [E0|L0|G0].
      * split; [intros _; right; split; [symmetry; exact E0|reflexivity]|reflexivity].
      * split; [discriminate|]. intros [H|[H _]]; [discriminate H|]. lra.
      * exfalso. lra.
    + destruct m as [| |mq]; try contradiction. cbn [nmul].
      rewrite (rnd_not_NaN (Fin (pq * mq)) eq_refl).
      split; [discriminate|]. intros [H|[_ H]]; discriminate H.
Qed.

Lemma multiplier_is_whole_witness :
  exists res m,
    Double.calculatePriceForItem demoCard2000 (ofZ 90) (ofZ 54) (ofZ 1000)
    = Returns (Some res) /\
    Outcome.details res
    = MultiplierDetails m (div (ofZ 1000) (Double.itemQtyOf demoCard2000)) /\
    wholeFromOne m /\ isNaN (Outcome.price res) = false.
Proof.
  destruct (Double.calculatePriceForItem demoCard2000 (ofZ 90) (ofZ 54) (ofZ 1000))
    as [[res|]|] eqn:E; try (vm_compute in E; discriminate E).
  destruct (multiplier_is_whole demoCard2000 90 54 (ofZ 1000)
              (mul (fst (Double.baseSizeCm demoCard2000)) (ofZ 10))
              (mul (snd (Double.baseSizeCm demoCard2000)) (ofZ 10)) res)
    as [m [Hd [Hwhole [Hp Hn]]]].
  - reflexivity.
  - vm_compute. reflexivity.
  - reflexivity.
  - reflexivity.
  - vm_compute. reflexivity.
  - vm_compute. reflexivity.
  - vm_compute. reflexivity.
  - vm_compute. reflexivity.
  - vm_compute. reflexivity.
  - vm_compute. reflexivity.
  - vm_compute. reflexivity.
  - exact E.
  - exists res, m. split; [reflexivity|]. split; [exact Hd|]. split; [exact Hwhole|].
    destruct (isNaN (Outcome.price res)) eqn:En; [|reflexivity].
    destruct (proj1 Hn eq_refl) as [H|[H _]]; vm_compute in H; discriminate H.
Defined.

(** X6.  Whether an entry can be priced does not depend on the request: the
    evaluator returns nothing exactly when the entry is not the magnet
    custom-size product and either its category is not a multiplier category
    or its base size is undetermined (a dimension equal to 0, which includes
    a size label that does not match the size pattern). *)
Theorem calculate_none_iff (item : PriceItem) (w h : number) (q : Z) :
  calculatePriceForItem item w h q = None <->
  (String.eqb (kategori item) "Magnet" && String.eqb (kod item) "MGN" = false /\
   (includesStr MULTIPLIER_CATEGORIES (kategori item) = false \/
    baseMm item = None)).
Proof.
  unfold calculatePriceForItem, baseMm.
  destruct (String.eqb (kategori item) "Magnet" && String.eqb (kod item) "MGN").
  - split; [discriminate|]. intros [H _]. discriminate H.
  - destruct (includesStr MULTIPLIER_CATEGORIES (kategori item)).
    + destruct (baseSizeCm item) as [BW BH].
      destruct ((BW === ofZ 0)%js || (BH === ofZ 0)%js).
      * split; [intros _; split; [reflexivity|right; reflexivity]|reflexivity].
      * destruct (standardImposition _ _ _ _) as [std imp].
        split; [discriminate|]. intros [_ [H|H]]; discriminate H.
    + split; [intros _; split; [reflexivity|left; reflexivity]|reflexivity].
Qed.

(** A size label that does not match the size pattern leaves the base size
    undetermined outside the two fixed-size categories. *)
Lemma baseMm_unparsed (item : PriceItem) :
  String.eqb (kategori item) "Kartvizit" || String.eqb (kategori item) "Etiket" = false ->
  parseSize (ebat item) = None -> baseMm item = None.
Proof.
  intros Hk Hp. unfold baseMm, baseSizeCm. rewrite Hk, Hp. reflexivity.
Qed.

(* ================================================================== *)
(** ** Paper-type keys *)

Lemma skipSpace_length (s r : string) :
  skipSpace s = Some r -> (String.length r < String.length s)%nat.
Proof.
  destruct s as [|a r1]; [discriminate|]. cbn [skipSpace].
  destruct (isSpace a); [intro H; injection H as <-; cbn; lia|].
  destruct r1 as [|b r2]; [discriminate|].
  destruct (isSpace2 a b); [intro H; injection H as <-; cbn; lia|].
  destruct r2 as [|c r3]; [discriminate|].
  destruct (isSpace3 a b c); [intro H; injection H as <-; cbn; lia|discriminate].
Qed.

(** Induction along the white-space characters at the head of a string. *)
Lemma skipSpace_ind (P : string -> Prop) :
  (forall s, (forall r, skipSpace s = Some r -> P r) -> P s) ->
  forall s, P s.
Proof.
  intros Hstep s.
  assert (H : forall n s, (String.length s < n)%nat -> P s).
  { induction n as [|n IH]; intros t Ht; [lia|].
    apply Hstep. intros r Hr. apply IH.
    apply skipSpace_length in Hr. lia. }
  apply (H (S (String.length s))). lia.
Qed.

Lemma allChars_skipSpace (p : ascii -> bool) (s r : string) :
  skipSpace s = Some r -> allChars p s = true -> allChars p r = true.
Proof.
  destruct s as [|a r1]; [discriminate|]. cbn [skipSpace allChars].
  intros H Hp. apply andb_true_iff in Hp as [_ Hp].
  destruct (isSpace a); [injection H as <-; exact Hp|].
  destruct r1 as [|b r2]; [discriminate|].
  cbn [allChars] in Hp. apply andb_true_iff in Hp as [_ Hp].
  destruct (isSpace2 a b); [injection H as <-; exact Hp|].
  destruct r2 as [|c r3]; [discriminate|].
  cbn [allChars] in Hp. apply andb_true_iff in Hp as [_ Hp].
  destruct (isSpace3 a b c); [injection H as <-; exact Hp|discriminate].
Qed.

Lemma allChars_trimStart (p : ascii -> bool) (s : string) :
  allChars p s = true -> allChars p (trimStart s) = true.
Proof.
  induction s as [s IH] using skipSpace_ind. intro H.
  rewrite trimStart_skip. destruct (skipSpace s) as [r|] eqn:E; [|exact H].
  apply (IH r eq_refl). exact (allChars_skipSpace p s r E H).
Qed.

Lemma allChars_trimEnd (p : ascii -> bool) (s : string) :
  allChars p s = true -> allChars p (trimEnd s) = true.
Proof.
  induction s as [|c r IH]; [reflexivity|]. cbn [trimEnd allChars].
  intro H. apply andb_true_iff in H as [Hc Hr].
  destruct (trimStart (String c r)); [reflexivity|].
  cbn [allChars]. rewrite Hc. exact (IH Hr).
Qed.

(** What [trimStart] leaves does not start with white space. *)
Lemma skipSpace_trimStart (s : string) : skipSpace (trimStart s) = None.
Proof.
  induction s as [s IH] using skipSpace_ind.
  rewrite trimStart_skip. destruct (skipSpace s) as [r|] eqn:E; [|exact E].
  apply (IH r eq_refl).
Qed.

Lemma trimStart_id (s : string) : skipSpace s = None -> trimStart s = s.
Proof. intro H. rewrite trimStart_skip, H. reflexivity. Qed.

Lemma trimEnd_cons (c : ascii) (r : string) :
  trimStart (String c r) <> EmptyString ->
  trimEnd (String c r) = String c (trimEnd r).
Proof.
  intro H. cbn [trimEnd]. destruct (trimStart (String c r)); [contradiction|].
  reflexivity.
Qed.

Lemma trimEnd_nil (s : string) :
  trimEnd s = EmptyString -> trimStart s = EmptyString.
Proof.
  destruct s as [|c r]; [reflexivity|]. cbn [trimEnd].
  destruct (trimStart (String c r)); [reflexivity|discriminate].
Qed.

Lemma trimEnd_cons_inv (s x : string) (b : ascii) :
  trimEnd s = String b x ->
  exists r, s = String b r /\ x = trimEnd r /\ trimStart s <> EmptyString.
Proof.
  destruct s as [|c r]; [discriminate|]. cbn [trimEnd].
  destruct (trimStart (String c r)) eqn:E; [discriminate|].
  intro H. injection H as -> <-. exists r. repeat split. discriminate.
Qed.

(** A prefix left by [trimEnd] does not start with white space when the
    string does not. *)
Lemma skipSpace_trimEnd (s : string) :
  skipSpace s = None -> skipSpace (trimEnd s) = None.
Proof.
  intro H. destruct s as [|a r1]; [reflexivity|].
  rewrite trimEnd_cons by (rewrite (trimStart_id _ H); discriminate).
  cbn [skipSpace] in H |- *.
  destruct (isSpace a); [discriminate|].
  destruct (trimEnd r1) as [|b x] eqn:E1; [reflexivity|].
  apply trimEnd_cons_inv in E1 as [r2 [-> [-> _]]].
  destruct (isSpace2 a b); [discriminate|].
  destruct (trimEnd r2) as [|c y] eqn:E2; [reflexivity|].
  apply trimEnd_cons_inv in E2 as [r3 [-> [-> _]]].
  destruct (isSpace3 a b c); [discriminate|reflexivity].
Qed.

(** What [trimEnd] leaves does not end with white space. *)
Lemma endsWithSpace_trimEnd (s : string) : endsWithSpace (trimEnd s) = false.
Proof.
  induction s as [|a r1 IH]; [reflexivity|].
  cbn [trimEnd]. destruct (trimStart (String a r1)) as [|t0 t] eqn:Et; [reflexivity|].
  cbn [endsWithSpace].
  destruct (skipSpace (String a (trimEnd r1))) as [[|u0 u]|] eqn:E; try exact IH.
  exfalso. cbn [skipSpace] in E. cbn [trimStart] in Et.
  destruct (isSpace a).
  - injection E as E. apply trimEnd_nil in E. rewrite E in Et. discriminate Et.
  - destruct (trimEnd r1) as [|b x] eqn:E1; [discriminate E|].
    apply trimEnd_cons_inv in E1 as [r2 [-> [-> _]]].
    destruct (isSpace2 a b).
    + injection E as E. apply trimEnd_nil in E. rewrite E in Et. discriminate Et.
    + destruct (trimEnd r2) as [|c y] eqn:E2; [discriminate E|].
      apply trimEnd_cons_inv in E2 as [r3 [-> [-> _]]].
      destruct (isSpace3 a b c); [|discriminate E].
      injection E as E. apply trimEnd_nil in E. rewrite E in Et. discriminate Et.
Qed.

Lemma trim_isTrimmed (s : string) : isTrimmed (trim s) = true.
Proof.
  unfold isTrimmed, trim, startsWithSpace.
  rewrite (skipSpace_trimEnd _ (skipSpace_trimStart s)), endsWithSpace_trimEnd.
  reflexivity.
Qed.

(** No white-space character of two or three bytes ends with a space. *)
Lemma isSpace2_space (a : ascii) : isSpace2 a " " = false.
Proof. unfold isSpace2. apply andb_false_r. Qed.

Lemma isSpace3_space (a b : ascii) : isSpace3 a b " " = false.
Proof.
  unfold isSpace3. cbv zeta.
  change (N_of_ascii " ") with 32%N.
  change (32 =? 128)%N with false. change (32 =? 168)%N with false.
  change (32 =? 169)%N with false. change (32 =? 175)%N with false.
  change (32 =? 159)%N with false. change (32 =? 191)%N with false.
  change (128 <=? 32)%N with false.
  rewrite !andb_false_r. reflexivity.
Qed.

Lemma endsWithSpace_cons (a : ascii) (r : string) :
  endsWithSpace r = true -> endsWithSpace (String a r) = true.
Proof.
  intro H. cbn [endsWithSpace].
  destruct (skipSpace (String a r)) as [[|u0 u]|]; [reflexivity|exact H|exact H].
Qed.

(** A non-empty string that is white space once a space is appended ends
    with a white-space character. *)
Lemma endsWithSpace_padded (s : string) :
  s <> EmptyString -> trimStart (s ++ " ") = EmptyString -> endsWithSpace s = true.
Proof.
  induction s as [s IH] using skipSpace_ind. intros Hne Ht.
  destruct s as [|a r1]; [contradiction|].
  assert (Hrest : forall r, skipSpace (String a r1) = Some r ->
                    trimStart (r ++ " ") = EmptyString ->
                    endsWithSpace (String a r1) = true).
  { intros r Hr Hrt. destruct r as [|u0 u].
    - cbn [endsWithSpace]. rewrite Hr. reflexivity.
    - assert (Hu : endsWithSpace (String u0 u) = true)
        by (apply (IH _ Hr); [discriminate|exact Hrt]).
      cbn [endsWithSpace]. rewrite Hr.
      cbn [skipSpace] in Hr.
      destruct (isSpace a); [injection Hr as ->; exact Hu|].
      destruct r1 as [|b r2]; [discriminate Hr|].
      destruct (isSpace2 a b); [injection Hr as ->; apply endsWithSpace_cons; exact Hu|].
      destruct r2 as [|c r3]; [discriminate Hr|].
      destruct (isSpace3 a b c); [|discriminate Hr].
      injection Hr as ->. apply endsWithSpace_cons, endsWithSpace_cons. exact Hu. }
  cbn [append trimStart] in Ht. cbn [skipSpace] in Hrest.
  destruct (isSpace a); [apply (Hrest r1 eq_refl Ht)|].
  destruct r1 as [|b r2].
  - cbn [append] in Ht. rewrite isSpace2_space in Ht. discriminate Ht.
  - cbn [append] in Ht.
    destruct (isSpace2 a b); [apply (Hrest r2 eq_refl Ht)|].
    destruct r2 as [|c r3].
    + cbn [append] in Ht. rewrite isSpace3_space in Ht. discriminate Ht.
    + cbn [append] in Ht.
      destruct (isSpace3 a b c); [apply (Hrest r3 eq_refl Ht)|discriminate Ht].
Qed.

Lemma endsWithSpace_tail (a : ascii) (r : string) :
  endsWithSpace (String a r) = false -> endsWithSpace r = false.
Proof.
  intro H. destruct (endsWithSpace r) eqn:E; [|reflexivity].
  rewrite (endsWithSpace_cons a r E) in H. discriminate H.
Qed.

Lemma trimEnd_padded (s : string) :
  endsWithSpace s = false -> trimEnd (s ++ " ") = s.
Proof.
  induction s as [|a r IH]; [reflexivity|]. intro H.
  change (String a r ++ " ")%string with (String a (r ++ " ")).
  rewrite trimEnd_cons.
  - rewrite (IH (endsWithSpace_tail a r H)). reflexivity.
  - intro Ht. rewrite (endsWithSpace_padded (String a r)) in H;
      [discriminate H|discriminate|exact Ht].
Qed.

Lemma skipSpace_padded (s : string) :
  s <> EmptyString -> skipSpace s = None -> skipSpace (s ++ " ") = None.
Proof.
  intros Hne H. destruct s as [|a r1]; [contradiction|].
  cbn [append skipSpace] in H |- *.
  destruct (isSpace a); [discriminate H|].
  destruct r1 as [|b r2]; cbn [append].
  - rewrite isSpace2_space. reflexivity.
  - destruct (isSpace2 a b); [discriminate H|].
    destruct r2 as [|c r3]; cbn [append].
    + rewrite isSpace3_space. reflexivity.
    + destruct (isSpace3 a b c); [discriminate H|reflexivity].
Qed.

Lemma trim_padded (name : string) :
  isTrimmed name = true -> trim (name ++ " ") = name.
Proof.
  unfold isTrimmed, startsWithSpace. intro Ht.
  apply andb_true_iff in Ht as [H1 H2]. apply negb_true_iff in H2.
  destruct name as [|c r]; [reflexivity|].
  destruct (skipSpace (String c r)) eqn:E; [discriminate H1|].
  unfold trim. rewrite trimStart_id by (apply skipSpace_padded; [discriminate|exact E]).
  apply trimEnd_padded. exact H2.
Qed.

Lemma beforeFirst_app (sep : ascii) (a rest : string) :
  allChars (fun c => negb (Ascii.eqb c sep)) a = true ->
  beforeFirst sep (a ++ String sep rest) = a.
Proof.
  induction a as [|c r IH]; cbn [append beforeFirst allChars].
  - intros _. rewrite Ascii.eqb_refl. reflexivity.
  - intro H. apply andb_true_iff in H as [Hc Hr]. apply negb_true_iff in Hc.
    rewrite Hc, (IH Hr). reflexivity.
Qed.

Lemma append_assoc (a b c : string) : ((a ++ b) ++ c = a ++ (b ++ c))%string.
Proof. induction a as [|x a IH]; [reflexivity|]. cbn. rewrite IH. reflexivity. Qed.

Lemma beforeFirst_no_sep (sep : ascii) (s : string) :
  allChars (fun c => negb (Ascii.eqb c sep)) (beforeFirst sep s) = true.
Proof.
  induction s as [|c r IH]; [reflexivity|]. cbn [beforeFirst].
  destruct (Ascii.eqb c sep) eqn:E; [reflexivity|]. cbn. rewrite E. exact IH.
Qed.

(** X7.  The group key of a description (outside Magnet) contains no hyphen and
    has no white space at either end, the white space being that of
    ECMAScript (the no-break space and the other Unicode spaces included);
    and a description of the form [name - details], where [name] is such a
    key, is grouped under [name]. *)
Theorem getPaperTypeGroup_key (desc cat : string) :
  String.eqb cat "Magnet" = false ->
  allChars (fun c => negb (isHyphen c)) (getPaperTypeGroup desc cat) = true /\
  isTrimmed (getPaperTypeGroup desc cat) = true /\
  (forall name details,
      allChars (fun c => negb (isHyphen c)) name = true ->
      isTrimmed name = true ->
      desc = (name ++ " - " ++ details)%string ->
      getPaperTypeGroup desc cat = name).
Proof.
  intro Hc. unfold getPaperTypeGroup. rewrite Hc. split; [|split].
  - unfold trim. apply allChars_trimEnd, allChars_trimStart.
    apply (beforeFirst_no_sep "-").
  - apply trim_isTrimmed.
  - intros name details Hn Ht ->.
    change (name ++ " - " ++ details)%string
      with (name ++ (" " ++ String "-" (" " ++ details)))%string.
    rewrite <- append_assoc.
    rewrite beforeFirst_app.
    + apply trim_padded. exact Ht.
    + clear Ht. induction name as [|c r IH]; [reflexivity|].
      cbn [append allChars] in *. apply andb_true_iff in Hn as [H1 H2].
      unfold isHyphen in H1. rewrite H1. exact (IH H2).
Qed.

Lemma getPaperTypeGroup_key_witness :
  getPaperTypeGroup "115 gr. Parlak Kuşe - Ön 4 Renk" "Broşür" = "115 gr. Parlak Kuşe".
Proof.
  apply (getPaperTypeGroup_key "115 gr. Parlak Kuşe - Ön 4 Renk" "Broşür" eq_refl)
    with (details := "Ön 4 Renk"); reflexivity.
Defined.

(** A no-break space (U+00A0, the bytes 194 and 160) before the hyphen is
    trimmed like a space, and so is an ideographic space (U+3000) at the
    start. *)
Example getPaperTypeGroup_wide_space :
  getPaperTypeGroup
    (String "227" (String "128" (String "128" "Kuşe"))
     ++ String "194" (String "160" "- Mat")) "Broşür" = "Kuşe"%string.
Proof. reflexivity. Qed.

(* ================================================================== *)
(** ** Reading price and size labels *)

Lemma span_app (p : ascii -> bool) (a rest : string) :
  allChars p a = true -> headNot p rest = true ->
  span p (a ++ rest) = (a, rest).
Proof.
  intros Ha Hr. induction a as [|c r IH]; cbn [append].
  - destruct rest as [|c r]; [reflexivity|]. cbn in *.
    apply negb_true_iff in Hr. rewrite Hr. reflexivity.
  - cbn in *. apply andb_true_iff in Ha as [Hc Ha]. rewrite Hc, (IH Ha). reflexivity.
Qed.

Lemma keep_app (p : ascii -> bool) (a b : string) :
  keep p (a ++ b) = (keep p a ++ keep p b)%string.
Proof.
  induction a as [|c r IH]; [reflexivity|]. cbn.
  destruct (p c); cbn; rewrite IH; reflexivity.
Qed.

Lemma keep_all (p : ascii -> bool) (s : string) :
  allChars p s = true -> keep p s = s.
Proof.
  induction s as [|c r IH]; [reflexivity|]. cbn. intro H.
  apply andb_true_iff in H as [Hc Hr]. rewrite Hc, (IH Hr). reflexivity.
Qed.

Lemma keep_none (p q : ascii -> bool) (s : string) :
  allChars (fun c => negb (p c)) s = true -> keep p (keep q s) = EmptyString.
Proof.
  induction s as [|c r IH]; [reflexivity|]. cbn. intro H.
  apply andb_true_iff in H as [Hc Hr]. apply negb_true_iff in Hc.
  destruct (q c); cbn; rewrite ?Hc; exact (IH Hr).
Qed.

Lemma allChars_weaken (p q : ascii -> bool) (s : string) :
  (forall c, p c = true -> q c = true) -> allChars p s = true -> allChars q s = true.
Proof.
  intro H. induction s as [|c r IH]; [reflexivity|]. cbn. intro Hs.
  apply andb_true_iff in Hs as [Hc Hr]. rewrite (H c Hc), (IH Hr). reflexivity.
Qed.

Lemma parseFloat_scan (s : string) :
  plainHead s = true ->
  parseFloat s = match scanDecimal s with Some q => Fin q | None => NaN end.
Proof.
  intro H. destruct s as [|c r]; [reflexivity|].
  destruct (plainHead_ascii c r H) as [Hs Hc].
  unfold parseFloat. rewrite (trimStart_ascii c r Hs Hc).
  destruct c as [[] [] [] [] [] [] [] []]; try discriminate H; reflexivity.
Qed.

Lemma scanExponent_none (rest : string) :
  headNot isDigitOrExp rest = true -> scanExponent rest = 0.
Proof.
  destruct rest as [|c r]; [reflexivity|]. unfold headNot, isDigitOrExp. intro H.
  apply negb_true_iff in H. apply orb_false_iff in H as [H H2].
  apply orb_false_iff in H as [_ H1]. cbn. rewrite H1, H2. reflexivity.
Qed.

Lemma headNot_digit (rest : string) :
  headNot isDigitOrExp rest = true -> headNot isDigit rest = true.
Proof.
  destruct rest as [|c r]; [reflexivity|]. unfold headNot, isDigitOrExp. intro H.
  apply negb_true_iff in H. apply orb_false_iff in H as [H _].
  apply orb_false_iff in H as [H _]. rewrite H. reflexivity.
Qed.

Lemma scanDecimal_decimal (a b rest : string) :
  allChars isDigit a = true -> isEmpty a = false ->
  allChars isDigit b = true ->
  headNot isDigitOrExp rest = true ->
  scanDecimal (a ++ "." ++ b ++ rest)
  = Some (decimalValue a b * Qpower 10 0)%Q.
Proof.
  intros Ha Hne Hb Hr. unfold scanDecimal.
  rewrite (span_app isDigit a ("." ++ b ++ rest)) by (assumption || reflexivity).
  change ("." ++ b ++ rest)%string with (String "." (b ++ rest)). cbv beta iota.
  rewrite (span_app isDigit b rest) by (assumption || apply headNot_digit; assumption).
  rewrite Hne. cbn [andb]. rewrite scanExponent_none by assumption. reflexivity.
Qed.

Lemma scanDecimal_integer (a rest : string) :
  allChars isDigit a = true -> isEmpty a = false ->
  headNot isDigitOrExp rest = true -> headNot isDot rest = true ->
  scanDecimal (a ++ rest) = Some (decimalValue a "" * Qpower 10 0)%Q.
Proof.
  intros Ha Hne Hr Hd. unfold scanDecimal.
  rewrite (span_app isDigit a rest) by (assumption || apply headNot_digit; assumption).
  assert (E : match rest with
              | String "."%char t => span isDigit t
              | _ => (EmptyString, rest)
              end = (EmptyString, rest)).
  { destruct rest as [|c t]; [reflexivity|].
    unfold headNot, isDot in Hd. apply negb_true_iff in Hd.
    destruct c as [[] [] [] [] [] [] [] []]; try reflexivity; discriminate Hd. }
  rewrite E, Hne. cbn [andb]. rewrite scanExponent_none by assumption. reflexivity.
Qed.

Lemma digits_plainHead (a rest : string) :
  allChars isDigit a = true -> isEmpty a = false -> plainHead (a ++ rest) = true.
Proof.
  destruct a as [|c r]; [discriminate|]. cbn. intros H _.
  apply andb_true_iff in H as [H _]. rewrite H. reflexivity.
Qed.

(** [parseFloat] reads a plain decimal numeral by its digits: the digit
    strings [a] (not empty) and [b] around a dot give [a + b / 10^|b|], and
    the digit string [a] alone gives [a], whatever follows the numeral (as
    long as it does not continue it). *)
Lemma parseFloat_decimal (a b rest : string) :
  allChars isDigit a = true -> isEmpty a = false ->
  allChars isDigit b = true ->
  headNot isDigitOrExp rest = true ->
  same (parseFloat (a ++ "." ++ b ++ rest)) (Fin (decimalValue a b)) /\
  (headNot isDot rest = true ->
   same (parseFloat (a ++ rest)) (ofZ (digitsVal 0 a))).
Proof.
  intros Ha Hne Hb Hr. split.
  - rewrite parseFloat_scan by (apply digits_plainHead; assumption).
    rewrite scanDecimal_decimal by assumption.
    cbn [same]. change (Qpower 10 0) with 1%Q. ring.
  - intro Hd. rewrite parseFloat_scan by (apply digits_plainHead; assumption).
    rewrite scanDecimal_integer by assumption.
    cbn [same ofZ]. unfold decimalValue. change (Qpower 10 0) with 1%Q.
    cbn [digitsVal String.length Z.of_nat Z.pow]. change (inject_Z 0) with 0%Q.
    unfold ofZ. cbn [same]. field; discriminate.
Qed.

Lemma append_nil (s : string) : (s ++ "")%string = s.
Proof. induction s as [|c r IH]; [reflexivity|]. cbn. rewrite IH. reflexivity. Qed.

Lemma keep_price_digits (s : string) :
  allChars isDigit s = true ->
  keep (fun c => isDigit c || isComma c) (keep (fun c => negb (isDot c)) s) = s.
Proof.
  induction s as [|c r IH]; [reflexivity|]. cbn [allChars]. intro H.
  apply andb_true_iff in H as [Hc Hr]. cbn [keep].
  assert (Hd : isDot c = false).
  { unfold isDot. destruct c as [[] [] [] [] [] [] [] []]; try reflexivity; discriminate Hc. }
  rewrite Hd. cbn [negb keep]. rewrite Hc. cbn [orb]. rewrite (IH Hr). reflexivity.
Qed.

Lemma keep_price_grouped (s : string) :
  allChars isDigitOrDot s = true ->
  keep (fun c => isDigit c || isComma c) (keep (fun c => negb (isDot c)) s)
  = keep isDigit s.
Proof.
  induction s as [|c r IH]; [reflexivity|]. cbn [allChars]. intro H.
  apply andb_true_iff in H as [Hc Hr]. cbn [keep].
  destruct (isDot c) eqn:Hd; cbn [negb].
  - assert (Hg : isDigit c = false).
    { unfold isDot in Hd. destruct c as [[] [] [] [] [] [] [] []]; try reflexivity; discriminate Hd. }
    rewrite Hg. exact (IH Hr).
  - unfold isDigitOrDot in Hc. rewrite Hd, orb_false_r in Hc.
    cbn [keep]. rewrite Hc. cbn [orb]. rewrite (IH Hr). reflexivity.
Qed.

Lemma replaceFirst_after_digits (a rest : string) :
  allChars isDigit a = true ->
  replaceFirst "," "." (a ++ String "," rest) = (a ++ String "." rest)%string.
Proof.
  induction a as [|c r IH]; [reflexivity|]. cbn [allChars append replaceFirst].
  intro H. apply andb_true_iff in H as [Hc Hr].
  assert (E : Ascii.eqb c "," = false).
  { destruct c as [[] [] [] [] [] [] [] []]; try reflexivity; discriminate Hc. }
  rewrite E, (IH Hr). reflexivity.
Qed.

Lemma replaceFirst_digits (a : string) :
  allChars isDigit a = true -> replaceFirst "," "." a = a.
Proof.
  induction a as [|c r IH]; [reflexivity|]. cbn [allChars replaceFirst].
  intro H. apply andb_true_iff in H as [Hc Hr].
  assert (E : Ascii.eqb c "," = false).
  { destruct c as [[] [] [] [] [] [] [] []]; try reflexivity; discriminate Hc. }
  rewrite E, (IH Hr). reflexivity.
Qed.

(** X8.  A price label in the Turkish format is read by its digits: thousands
    dots, the currency sign and any other text are dropped and the comma is
    the decimal mark.  With [ip] the integer part (digits and dots), [fp] the
    decimals, and text without digits or commas before and after, the label
    [pre ip , fp post] parses to [digits(ip) + fp / 10^|fp|] and the label
    [pre ip post] to [digits(ip)]. *)
Theorem parsePrice_label (pre ip fp post : string) :
  allChars notDigitOrComma pre = true ->
  allChars isDigitOrDot ip = true ->
  isEmpty (keep isDigit ip) = false ->
  allChars isDigit fp = true ->
  allChars notDigitOrComma post = true ->
  same (parsePrice (pre ++ ip ++ "," ++ fp ++ post))
       (Fin (decimalValue (keep isDigit ip) fp)) /\
  same (parsePrice (pre ++ ip ++ post)) (ofZ (digitsVal 0 (keep isDigit ip))).
Proof.
  intros Hpre Hip Hne Hfp Hpost.
  assert (Hd : allChars isDigit (keep isDigit ip) = true) by apply keep_allChars.
  unfold parsePrice. split.
  - rewrite !keep_app.
    rewrite (keep_none _ _ pre Hpre), (keep_none _ _ post Hpost).
    rewrite (keep_price_grouped ip Hip), (keep_price_digits fp Hfp).
    change (keep (fun c => isDigit c || isComma c) (keep (fun c => negb (isDot c)) ","))
      with ","%string.
    cbn [append]. rewrite append_nil.
    rewrite replaceFirst_after_digits by exact Hd.
    pose proof (parseFloat_decimal (keep isDigit ip) fp "" Hd Hne Hfp eq_refl) as [H _].
    rewrite append_nil in H. exact H.
  - rewrite !keep_app.
    rewrite (keep_none _ _ pre Hpre), (keep_none _ _ post Hpost).
    rewrite (keep_price_grouped ip Hip).
    cbn [append]. rewrite append_nil.
    rewrite replaceFirst_digits by exact Hd.
    pose proof (parseFloat_decimal (keep isDigit ip) "" "" Hd Hne eq_refl eq_refl) as [_ H].
    rewrite append_nil in H. apply H. reflexivity.
Qed.

Lemma parsePrice_label_witness :
  same (parsePrice "1.250,50 TL") (Fin (decimalValue "1250" "50")).
Proof.
  apply (parsePrice_label "" "1.250" "50" " TL"); reflexivity.
Defined.

(** A price label without a digit parses to NaN. *)
Lemma parsePrice_no_digit (priceStr : string) :
  keep isDigit priceStr = EmptyString -> parsePrice priceStr = NaN.
Proof.
  intro Hnd. unfold parsePrice.
  set (t := keep (fun c => isDigit c || isComma c) (keep (fun c => negb (isDot c)) priceStr)).
  assert (Hc : allChars isComma t = true).
  { subst t. induction priceStr as [|c r IH]; [reflexivity|].
    cbn [keep] in *. destruct (isDigit c) eqn:Ed; [discriminate Hnd|].
    destruct (negb (isDot c)); [|exact (IH Hnd)].
    cbn [keep]. rewrite Ed. cbn [orb].
    destruct (isComma c) eqn:Ec; [|exact (IH Hnd)].
    cbn [allChars]. rewrite Ec. exact (IH Hnd). }
  destruct t as [|c r]; [reflexivity|].
  cbn [allChars] in Hc. apply andb_true_iff in Hc as [Hc Hr].
  unfold isComma in Hc. apply Ascii.eqb_eq in Hc. subst c.
  cbn [replaceFirst]. change (Ascii.eqb "," ",") with true. cbv iota.
  rewrite parseFloat_scan by reflexivity.
  destruct r as [|c r']; [reflexivity|].
  cbn [allChars] in Hr. apply andb_true_iff in Hr as [Hc _].
  unfold isComma in Hc. apply Ascii.eqb_eq in Hc. subst c. reflexivity.
Qed.

(** X9.  In double precision a price label never parses to a negative number:
    the result is NaN, +Infinity (a label whose digits exceed the largest
    double) or a finite number not below 0; and it is NaN when the label
    holds no digit. *)
Theorem parsePrice_range (priceStr : string) :
  (Double.parsePrice priceStr = NaN \/
   Double.parsePrice priceStr = Inf false \/
   exists q, Double.parsePrice priceStr = Fin q /\ (0 <= q)%Q) /\
  (keep isDigit priceStr = EmptyString -> Double.parsePrice priceStr = NaN).
Proof.
  assert (E : Double.parsePrice priceStr = rnd (parsePrice priceStr)) by reflexivity.
  rewrite E. split.
  - destruct (parsePrice_cases priceStr) as [->|[p [-> Hp]]]; [left; reflexivity|right].
    pose proof (roundQ_nonneg p Hp) as H. cbn [rnd].
    destruct (roundQ p) as [|s|q] eqn:Er.
    + discriminate H.
    + destruct s; [discriminate H|left; reflexivity].
    + right. exists q. split; [reflexivity|]. apply nle_Fin in H. exact H.
  - intro H. rewrite (parsePrice_no_digit _ H). reflexivity.
Qed.

Lemma parsePrice_range_witness : Double.parsePrice "Fiyat sorunuz" = NaN.
Proof.
  apply (proj2 (parsePrice_range "Fiyat sorunuz")). reflexivity.
Defined.

(** A label of 310 digits is beyond the largest double: it parses to
    +Infinity. *)
Example parsePrice_overflow :
  Double.parsePrice (String "1" (zeros 309)) = Inf false.
Proof. vm_compute. reflexivity. Qed.

Lemma toLowerCase_app (a b : string) :
  toLowerCase (a ++ b) = (toLowerCase a ++ toLowerCase b)%string.
Proof. induction a as [|c r IH]; [reflexivity|]. cbn. rewrite IH. reflexivity. Qed.

Lemma toLowerCase_plain (p : ascii -> bool) (s : string) :
  (forall c, p c = true -> lowerChar c = c) ->
  allChars p s = true -> toLowerCase s = s.
Proof.
  intro Hp. induction s as [|c r IH]; [reflexivity|]. cbn. intro H.
  apply andb_true_iff in H as [Hc Hr]. rewrite (Hp c Hc), (IH Hr). reflexivity.
Qed.

Lemma lowerChar_digitOrDot (c : ascii) : isDigitOrDot c = true -> lowerChar c = c.
Proof.
  destruct c as [[] [] [] [] [] [] [] []]; intro H; try discriminate H; reflexivity.
Qed.

Lemma lowerChar_space (c : ascii) : isSpace c = true -> lowerChar c = c.
Proof.
  destruct c as [[] [] [] [] [] [] [] []]; intro H; try discriminate H; reflexivity.
Qed.

Lemma keep_nonspace_spaces (s : string) :
  allChars isSpace s = true -> keep (fun c => negb (isSpace c)) s = EmptyString.
Proof.
  induction s as [|c r IH]; [reflexivity|]. cbn. intro H.
  apply andb_true_iff in H as [Hc Hr]. rewrite Hc. cbn. exact (IH Hr).
Qed.

Lemma keep_nonspace_digits (s : string) :
  allChars isDigitOrDot s = true -> keep (fun c => negb (isSpace c)) s = s.
Proof.
  intro H. apply keep_all. revert H. apply allChars_weaken.
  intros c Hc. destruct c as [[] [] [] [] [] [] [] []]; try discriminate Hc; reflexivity.
Qed.

(** Among ASCII characters the white space removed is the one-byte white
    space. *)
Lemma removeSpaces_ascii_app (a b : string) :
  allChars (fun c => (N_of_ascii c <? 128)%N) a = true ->
  removeSpaces (a ++ b)
  = (keep (fun c => negb (isSpace c)) a ++ removeSpaces b)%string.
Proof.
  induction a as [|c r IH]; [reflexivity|]. cbn [allChars]. intro H.
  apply andb_true_iff in H as [Hc Hr].
  change (String c r ++ b)%string with (String c (r ++ b)).
  rewrite removeSpaces_skip. cbn [keep].
  destruct (isSpace c) eqn:Es.
  - cbn [skipSpace]. rewrite Es. cbn [negb]. exact (IH Hr).
  - rewrite (skipSpace_ascii c (r ++ b) Es Hc). cbn [negb append].
    rewrite (IH Hr). reflexivity.
Qed.

Lemma ascii_digits (g : string) :
  allChars isDigitOrDot g = true ->
  allChars (fun c => (N_of_ascii c <? 128)%N) g = true.
Proof.
  apply allChars_weaken. intros c Hc.
  destruct c as [[] [] [] [] [] [] [] []]; try discriminate Hc; reflexivity.
Qed.

Lemma ascii_spaces (g : string) :
  allChars isSpace g = true ->
  allChars (fun c => (N_of_ascii c <? 128)%N) g = true.
Proof.
  apply allChars_weaken. intros c Hc.
  destruct c as [[] [] [] [] [] [] [] []]; try discriminate Hc; reflexivity.
Qed.

Lemma removeFirst_cm_skip (u v : string) :
  allChars (fun c => negb (Ascii.eqb c "c")) u = true ->
  removeFirst "cm" (u ++ v) = (u ++ removeFirst "cm" v)%string.
Proof.
  induction u as [|c r IH]; [reflexivity|]. cbn [allChars append]. intro H.
  apply andb_true_iff in H as [Hc Hr]. apply negb_true_iff in Hc.
  cbn [removeFirst].
  assert (E : prefix "cm" (String c (r ++ v)) = false).
  { cbn [prefix]. destruct (ascii_dec "c" c) as [<-|N]; [discriminate Hc|reflexivity]. }
  rewrite E, (IH Hr). reflexivity.
Qed.

Lemma matchSize_parts (g1 g2 : string) (sep : ascii) :
  allChars isDigitOrDot g1 = true -> isEmpty g1 = false ->
  allChars isDigitOrDot g2 = true -> isEmpty g2 = false ->
  Ascii.eqb sep "x" || Ascii.eqb sep "*" = true ->
  matchSize (g1 ++ String sep g2) = Some (g1, g2).
Proof.
  intros H1 N1 H2 N2 Hs. unfold matchSize.
  rewrite (span_app isDigitOrDot g1 (String sep g2)); [|exact H1|].
  2:{ cbn. apply orb_true_iff in Hs as [E|E]; apply Ascii.eqb_eq in E; subst; reflexivity. }
  rewrite N1, Hs.
  rewrite <- (append_nil g2) at 1.
  rewrite (span_app isDigitOrDot g2 "") by (assumption || reflexivity).
  rewrite N2. reflexivity.
Qed.

(** X10.  A size label [W sep H unit] is read as the pair of its two numerals:
    the separator is [x], [X] or [*], white space may surround it and
    precede the unit, and the unit is absent or "cm" in any case. *)
Theorem parseSize_label (g1 g2 s1 s2 s3 unit : string) (sep : ascii) :
  allChars isDigitOrDot g1 = true -> isEmpty g1 = false ->
  allChars isDigitOrDot g2 = true -> isEmpty g2 = false ->
  allChars isSpace s1 = true -> allChars isSpace s2 = true ->
  allChars isSpace s3 = true ->
  isSizeSep sep = true ->
  isCmUnit unit = true ->
  parseSize (g1 ++ s1 ++ String sep s2 ++ g2 ++ s3 ++ unit)
  = Some (parseFloat g1, parseFloat g2).
Proof.
  intros H1 N1 H2 N2 S1 S2 S3 Hsep Hunit. unfold parseSize.
  assert (Hclean :
    removeFirst "cm"
      (removeSpaces (toLowerCase (g1 ++ s1 ++ String sep s2 ++ g2 ++ s3 ++ unit)))
    = (g1 ++ String (lowerChar sep) g2)%string).
  { rewrite !toLowerCase_app. cbn [toLowerCase]. rewrite ?toLowerCase_app.
    rewrite (toLowerCase_plain _ g1 lowerChar_digitOrDot H1).
    rewrite (toLowerCase_plain _ g2 lowerChar_digitOrDot H2).
    rewrite (toLowerCase_plain _ s1 lowerChar_space S1).
    rewrite (toLowerCase_plain _ s2 lowerChar_space S2).
    rewrite (toLowerCase_plain _ s3 lowerChar_space S3).
    assert (Hl : isSpace (lowerChar sep) = false
                 /\ (N_of_ascii (lowerChar sep) <? 128)%N = true).
    { unfold isSizeSep in Hsep.
      apply orb_true_iff in Hsep as [Hsep|E]; [apply orb_true_iff in Hsep as [E|E]|];
        apply Ascii.eqb_eq in E; subst; split; reflexivity. }
    destruct Hl as [Hl Ha].
    rewrite (removeSpaces_ascii_app g1) by (apply ascii_digits; exact H1).
    rewrite (removeSpaces_ascii_app s1) by (apply ascii_spaces; exact S1).
    rewrite (removeSpaces_ascii_app (String (lowerChar sep) s2))
      by (cbn [allChars]; rewrite Ha; apply ascii_spaces; exact S2).
    rewrite (removeSpaces_ascii_app g2) by (apply ascii_digits; exact H2).
    rewrite (removeSpaces_ascii_app s3) by (apply ascii_spaces; exact S3).
    cbn [keep].
    rewrite (keep_nonspace_digits g1 H1), (keep_nonspace_digits g2 H2).
    rewrite (keep_nonspace_spaces s1 S1), (keep_nonspace_spaces s2 S2),
      (keep_nonspace_spaces s3 S3).
    rewrite Hl. cbn [negb append].
    assert (Hu : removeFirst "cm" (removeSpaces (toLowerCase unit)) = EmptyString).
    { unfold isCmUnit in Hunit. apply orb_true_iff in Hunit as [E|E].
      - destruct unit; [reflexivity|discriminate E].
      - apply String.eqb_eq in E. rewrite E. reflexivity. }
    assert (Hnc : forall g, allChars isDigitOrDot g = true ->
                    allChars (fun c => negb (Ascii.eqb c "c")) g = true).
    { intro g. apply allChars_weaken. intros c Hc.
      destruct c as [[] [] [] [] [] [] [] []]; try discriminate Hc; reflexivity. }
    rewrite removeFirst_cm_skip by (apply Hnc; exact H1).
    f_equal.
    change (String (lowerChar sep) (g2 ++ removeSpaces (toLowerCase unit)))
      with (String (lowerChar sep) "" ++ (g2 ++ removeSpaces (toLowerCase unit)))%string.
    rewrite removeFirst_cm_skip.
    - rewrite removeFirst_cm_skip by (apply Hnc; exact H2).
      rewrite Hu, append_nil. reflexivity.
    - unfold isSizeSep in Hsep.
      apply orb_true_iff in Hsep as [Hsep|E]; [apply orb_true_iff in Hsep as [E|E]|];
        apply Ascii.eqb_eq in E; subst; reflexivity. }
  rewrite Hclean.
  rewrite matchSize_parts; try assumption; [reflexivity|].
  unfold isSizeSep in Hsep.
  apply orb_true_iff in Hsep as [Hsep|E]; [apply orb_true_iff in Hsep as [E|E]|];
    apply Ascii.eqb_eq in E; subst; reflexivity.
Qed.

Lemma parseSize_label_witness :
  parseSize "8.6 X 5.4 Cm" = Some (parseFloat "8.6", parseFloat "5.4").
Proof.
  apply (parseSize_label "8.6" "5.4" " " " " " " "Cm" "X"); reflexivity.
Defined.

(* ================================================================== *)
(** ** The grouping of the catalog *)

Lemma groupStep_key (category : string) (g : Groups) (item : PriceItem) :
  groupStep category (Some g) item =
  match groupKeyOf category item with
  | None => Some g
  | Some k => if includesStr PROTOTYPE_KEYS k then None
              else Some (addToGroup k item g)
  end.
Proof.
  unfold groupStep, groupKeyOf.
  destruct (String.eqb category "Magnet"); [|reflexivity].
  destruct (negb (String.eqb (kod item) "MGN")); reflexivity.
Qed.

Lemma groupOf_addToGroup (k k' : string) (x : PriceItem) (g : Groups) :
  groupOf k' (addToGroup k x g)
  = if String.eqb k k' then (groupOf k g ++ [x])%list else groupOf k' g.
Proof.
  unfold groupOf. induction g as [|[a its] rest IH].
  - simpl. destruct (String.eqb k k'); reflexivity.
  - simpl. destruct (String.eqb a k) eqn:Eak; simpl.
    + apply String.eqb_eq in Eak. subst a.
      destruct (String.eqb k k') eqn:Ekk; reflexivity.
    + destruct (String.eqb a k') eqn:Eak'.
      * destruct (String.eqb k k') eqn:Ekk; [|reflexivity].
        apply String.eqb_eq in Ekk, Eak'. subst. rewrite String.eqb_refl in Eak.
        discriminate.
      * exact IH.
Qed.

Lemma addToGroup_keys (k : string) (x : PriceItem) (g : Groups) :
  NoDup (map fst g) -> NoDup (map fst (addToGroup k x g)) /\
  (forall a, In a (map fst (addToGroup k x g)) <-> a = k \/ In a (map fst g)).
Proof.
  induction g as [|[a its] rest IH]; cbn [addToGroup map fst].
  - intros _. split; [repeat constructor; intros []|]. intro a. cbn. intuition.
  - intro Hnd. inversion Hnd as [|? ? Hni Hnd']; subst.
    destruct (String.eqb a k) eqn:E; cbn [map fst].
    + apply String.eqb_eq in E. subst a. split; [exact Hnd|].
      intro b. cbn. intuition.
    + destruct (IH Hnd') as [IH1 IH2]. split.
      * constructor; [|exact IH1]. rewrite IH2. intros [->|H]; [|contradiction].
        rewrite String.eqb_refl in E. discriminate.
      * intro b. cbn. rewrite IH2. intuition.
Qed.

Lemma addToGroup_nonempty (k : string) (x : PriceItem) (g : Groups) :
  (forall a its, In (a, its) g -> its <> []) ->
  forall a its, In (a, its) (addToGroup k x g) -> its <> [].
Proof.
  induction g as [|[b bs] rest IH]; cbn [addToGroup]; intros Hg a its Hin.
  - destruct Hin as [E|[]]. inversion E. discriminate.
  - destruct (String.eqb b k).
    + destruct Hin as [E|Hin].
      * inversion E; subst. intro H. apply app_eq_nil in H as [_ H]. discriminate.
      * eapply Hg. right. exact Hin.
    + destruct Hin as [E|Hin].
      * inversion E; subst. eapply Hg. left. reflexivity.
      * eapply IH; [|exact Hin]. intros a' its' H'. eapply Hg. right. exact H'.
Qed.

Lemma groupOf_In (k : string) (its : list PriceItem) (g : Groups) :
  NoDup (map fst g) -> In (k, its) g -> groupOf k g = its.
Proof.
  unfold groupOf. induction g as [|[a bs] rest IH]; [intros _ []|].
  cbn [map fst find snd]. intros Hnd Hin. inversion Hnd as [|? ? Hni Hnd']; subst.
  destruct Hin as [E|Hin].
  - inversion E; subst. rewrite String.eqb_refl. reflexivity.
  - destruct (String.eqb a k) eqn:E.
    + apply String.eqb_eq in E. subst a. exfalso. apply Hni.
      apply in_map_iff. exists (k, its). split; [reflexivity|exact Hin].
    + apply IH; assumption.
Qed.

Lemma groupOf_nonempty_In (k : string) (g : Groups) :
  groupOf k g <> [] -> In (k, groupOf k g) g.
Proof.
  unfold groupOf. destruct (find _ g) as [[a its]|] eqn:E; [|intro H; contradiction].
  intros _. apply find_some in E as [Hin Hk]. cbn in Hk. apply String.eqb_eq in Hk.
  subst a. exact Hin.
Qed.

Lemma groupStep_grouped (category : string) (l : list PriceItem) (g g' : Groups)
  (x : PriceItem) :
  groupedFrom category l g ->
  groupStep category (Some g) x = Some g' ->
  groupedFrom category (l ++ [x]) g'.
Proof.
  intros [Hnd [Hne Hgo]]. rewrite groupStep_key. unfold groupedFrom.
  destruct (groupKeyOf category x) as [k|] eqn:Ek.
  - destruct (includesStr PROTOTYPE_KEYS k); [discriminate|].
    intro H; inversion H; subst g'; clear H.
    split; [apply addToGroup_keys; exact Hnd|].
    split; [apply addToGroup_nonempty; exact Hne|].
    intro k'. rewrite groupOf_addToGroup, filter_app. cbn [filter].
    unfold hasKey at 2. rewrite Ek.
    destruct (String.eqb k k') eqn:E.
    + apply String.eqb_eq in E. subst k'. rewrite Hgo. reflexivity.
    + rewrite app_nil_r. apply Hgo.
  - intro H; inversion H; subst g'; clear H.
    split; [exact Hnd|]. split; [exact Hne|].
    intro k'. rewrite filter_app. cbn [filter]. unfold hasKey at 2. rewrite Ek.
    rewrite app_nil_r. apply Hgo.
Qed.

Lemma fold_groupStep_grouped (category : string) (l2 : list PriceItem) :
  forall l1 g g',
    groupedFrom category l1 g ->
    fold_left (groupStep category) l2 (Some g) = Some g' ->
    groupedFrom category (l1 ++ l2) g'.
Proof.
  induction l2 as [|x l2 IH]; intros l1 g g' Hg Hf.
  - cbn in Hf. inversion Hf; subst. rewrite app_nil_r. exact Hg.
  - cbn [fold_left] in Hf.
    destruct (groupStep category (Some g) x) as [g1|] eqn:E.
    + replace (l1 ++ x :: l2)%list with ((l1 ++ [x]) ++ l2)%list
        by (rewrite <- app_assoc; reflexivity).
      eapply IH; [|exact Hf]. eapply groupStep_grouped; eassumption.
    + assert (Hnone : forall l', fold_left (groupStep category) l' None = None).
      { induction l' as [|y l' IH']; [reflexivity|exact IH']. }
      rewrite Hnone in Hf. discriminate.
Qed.

Lemma groupItems_grouped (data : list PriceItem) (category : string) (g : Groups) :
  groupItems data category = Some g ->
  groupedFrom category (filter (fun i => String.eqb (kategori i) category) data) g.
Proof.
  unfold groupItems. intro H.
  apply (fold_groupStep_grouped category _ [] [] g); [|exact H].
  split; [constructor|]. split; [intros a its []|]. intro k. reflexivity.
Qed.

Lemma filter_filter_and {A : Type} (p q : A -> bool) (l : list A) :
  filter q (filter p l) = filter (fun x => p x && q x) l.
Proof.
  induction l as [|x l IH]; [reflexivity|]. cbn.
  destruct (p x); cbn; [destruct (q x)|]; rewrite IH; reflexivity.
Qed.

Lemma groupItems_groups (data : list PriceItem) (category : string)
  (g : Groups) :
  groupItems data category = Some g ->
  NoDup (map fst g) /\
  (forall k its, In (k, its) g <->
     its <> [] /\ its = itemsOfKey category k data).
Proof.
  intro H. destruct (groupItems_grouped data category g H) as [Hnd [Hne Hgo]].
  split; [exact Hnd|]. intros k its. unfold itemsOfKey.
  rewrite <- filter_filter_and, <- Hgo. split.
  - intro Hin. split; [eapply Hne; exact Hin|].
    symmetry. apply groupOf_In; assumption.
  - intros [Hn ->]. apply groupOf_nonempty_In. exact Hn.
Qed.

(** X11.  The grouping of the catalog: when it completes, the keys of the groups
    are distinct, the groups are exactly the non-empty lists of entries of
    the requested category filed under one key, each in catalog order, and
    every entry of the category that has a key sits in the group of that
    key. *)
Theorem groupItems_partition (data : list PriceItem) (category : string)
  (g : Groups) :
  groupItems data category = Some g ->
  NoDup (map fst g) /\
  (forall k its, In (k, its) g <->
     its <> [] /\ its = itemsOfKey category k data) /\
  (forall item k,
     In item data -> kategori item = category ->
     groupKeyOf category item = Some k ->
     exists its, In (k, its) g /\ In item its).
Proof.
  intro H. destruct (groupItems_groups data category g H) as [Hnd Hg].
  split; [exact Hnd|]. split; [exact Hg|].
  intros item k Hin Hcat Hkey.
  assert (Hi : In item (itemsOfKey category k data)).
  { unfold itemsOfKey. apply filter_In. split; [exact Hin|].
    apply andb_true_iff. split; [apply String.eqb_eq; exact Hcat|].
    unfold hasKey. rewrite Hkey. apply String.eqb_refl. }
  exists (itemsOfKey category k data). split; [|exact Hi].
  apply Hg. split; [|reflexivity].
  intro Hnil. rewrite Hnil in Hi. destruct Hi.
Qed.

Lemma groupItems_partition_witness :
  exists g,
    groupItems demoCatalog "Kartvizit" = Some g /\
    In ("350 gr. Mat", [demoCard1000; demoCard2000]) g.
Proof.
  destruct (groupItems demoCatalog "Kartvizit") as [g|] eqn:E;
    [|vm_compute in E; discriminate E].
  exists g. split; [reflexivity|].
  apply (groupItems_partition demoCatalog "Kartvizit" g E).
  split; [discriminate|reflexivity].
Defined.

(* ================================================================== *)
(** ** Results and the groups they come from *)

(** Where a result comes from, with its group identified in the catalog. *)
Lemma results_group (data : list PriceItem) (width height category quantity : string)
  (r : CalculationResult) :
  In r (results (handleCalculate data width height category quantity)) ->
  exists q res,
    parseInt quantity = Some q /\
    itemsOfKey category (paperName r) data <> [] /\
    bestCandidate (itemsOfKey category (paperName r) data)
      (parsedWidth width) (parsedWidth height) q = Some (res, matchItem r) /\
    processGroup category (parsedWidth width) (parsedWidth height) q
      (paperName r, itemsOfKey category (paperName r) data) = Some r.
Proof.
  intro Hr.
  destruct (results_origin _ _ _ _ _ _ Hr)
    as [q [groups [name [items [Eq [_ [_ [_ [Eg [Hin [_ Hp]]]]]]]]]]].
  destruct (processGroup_fields _ _ _ _ _ _ _ Hp)
    as [res [item [Hbest [Hname [Hitem _]]]]].
  apply (groupItems_groups data category groups Eg) in Hin as [Hne Hits].
  subst name item items. exists q, res. unfold parsedWidth.
  repeat split; assumption.
Qed.

Lemma itemsOfKey_In (category k : string) (data : list PriceItem) (i : PriceItem) :
  In i (itemsOfKey category k data) <->
  In i data /\ kategori i = category /\ groupKeyOf category i = Some k.
Proof.
  unfold itemsOfKey. rewrite filter_In, andb_true_iff, String.eqb_eq.
  unfold hasKey. destruct (groupKeyOf category i) as [k'|].
  - rewrite String.eqb_eq. split.
    + intros [H1 [H2 H3]]. subst. auto.
    + intros [H1 [H2 H3]]. inversion H3. auto.
  - split; [intros [_ [_ H]]; discriminate H|intros [_ [_ H]]; discriminate H].
Qed.

Lemma calculate_strategy (item : PriceItem) (w h : number) (q : Z) (res : Outcome.t) :
  calculatePriceForItem item w h q = Some res ->
  (String.eqb (kategori item) "Magnet" && String.eqb (kod item) "MGN" = true /\
   Outcome.strategy res = Formula /\ Outcome.needsCut res = true /\
   Outcome.baseDims res = None) \/
  (String.eqb (kategori item) "Magnet" && String.eqb (kod item) "MGN" = false /\
   Outcome.strategy res = Multiplier /\
   Outcome.baseDims res = baseMm item /\ baseMm item <> None).
Proof.
  destruct (String.eqb (kategori item) "Magnet" && String.eqb (kod item) "MGN") eqn:Em.
  - unfold calculatePriceForItem. rewrite Em. intro H; inversion H; subst.
    left. repeat split.
  - destruct (includesStr MULTIPLIER_CATEGORIES (kategori item)) eqn:Ec.
    + rewrite calculate_multiplier_path by (unfold usesMultiplier; rewrite Em, Ec; reflexivity).
      destruct (baseMm item) as [[bw bh]|]; [|discriminate].
      intro H; inversion H; subst. right. repeat split. discriminate.
    + unfold calculatePriceForItem. rewrite Em, Ec. discriminate.
Qed.

(** X12.  Shape of the results.  Every result is built on an entry of the catalog
    that belongs to the requested category and is filed under the result's
    paper name; [isExact] is the negation of [needsCut]; the strategy is
    never ['standard']: it is ['formula'] exactly for the magnet custom-size
    product (then always a cut, without base size and without size
    suggestion) and ['multiplier'] otherwise (then with the base size of the
    entry). *)
Theorem result_shape (data : list PriceItem)
  (width height category quantity : string) (r : CalculationResult) :
  In r (results (handleCalculate data width height category quantity)) ->
  In (matchItem r) data /\
  kategori (matchItem r) = category /\
  groupKeyOf category (matchItem r) = Some (paperName r) /\
  isExact r = negb (needsCut r) /\
  strategy r <> Standard /\
  (strategy r = Formula <->
   kategori (matchItem r) = "Magnet" /\ kod (matchItem r) = "MGN") /\
  (strategy r = Formula ->
   needsCut r = true /\ baseDims r = None /\ sizeSuggestion r = None) /\
  (strategy r = Multiplier ->
   baseDims r = baseMm (matchItem r) /\ baseDims r <> None).
Proof.
  intro Hr. destruct (results_group _ _ _ _ _ _ Hr) as [q [res [Eq [Hne [Hbest Hp]]]]].
  apply bestCandidate_origin in Hbest as [Hin Hcalc].
  apply itemsOfKey_In in Hin as [Hin [Hcat Hkey]].
  unfold processGroup in Hp.
  destruct (bestCandidate _ _ _ q) as [[res' item']|] eqn:Eb; [|discriminate].
  pose proof (bestCandidate_origin _ _ _ _ _ _ Eb) as [_ Hcalc'].
  inversion Hp as [Hr']. rewrite <- Hr' in *. cbn in *. clear Hp Hr'.
  rewrite Hcalc' in Hcalc. inversion Hcalc; subst res'. clear Hcalc.
  split; [exact Hin|]. split; [exact Hcat|]. split; [exact Hkey|].
  split; [reflexivity|].
  destruct (calculate_strategy _ _ _ _ _ Hcalc')
    as [[Em [Hs [Hc Hb]]]|[Em [Hs [Hb Hbn]]]]; rewrite Hs.
  - apply andb_true_iff in Em as [E1 E2].
    apply String.eqb_eq in E1, E2.
    split; [discriminate|]. split; [tauto|]. split; [|discriminate].
    intros _. split; [exact Hc|]. split; [exact Hb|].
    unfold sizeSuggestionFor. rewrite <- Hcat, E1. reflexivity.
  - split; [discriminate|]. split.
    + split; [discriminate|]. intros [E1 E2]. rewrite E1, E2 in Em. discriminate.
    + split; [discriminate|]. intros _. split; [exact Hb|]. rewrite Hb. exact Hbn.
Qed.

Lemma result_shape_witness :
  match results (handleCalculate demoCatalog "100" "150" "Magnet" "2000") with
  | r :: _ => strategy r <> Standard /\ isExact r = negb (needsCut r)
  | [] => False
  end.
Proof.
  destruct (results (handleCalculate demoCatalog "100" "150" "Magnet" "2000"))
    as [|r l] eqn:E; [vm_compute in E; discriminate E|].
  destruct (result_shape demoCatalog "100" "150" "Magnet" "2000" r)
    as [_ [_ [_ [H1 [H2 _]]]]].
  - rewrite E. left. reflexivity.
  - split; assumption.
Defined.

Lemma insertIndexed_perm (e : string * list PriceItem) (l : Groups) :
  Permutation (e :: l) (insertIndexed e l).
Proof.
  induction l as [|f l IH]; cbn [insertIndexed]; [apply Permutation_refl|].
  destruct (digitsVal 0 (fst e) <? digitsVal 0 (fst f)); [apply Permutation_refl|].
  eapply Permutation_trans; [apply perm_swap|]. apply perm_skip. exact IH.
Qed.

Lemma filter_partition_perm {A : Type} (p : A -> bool) (l : list A) :
  Permutation (filter p l ++ filter (fun x => negb (p x)) l) l.
Proof.
  induction l as [|x l IH]; [constructor|]. cbn.
  destruct (p x); cbn.
  - apply perm_skip. exact IH.
  - apply Permutation_sym. apply Permutation_cons_app. apply Permutation_sym. exact IH.
Qed.

Lemma objectEntries_perm (g : Groups) : Permutation (objectEntries g) g.
Proof.
  unfold objectEntries.
  eapply Permutation_trans; [|apply (filter_partition_perm (fun e => isArrayIndex (fst e)))].
  apply Permutation_app_tail.
  induction (filter (fun e => isArrayIndex (fst e)) g) as [|e l IH]; [constructor|].
  cbn [fold_right]. eapply Permutation_trans; [|apply perm_skip; exact IH].
  apply Permutation_sym. apply insertIndexed_perm.
Qed.

Lemma processGroup_name (category : string) (w h : number) (q : Z)
  (e : string * list PriceItem) (r : CalculationResult) :
  processGroup category w h q e = Some r -> paperName r = fst e.
Proof.
  destruct e as [name items]. intro H.
  destruct (processGroup_fields _ _ _ _ _ _ _ H) as [_ [_ [_ [Hn _]]]]. exact Hn.
Qed.

Lemma calculated_names_NoDup (category : string) (w h : number) (q : Z) (l : Groups) :
  NoDup (map fst l) ->
  NoDup (map paperName
           (flat_map (fun entry => match processGroup category w h q entry with
                                   | Some r => [r]
                                   | None => []
                                   end) l)) /\
  (forall n, In n (map paperName
           (flat_map (fun entry => match processGroup category w h q entry with
                                   | Some r => [r]
                                   | None => []
                                   end) l)) -> In n (map fst l)).
Proof.
  induction l as [|e l IH]; [intros _; split; [constructor|intros n []]|].
  cbn [map flat_map]. intro Hnd. inversion Hnd as [|? ? Hni Hnd']; subst.
  destruct (IH Hnd') as [IH1 IH2].
  destruct (processGroup category w h q e) as [r|] eqn:E; cbn [app map].
  - apply processGroup_name in E. split.
    + constructor; [|exact IH1]. rewrite E. intro Hin. apply Hni, IH2, Hin.
    + intros n [<-|Hin]; [left; symmetry; exact E|right; apply IH2, Hin].
  - split; [exact IH1|]. intros n Hin. right. apply IH2, Hin.
Qed.

Lemma results_names_NoDup (data : list PriceItem)
  (width height category quantity : string) :
  NoDup (map paperName
           (results (handleCalculate data width height category quantity))).
Proof.
  unfold handleCalculate.
  destruct (_ || _); [constructor|].
  destruct (parseInt quantity) as [q|]; [|constructor].
  destruct (groupItems data category) as [g|] eqn:Eg; [|constructor].
  destruct (List.length _ =? 0)%nat; [constructor|]. cbn [results].
  eapply Permutation_NoDup; [apply Permutation_map, sortResults_perm|].
  unfold calculatedResults. apply calculated_names_NoDup.
  eapply Permutation_NoDup; [apply Permutation_map, Permutation_sym, objectEntries_perm|].
  apply (groupItems_groups data category g Eg).
Qed.

Lemma NoDup_map_eq {A B : Type} (f : A -> B) (l : list A) (x y : A) :
  NoDup (map f l) -> In x l -> In y l -> f x = f y -> x = y.
Proof.
  induction l as [|a l IH]; [intros _ []|].
  cbn [map]. intro Hnd. inversion Hnd as [|? ? Hni Hnd']; subst.
  intros [->|Hx] [->|Hy] E.
  - reflexivity.
  - exfalso. apply Hni. rewrite E. apply in_map. exact Hy.
  - exfalso. apply Hni. rewrite <- E. apply in_map. exact Hx.
  - apply IH; assumption.
Qed.

(** X13.  One result per paper type: the paper names of the results are pairwise
    distinct, so a result is identified by its paper name. *)
Theorem result_names_distinct (data : list PriceItem)
  (width height category quantity : string) :
  let res := results (handleCalculate data width height category quantity) in
  NoDup (map paperName res) /\
  (forall r1 r2, In r1 res -> In r2 res -> paperName r1 = paperName r2 -> r1 = r2).
Proof.
  cbv zeta.
  pose proof (results_names_NoDup data width height category quantity) as Hnd.
  split; [exact Hnd|].
  intros r1 r2 H1 H2 E. exact (NoDup_map_eq paperName _ r1 r2 Hnd H1 H2 E).
Qed.

Lemma nlt_trans (a b c : number) :
  (a <? b)%js = true -> (b <? c)%js = true -> (a <? c)%js = true.
Proof.
  destruct a as [|s|p], b as [|t|q], c as [|u|r];
    try (repeat match goal with x : bool |- _ => destruct x end;
         cbn; intros; (discriminate || reflexivity)).
  rewrite !nlt_Fin. intros. lra.
Qed.

Lemma nlt_irrefl (a : number) : (a <? a)%js = false.
Proof.
  destruct a as [|s|p]; try reflexivity; [destruct s; reflexivity|].
  apply not_true_is_false. rewrite nlt_Fin. lra.
Qed.

Lemma bestCandidate_minimal (items : list PriceItem) (w h : number) (q : Z)
  (res : Outcome.t) (item : PriceItem) :
  bestCandidate items w h q = Some (res, item) ->
  forall i res', In i items -> calculatePriceForItem i w h q = Some res' ->
    (Outcome.price res' <? Outcome.price res)%js = false.
Proof.
  unfold bestCandidate.
  set (step := fun bestResult candidate => _).
  set (Inv := fun (seen : list PriceItem) (acc : option (Outcome.t * PriceItem)) =>
         match acc with
         | None => forall i, In i seen -> calculatePriceForItem i w h q = None
         | Some (b, _) =>
             forall i res', In i seen -> calculatePriceForItem i w h q = Some res' ->
               (Outcome.price res' <? Outcome.price b)%js = false
         end).
  assert (Hstep : forall seen acc x, Inv seen acc -> Inv (seen ++ [x])%list (step acc x)).
  { intros seen acc x Hacc. unfold Inv, step in *.
    destruct (calculatePriceForItem x w h q) as [rx|] eqn:Ex.
    - destruct acc as [[ab ai]|].
      + destruct (Outcome.price rx <? Outcome.price ab)%js eqn:Elt.
        * intros i res' Hi Hc. apply in_app_iff in Hi as [Hi|[->|[]]].
          -- apply not_true_is_false. intro Hlt.
             pose proof (nlt_trans _ _ _ Hlt Elt) as Ht.
             rewrite (Hacc i res' Hi Hc) in Ht. discriminate.
          -- rewrite Ex in Hc. inversion Hc; subst. apply nlt_irrefl.
        * intros i res' Hi Hc. apply in_app_iff in Hi as [Hi|[->|[]]].
          -- eapply Hacc; eassumption.
          -- rewrite Ex in Hc. inversion Hc; subst. exact Elt.
      + intros i res' Hi Hc. apply in_app_iff in Hi as [Hi|[->|[]]].
        * rewrite (Hacc i Hi) in Hc. discriminate.
        * rewrite Ex in Hc. inversion Hc; subst. apply nlt_irrefl.
    - destruct acc as [[ab ai]|].
      + intros i res' Hi Hc. apply in_app_iff in Hi as [Hi|[->|[]]].
        * eapply Hacc; eassumption.
        * rewrite Ex in Hc. discriminate.
      + intros i Hi. apply in_app_iff in Hi as [Hi|[->|[]]]; [apply Hacc; exact Hi|exact Ex]. }
  assert (H : forall l seen acc, Inv seen acc -> Inv (seen ++ l)%list (fold_left step l acc)).
  { induction l as [|x l IH]; intros seen acc Hacc.
    - rewrite app_nil_r. exact Hacc.
    - cbn [fold_left].
      replace (seen ++ x :: l)%list with ((seen ++ [x]) ++ l)%list
        by (rewrite <- app_assoc; reflexivity).
      apply IH, Hstep, Hacc. }
  intro Hb. pose proof (H items [] None (fun i (Hi : In i []) => match Hi with end)) as Hfin.
  rewrite Hb in Hfin. exact Hfin.
Qed.

(** X14.  The price of a result is the lowest of its paper type: no entry of the
    catalog in the requested category filed under the result's paper name
    evaluates, for the same request, to a strictly lower price; and the
    result's price is the evaluation of its matched entry. *)
Theorem result_price_lowest (data : list PriceItem)
  (width height category quantity : string) (r : CalculationResult) :
  In r (results (handleCalculate data width height category quantity)) ->
  exists q res,
    parseInt quantity = Some q /\
    calculatePriceForItem (matchItem r) (parsedWidth width) (parsedWidth height) q
    = Some res /\
    calculatedPrice r = Outcome.price res /\
    forall i res',
      In i data -> kategori i = category ->
      groupKeyOf category i = Some (paperName r) ->
      calculatePriceForItem i (parsedWidth width) (parsedWidth height) q = Some res' ->
      (Outcome.price res' <? calculatedPrice r)%js = false.
Proof.
  intro Hr. destruct (results_group _ _ _ _ _ _ Hr) as [q [res [Eq [Hne [Hbest Hp]]]]].
  exists q, res. split; [exact Eq|].
  pose proof (bestCandidate_origin _ _ _ _ _ _ Hbest) as [_ Hcalc].
  split; [exact Hcalc|].
  assert (Hprice : calculatedPrice r = Outcome.price res).
  { destruct (processGroup_fields _ _ _ _ _ _ _ Hp)
      as [res2 [item2 [Hb2 [_ [_ [_ [Hpr _]]]]]]].
    rewrite Hbest in Hb2. inversion Hb2; subst. exact Hpr. }
  split; [exact Hprice|].
  intros i res' Hi Hcat Hkey Hc. rewrite Hprice.
  eapply bestCandidate_minimal; [exact Hbest| |exact Hc].
  apply itemsOfKey_In. auto.
Qed.

Lemma result_price_lowest_witness :
  match results (handleCalculate demoCatalog "90" "54" "Kartvizit" "2000") with
  | r :: _ =>
      exists q res,
        parseInt "2000" = Some q /\
        calculatePriceForItem (matchItem r) (parsedWidth "90") (parsedWidth "54") q
        = Some res /\
        calculatedPrice r = Outcome.price res
  | [] => False
  end.
Proof.
  destruct (results (handleCalculate demoCatalog "90" "54" "Kartvizit" "2000"))
    as [|r l] eqn:E; [vm_compute in E; discriminate E|].
  destruct (result_price_lowest demoCatalog "90" "54" "Kartvizit" "2000" r)
    as [q [res [H1 [H2 [H3 _]]]]].
  - rewrite E. left. reflexivity.
  - exists q, res. repeat split; assumption.
Defined.

(* ================================================================== *)
(** ** Size-snap suggestions are standard fits *)













(* ================================================================== *)
(** ** The prices of quantity suggestions *)

Lemma nlt_MAX_trans (a b : number) :
  (a <? b)%js = true -> b = MAX_VALUE \/ (b <? MAX_VALUE)%js = true ->
  (a <? MAX_VALUE)%js = true.
Proof.
  intros H [->|Hb]; [exact H|]. eapply nlt_trans; eassumption.
Qed.

Lemma findBestPriceForQty_origin (items : list PriceItem) (w h : number)
  (targetQ : Z) (p : number) :
  findBestPriceForQty items w h targetQ = Some p ->
  exists cand res,
    In cand items /\
    calculatePriceForItem cand w h targetQ = Some res /\
    Outcome.price res = p /\
    (p <? MAX_VALUE)%js = true /\
    (miktarIs targetQ cand = true \/
     (forall i, In i items -> miktarIs targetQ i = false) /\
     (miktarIs 1000 cand = true \/
      (forall i, In i items -> miktarIs 1000 i = false) /\
      hd_error items = Some cand)) /\
    (forall i res', In i items -> miktarIs targetQ i = true ->
       calculatePriceForItem i w h targetQ = Some res' ->
       (Outcome.price res' <? p)%js = false).
Proof.
  unfold findBestPriceForQty.
  set (qItems := filter (miktarIs targetQ) items).
  set (q1000 := filter (miktarIs 1000) items).
  set (cands := match (if (0 <? List.length qItems)%nat then qItems else q1000), items with
                | [], first :: _ => [first]
                | _, _ => if (0 <? List.length qItems)%nat then qItems else q1000
                end).
  match goal with |- context [fold_left ?f cands _] => set (step := f) end.
  (* the candidates: where they come from *)
  assert (Hc : forall c, In c cands ->
            In c items /\
            (miktarIs targetQ c = true \/
             (forall i, In i items -> miktarIs targetQ i = false) /\
             (miktarIs 1000 c = true \/
              (forall i, In i items -> miktarIs 1000 i = false) /\
              hd_error items = Some c))).
  { intros c Hin. subst cands.
    assert (Hempty : forall (f : PriceItem -> bool), filter f items = [] ->
               forall i, In i items -> f i = false).
    { intros f Hf i Hi. destruct (f i) eqn:E; [|reflexivity].
      assert (Hin' : In i (filter f items)) by (apply filter_In; auto).
      rewrite Hf in Hin'. destruct Hin'. }
    destruct qItems as [|a qi] eqn:Eq.
    - cbn [List.length Nat.ltb Nat.leb] in Hin.
      pose proof (Hempty _ Eq) as Hno.
      destruct q1000 as [|b q1] eqn:E1.
      + pose proof (Hempty _ E1) as Hno1.
        destruct items as [|first rest]; [destruct Hin|].
        destruct Hin as [<-|[]]. split; [left; reflexivity|].
        right. split; [exact Hno|]. right. split; [exact Hno1|reflexivity].
      + assert (Hin' : In c q1000) by (rewrite E1; exact Hin).
        apply filter_In in Hin' as [Hi Hm]. split; [exact Hi|].
        right. split; [exact Hno|]. left. exact Hm.
    - cbn [List.length Nat.ltb Nat.leb] in Hin.
      assert (Hin' : In c qItems) by (rewrite Eq; exact Hin).
      apply filter_In in Hin' as [Hi Hm]. split; [exact Hi|]. left. exact Hm. }
  assert (Hq : forall i, In i items -> miktarIs targetQ i = true -> In i cands).
  { intros i Hi Hm. subst cands.
    assert (Hin : In i qItems) by (apply filter_In; auto).
    destruct qItems as [|a qi]; [destruct Hin|exact Hin]. }
  (* the loop *)
  set (Inv := fun (seen : list PriceItem) (acc : number * bool) =>
         (fst acc = MAX_VALUE \/ (fst acc <? MAX_VALUE)%js = true) /\
         (snd acc = true ->
            (fst acc <? MAX_VALUE)%js = true /\
            exists cand res, In cand seen /\
              calculatePriceForItem cand w h targetQ = Some res /\
              Outcome.price res = fst acc) /\
         (forall i res', In i seen ->
            calculatePriceForItem i w h targetQ = Some res' ->
            (Outcome.price res' <? fst acc)%js = false)).
  assert (Hstep : forall seen acc x, Inv seen acc -> Inv (seen ++ [x])%list (step acc x)).
  { intros seen [bestP found] x [Hb [Hf Hmin]]. unfold Inv, step in *.
    cbn [fst snd] in *.
    destruct (calculatePriceForItem x w h targetQ) as [r|] eqn:Ex.
    - destruct (Outcome.price r <? bestP)%js eqn:Elt; cbn [fst snd].
      + pose proof (nlt_MAX_trans _ _ Elt Hb) as Hlt.
        split; [right; exact Hlt|]. split.
        * intros _. split; [exact Hlt|]. exists x, r.
          split; [apply in_app_iff; right; left; reflexivity|]. split; [exact Ex|reflexivity].
        * intros i res' Hi Hcalc. apply in_app_iff in Hi as [Hi|[->|[]]].
          -- apply not_true_is_false. intro H1.
             pose proof (nlt_trans _ _ _ H1 Elt) as Ht.
             rewrite (Hmin i res' Hi Hcalc) in Ht. discriminate.
          -- rewrite Ex in Hcalc. inversion Hcalc; subst. apply nlt_irrefl.
      + split; [exact Hb|]. split.
        * intro Hfound. destruct (Hf Hfound) as [Hlt [c [rc [Hc1 Hc2]]]].
          split; [exact Hlt|]. exists c, rc. split; [apply in_app_iff; left; exact Hc1|exact Hc2].
        * intros i res' Hi Hcalc. apply in_app_iff in Hi as [Hi|[->|[]]].
          -- eapply Hmin; eassumption.
          -- rewrite Ex in Hcalc. inversion Hcalc; subst. exact Elt.
    - split; [exact Hb|]. split.
      + intro Hfound. destruct (Hf Hfound) as [Hlt [c [rc [Hc1 Hc2]]]].
        split; [exact Hlt|]. exists c, rc. split; [apply in_app_iff; left; exact Hc1|exact Hc2].
      + intros i res' Hi Hcalc. apply in_app_iff in Hi as [Hi|[->|[]]].
        * eapply Hmin; eassumption.
        * rewrite Ex in Hcalc. discriminate. }
  assert (H : forall l seen acc, Inv seen acc -> Inv (seen ++ l)%list (fold_left step l acc)).
  { induction l as [|x l IH]; intros seen acc Hacc.
    - rewrite app_nil_r. exact Hacc.
    - cbn [fold_left].
      replace (seen ++ x :: l)%list with ((seen ++ [x]) ++ l)%list
        by (rewrite <- app_assoc; reflexivity).
      apply IH, Hstep, Hacc. }
  assert (H0 : Inv [] (MAX_VALUE, false)).
  { unfold Inv. cbn [fst snd]. split; [left; reflexivity|].
    split; [discriminate|]. intros i res' []. }
  specialize (H cands [] _ H0). cbn [app] in H.
  destruct (fold_left step cands (MAX_VALUE, false)) as [bestP found].
  destruct H as [_ [Hf Hmin]]. cbn [fst snd] in *.
  destruct found; [|discriminate]. intro E; inversion E; subst p; clear E.
  destruct (Hf eq_refl) as [Hlt [c [rc [Hc1 [Hc2 Hc3]]]]].
  exists c, rc. destruct (Hc c Hc1) as [Hi Hcls].
  repeat split; try assumption.
  intros i res' Hi' Hm Hcalc. eapply Hmin; [apply Hq; eassumption|exact Hcalc].
Qed.

Lemma prevQtyFor_tier (items : list PriceItem) (w h : number) (q : Z)
  (s : QtySuggestion) :
  prevQtyFor items w h q = Some s ->
  findBestPriceForQty items w h (qty s) = Some (qtyPrice s) /\
  In q QUANTITY_OPTIONS /\ In (qty s) QUANTITY_OPTIONS /\ qty s < q /\
  (forall t, In t QUANTITY_OPTIONS -> t <= qty s \/ q <= t).
Proof.
  intro H. destruct (in_dec Z.eq_dec q QUANTITY_OPTIONS) as [Hin|Hout];
    [|rewrite prevQtyFor_unknown in H by exact Hout; discriminate].
  split; [|split; [exact Hin|]].
  - unfold prevQtyFor in H.
    destruct (0 <? indexOf QUANTITY_OPTIONS q); [|discriminate].
    destruct (nth_error QUANTITY_OPTIONS _) as [pQty|]; [|discriminate].
    destruct (findBestPriceForQty items w h pQty) as [pp|] eqn:E; [|discriminate].
    inversion H; subst s. exact E.
  - unfold QUANTITY_OPTIONS in Hin. cbn [In] in Hin.
    repeat (destruct Hin as [<-|Hin]); try destruct Hin;
      cbv -[findBestPriceForQty] in H;
      try discriminate H;
      (match type of H with
       | match findBestPriceForQty ?i ?a ?b ?c with _ => _ end = _ =>
           destruct (findBestPriceForQty i a b c); [|discriminate H]
       end);
      inversion H; subst s; cbn [qty];
      (split; [unfold QUANTITY_OPTIONS; cbn [In]; tauto|]);
      (split; [lia|]);
      intros t Ht; unfold QUANTITY_OPTIONS in Ht; cbn [In] in Ht;
      repeat (destruct Ht as [<-|Ht]); try destruct Ht; lia.
Qed.

Lemma nextQtyFor_tier (items : list PriceItem) (w h : number) (q : Z)
  (s : QtySuggestion) :
  nextQtyFor items w h q = Some s ->
  findBestPriceForQty items w h (qty s) = Some (qtyPrice s) /\
  In (qty s) QUANTITY_OPTIONS /\
  (~ In q QUANTITY_OPTIONS -> qty s = 1000) /\
  (In q QUANTITY_OPTIONS ->
   q < qty s /\
   forall t, In t QUANTITY_OPTIONS ->
     t <= q \/ qty s <= t \/ (q = 2000 /\ t = 3000)).
Proof.
  intro H. split.
  { unfold nextQtyFor in H.
    destruct (_ <? _); [|discriminate].
    destruct (nth_error QUANTITY_OPTIONS _) as [n0|]; [|discriminate].
    destruct (findBestPriceForQty items w h _) as [pp|] eqn:E; [|discriminate].
    inversion H; subst s. exact E. }
  destruct (in_dec Z.eq_dec q QUANTITY_OPTIONS) as [Hin|Hout].
  - assert (G : In (qty s) QUANTITY_OPTIONS /\ q < qty s /\
                forall t, In t QUANTITY_OPTIONS ->
                  t <= q \/ qty s <= t \/ (q = 2000 /\ t = 3000)).
    { clear - H Hin. unfold QUANTITY_OPTIONS in Hin. cbn [In] in Hin.
      repeat (destruct Hin as [<-|Hin]); try destruct Hin;
        cbv -[findBestPriceForQty] in H;
        try discriminate H;
        (match type of H with
         | match findBestPriceForQty ?i ?a ?b ?c with _ => _ end = _ =>
             destruct (findBestPriceForQty i a b c); [|discriminate H]
         end);
        inversion H; subst s; cbn [qty];
        (split; [unfold QUANTITY_OPTIONS; cbn [In]; tauto|]);
        (split; [lia|]);
        intros t Ht; unfold QUANTITY_OPTIONS in Ht; cbn [In] in Ht;
        repeat (destruct Ht as [<-|Ht]); try destruct Ht; lia. }
    destruct G as [G1 G2]. split; [exact G1|]. split; [contradiction|]. intros _. exact G2.
  - pose proof (nextQtyFor_unknown items w h q s Hout H) as E.
    split; [rewrite E; left; reflexivity|]. split; [intros _; exact E|contradiction].
Qed.

(** X16.  The quantity suggestions of a result bracket the request within the
    quantity tiers.  A previous tier is proposed only for a request that is
    itself a tier, and is the tier just below it.  A next tier is always a
    tier; for a request that is a tier it is the one just above (with 3000
    skipped after 2000), and for any other request it is 1000. *)
Theorem quantity_suggestions_bracket (data : list PriceItem)
  (width height category quantity : string) (r : CalculationResult) (q : Z) :
  In r (results (handleCalculate data width height category quantity)) ->
  parseInt quantity = Some q ->
  (forall s, prevQty r = Some s ->
     In q QUANTITY_OPTIONS /\ In (qty s) QUANTITY_OPTIONS /\ qty s < q /\
     forall t, In t QUANTITY_OPTIONS -> t <= qty s \/ q <= t) /\
  (forall s, nextQty r = Some s ->
     In (qty s) QUANTITY_OPTIONS /\
     (~ In q QUANTITY_OPTIONS -> qty s = 1000) /\
     (In q QUANTITY_OPTIONS ->
      q < qty s /\
      forall t, In t QUANTITY_OPTIONS ->
        t <= q \/ qty s <= t \/ (q = 2000 /\ t = 3000))).
Proof.
  intros Hr Eq.
  destruct (results_group _ _ _ _ _ _ Hr) as [q' [res [Eq' [_ [_ Hp]]]]].
  rewrite Eq in Eq'. inversion Eq'; subst q'; clear Eq'.
  destruct (processGroup_fields _ _ _ _ _ _ _ Hp)
    as [res2 [item2 [_ [_ [_ [_ [_ [_ [_ [Hprev [Hnext _]]]]]]]]]]].
  split; intros s Hs.
  - rewrite Hprev in Hs. apply prevQtyFor_tier in Hs. tauto.
  - rewrite Hnext in Hs. apply nextQtyFor_tier in Hs. tauto.
Qed.

Lemma quantity_suggestions_bracket_witness :
  match results (handleCalculate demoCatalog "90" "54" "Kartvizit" "2000") with
  | r :: _ =>
      match prevQty r with
      | Some s => qty s < 2000
      | None => False
      end
  | [] => False
  end.
Proof.
  destruct (results (handleCalculate demoCatalog "90" "54" "Kartvizit" "2000"))
    as [|r l] eqn:E; [vm_compute in E; discriminate E|].
  destruct (prevQty r) as [s|] eqn:Es.
  - apply (quantity_suggestions_bracket demoCatalog "90" "54" "Kartvizit" "2000" r 2000).
    + rewrite E. left. reflexivity.
    + reflexivity.
    + exact Es.
  - vm_compute in E. inversion E; subst r. discriminate Es.
Defined.

(** X17.  The price shown for a quantity suggestion is the price, at the suggested
    quantity and the requested size, of an entry of the result's paper type.
    That entry is one listed for the suggested quantity when the paper type
    has such entries (and then no such entry is cheaper), else one listed for
    1000, else the first entry of the paper type.  The price lies below
    [Number.MAX_VALUE]. *)
Theorem quantity_suggestion_price (data : list PriceItem)
  (width height category quantity : string) (r : CalculationResult)
  (s : QtySuggestion) :
  In r (results (handleCalculate data width height category quantity)) ->
  prevQty r = Some s \/ nextQty r = Some s ->
  exists cand res,
    In cand data /\ kategori cand = category /\
    groupKeyOf category cand = Some (paperName r) /\
    calculatePriceForItem cand (parsedWidth width) (parsedWidth height) (qty s)
    = Some res /\
    Outcome.price res = qtyPrice s /\
    (qtyPrice s <? MAX_VALUE)%js = true /\
    (miktarIs (qty s) cand = true \/
     (forall i, In i (itemsOfKey category (paperName r) data) ->
        miktarIs (qty s) i = false) /\
     (miktarIs 1000 cand = true \/
      (forall i, In i (itemsOfKey category (paperName r) data) ->
         miktarIs 1000 i = false) /\
      hd_error (itemsOfKey category (paperName r) data) = Some cand)) /\
    (forall i res',
       In i data -> kategori i = category ->
       groupKeyOf category i = Some (paperName r) ->
       miktarIs (qty s) i = true ->
       calculatePriceForItem i (parsedWidth width) (parsedWidth height) (qty s)
       = Some res' ->
       (Outcome.price res' <? qtyPrice s)%js = false).
Proof.
  intros Hr Hs.
  destruct (results_group _ _ _ _ _ _ Hr) as [q [res [Eq [_ [_ Hp]]]]].
  destruct (processGroup_fields _ _ _ _ _ _ _ Hp)
    as [res2 [item2 [_ [_ [_ [_ [_ [_ [_ [Hprev [Hnext _]]]]]]]]]]].
  assert (Hf : findBestPriceForQty (itemsOfKey category (paperName r) data)
                 (parsedWidth width) (parsedWidth height) (qty s) = Some (qtyPrice s)).
  { destruct Hs as [Hs|Hs].
    - rewrite Hprev in Hs. apply prevQtyFor_tier in Hs. tauto.
    - rewrite Hnext in Hs. apply nextQtyFor_tier in Hs. tauto. }
  destruct (findBestPriceForQty_origin _ _ _ _ _ Hf)
    as [cand [rc [Hin [Hcalc [Hpr [Hlt [Hcls Hmin]]]]]]].
  exists cand, rc. apply itemsOfKey_In in Hin as [Hin [Hcat Hkey]].
  repeat split; try assumption.
  intros i res' Hi Hc Hk Hm Hcalc'. eapply Hmin; [|exact Hm|exact Hcalc'].
  apply itemsOfKey_In. auto.
Qed.

Lemma quantity_suggestion_price_witness :
  match results (handleCalculate demoCatalog "90" "54" "Kartvizit" "2000") with
  | r :: _ =>
      match nextQty r with
      | Some s => (qtyPrice s <? MAX_VALUE)%js = true
      | None => False
      end
  | [] => False
  end.
Proof.
  destruct (results (handleCalculate demoCatalog "90" "54" "Kartvizit" "2000"))
    as [|r l] eqn:E; [vm_compute in E; discriminate E|].
  destruct (nextQty r) as [s|] eqn:Es.
  - destruct (quantity_suggestion_price demoCatalog "90" "54" "Kartvizit" "2000" r s)
      as [cand [res [_ [_ [_ [_ [_ [H _]]]]]]]].
    + rewrite E. left. reflexivity.
    + right. exact Es.
    + exact H.
  - vm_compute in E. inversion E; subst r. discriminate Es.
Defined.

(* ================================================================== *)
(** ** How the handler ends *)

Lemma fold_groupStep_None (category : string) (l : list PriceItem) :
  fold_left (groupStep category) l None = None.
Proof. induction l as [|x l IH]; [reflexivity|exact IH]. Qed.

Lemma fold_groupStep_none_iff (category : string) (l : list PriceItem) :
  forall g,
    fold_left (groupStep category) l (Some g) = None <->
    exists item k, In item l /\ groupKeyOf category item = Some k /\
                   includesStr PROTOTYPE_KEYS k = true.
Proof.
  induction l as [|x l IH]; intro g.
  - cbn. split; [discriminate|]. intros [i [k [[] _]]].
  - cbn [fold_left]. rewrite groupStep_key.
    destruct (groupKeyOf category x) as [k|] eqn:Ek.
    + destruct (includesStr PROTOTYPE_KEYS k) eqn:Ep.
      * rewrite fold_groupStep_None. split; [|reflexivity].
        intros _. exists x, k. split; [left; reflexivity|]. auto.
      * rewrite IH. split.
        -- intros [i [k' [Hi H]]]. exists i, k'. split; [right; exact Hi|exact H].
        -- intros [i [k' [[<-|Hi] [H1 H2]]]].
           ++ rewrite Ek in H1. inversion H1; subst k'. rewrite Ep in H2. discriminate.
           ++ exists i, k'. auto.
    + rewrite IH. split.
      * intros [i [k' [Hi H]]]. exists i, k'. split; [right; exact Hi|exact H].
      * intros [i [k' [[<-|Hi] [H1 H2]]]].
        -- rewrite Ek in H1. discriminate.
        -- exists i, k'. auto.
Qed.

Lemma groupItems_none_iff (data : list PriceItem) (category : string) :
  groupItems data category = None <->
  exists item k, In item data /\ kategori item = category /\
                 groupKeyOf category item = Some k /\
                 includesStr PROTOTYPE_KEYS k = true.
Proof.
  unfold groupItems. rewrite fold_groupStep_none_iff. split.
  - intros [i [k [Hi H]]]. apply filter_In in Hi as [Hi Hc].
    apply String.eqb_eq in Hc. exists i, k. tauto.
  - intros [i [k [Hi [Hc H]]]]. exists i, k. split; [|exact H].
    apply filter_In. split; [exact Hi|]. apply String.eqb_eq. exact Hc.
Qed.

Lemma bestCandidate_none_iff (items : list PriceItem) (w h : number) (q : Z) :
  bestCandidate items w h q = None <->
  forall i, In i items -> calculatePriceForItem i w h q = None.
Proof.
  unfold bestCandidate.
  match goal with |- context [fold_left ?f items None] => set (step := f) end.
  assert (Hsome : forall l a, fold_left step l (Some a) <> None).
  { induction l as [|x l IH]; intro a; [discriminate|]. cbn [fold_left].
    unfold step at 2. destruct (calculatePriceForItem x w h q) as [r|]; [|apply IH].
    destruct a as [bres bi]. destruct (_ <? _)%js; apply IH. }
  induction items as [|x l IH].
  - cbn. split; [intros _ i []|reflexivity].
  - cbn [fold_left]. unfold step at 2.
    destruct (calculatePriceForItem x w h q) as [r|] eqn:Ex.
    + split.
      * intro H. exfalso. exact (Hsome _ _ H).
      * intro H. rewrite (H x (or_introl eq_refl)) in Ex. discriminate.
    + rewrite IH. split.
      * intros H i [<-|Hi]; [exact Ex|exact (H i Hi)].
      * intros H i Hi. apply H. right. exact Hi.
Qed.

Lemma calculatedResults_nil_iff (g : Groups) (category : string) (w h : number)
  (q : Z) :
  calculatedResults g category w h q = [] <->
  forall k its i, In (k, its) g -> In i its -> calculatePriceForItem i w h q = None.
Proof.
  unfold calculatedResults. split.
  - intros H k its i Hin Hi.
    assert (Hb : bestCandidate its w h q = None).
    { destruct (bestCandidate its w h q) as [[res it]|] eqn:Eb; [|reflexivity].
      exfalso.
      assert (Hin' : In {| paperName := k; strategy := Outcome.strategy res;
                           matchItem := it; calculatedPrice := Outcome.price res;
                           isExact := negb (Outcome.needsCut res);
                           needsCut := Outcome.needsCut res;
                           details := Outcome.details res;
                           baseDims := Outcome.baseDims res;
                           prevQty := prevQtyFor its w h q;
                           nextQty := nextQtyFor its w h q;
                           sizeSuggestion :=
                             sizeSuggestionFor category its w h q
                               (Outcome.price res) (Outcome.needsCut res) |}
                       (flat_map
                          (fun entry =>
                             match processGroup category w h q entry with
                             | Some r => [r]
                             | None => []
                             end) (objectEntries g))).
      { apply in_flat_map. exists (k, its). split; [apply In_objectEntries; exact Hin|].
        unfold processGroup. rewrite Eb. left. reflexivity. }
      rewrite H in Hin'. destruct Hin'. }
    exact (proj1 (bestCandidate_none_iff its w h q) Hb i Hi).
  - intro H. destruct (flat_map _ _) as [|r l] eqn:E; [reflexivity|]. exfalso.
    assert (Hin : In r (flat_map
                          (fun entry =>
                             match processGroup category w h q entry with
                             | Some r => [r]
                             | None => []
                             end) (objectEntries g)))
      by (rewrite E; left; reflexivity).
    apply in_flat_map in Hin as [[k its] [Hin Hr]].
    rewrite In_objectEntries in Hin.
    assert (Hb : bestCandidate its w h q = None)
      by (apply bestCandidate_none_iff; intros i Hi; exact (H k its i Hin Hi)).
    unfold processGroup in Hr. rewrite Hb in Hr. destruct Hr.
Qed.

Lemma sortResults_nil (l : list CalculationResult) :
  sortResults l = [] -> l = [].
Proof.
  intro H. destruct l as [|x l]; [reflexivity|]. exfalso.
  assert (Hin : In x (sortResults (x :: l))) by (apply In_sortResults; left; reflexivity).
  rewrite H in Hin. destruct Hin.
Qed.

(** X18.  The "no results" error is reported exactly for a valid request whose
    grouping succeeds and for which no filed entry of the category can be
    priced; and whenever any error is reported, no results are shown. *)
Theorem no_results_iff (data : list PriceItem)
  (width height category quantity : string) :
  let st := handleCalculate data width height category quantity in
  (error st = Some MSG_NO_RESULTS <->
   truthy (parsedWidth width) = true /\ truthy (parsedWidth height) = true /\
   exists q,
     parseInt quantity = Some q /\ q <> 0 /\
     groupItems data category <> None /\
     forall item,
       In item data -> kategori item = category ->
       groupKeyOf category item <> None ->
       calculatePriceForItem item (parsedWidth width) (parsedWidth height) q = None) /\
  (error st <> None -> results st = []).
Proof.
  cbv zeta. unfold handleCalculate, parsedWidth.
  destruct (truthy (parseFloat (replaceFirst "," "." width))) eqn:Ew;
    [|cbn; split; [split; [discriminate|intros [H _]; discriminate H]|reflexivity]].
  destruct (truthy (parseFloat (replaceFirst "," "." height))) eqn:Eh;
    [|cbn; split; [split; [discriminate|intros [_ [H _]]; discriminate H]|reflexivity]].
  destruct (parseInt quantity) as [q|] eqn:Eq;
    [|cbn; split; [split; [discriminate|intros [_ [_ [q [H _]]]]; discriminate H]
                  |reflexivity]].
  cbn [truthyInt negb orb].
  destruct (Z.eqb_spec q 0) as [E0|N0]; cbn [negb].
  { cbn. split; [|reflexivity]. split; [discriminate|].
    intros [_ [_ [q' [H [Hn _]]]]]. inversion H; subst q'. contradiction. }
  destruct (groupItems data category) as [g|] eqn:Eg.
  - destruct (List.length _ =? 0)%nat eqn:El; cbn [error results].
    + split; [|reflexivity]. split; [|reflexivity]. intros _.
      split; [reflexivity|]. split; [reflexivity|]. exists q.
      split; [reflexivity|]. split; [exact N0|]. split; [discriminate|].
      apply Nat.eqb_eq, length_zero_iff_nil in El.
      intros item Hin Hcat Hkey.
      destruct (groupKeyOf category item) as [k|] eqn:Ek; [|contradiction].
      eapply (proj1 (calculatedResults_nil_iff g category _ _ q) El
                k (itemsOfKey category k data)).
      * apply (groupItems_groups data category g Eg). split; [|reflexivity].
        intro Hnil.
        assert (Hi : In item (itemsOfKey category k data))
          by (apply itemsOfKey_In; auto).
        rewrite Hnil in Hi. destruct Hi.
      * apply itemsOfKey_In. auto.
    + split; [|intro H; contradiction]. split; [discriminate|].
      intros [_ [_ [q' [H [_ [_ Hall]]]]]]. inversion H; subst q'. exfalso.
      apply Nat.eqb_neq in El. apply El. apply length_zero_iff_nil.
      apply calculatedResults_nil_iff. intros k its i Hk Hi.
      apply (groupItems_groups data category g Eg) in Hk as [_ Hits]. subst its.
      apply itemsOfKey_In in Hi as [Hi [Hc Hkey]].
      apply Hall; [exact Hi|exact Hc|rewrite Hkey; discriminate].
  - cbn [error results]. split; [|reflexivity]. split; [discriminate|].
    intros [_ [_ [q' [_ [_ [H _]]]]]]. contradiction.
Qed.

(** X19.  The handler ends with neither results nor an error exactly when the
    request is valid and the grouping throws: some entry of the category is
    filed under a key that names a property of [Object.prototype]. *)
Theorem silent_failure_iff (data : list PriceItem)
  (width height category quantity : string) :
  let st := handleCalculate data width height category quantity in
  (results st = [] /\ error st = None) <->
  (truthy (parsedWidth width) = true /\ truthy (parsedWidth height) = true /\
   truthyInt (parseInt quantity) = true /\
   exists item k,
     In item data /\ kategori item = category /\
     groupKeyOf category item = Some k /\
     includesStr PROTOTYPE_KEYS k = true).
Proof.
  cbv zeta. rewrite <- groupItems_none_iff. unfold handleCalculate, parsedWidth.
  destruct (truthy (parseFloat (replaceFirst "," "." width))) eqn:Ew;
    [|cbn; split; [intros [_ H]; discriminate H|intros [H _]; discriminate H]].
  destruct (truthy (parseFloat (replaceFirst "," "." height))) eqn:Eh;
    [|cbn; split; [intros [_ H]; discriminate H|intros [_ [H _]]; discriminate H]].
  destruct (truthyInt (parseInt quantity)) eqn:Eq;
    [|cbn; split; [intros [_ H]; discriminate H|intros [_ [_ [H _]]]; discriminate H]].
  cbn [negb orb].
  destruct (parseInt quantity) as [q|]; [|discriminate Eq].
  destruct (groupItems data category) as [g|] eqn:Eg.
  - destruct (List.length _ =? 0)%nat eqn:El; cbn [error results].
    + split; [intros [_ H]; discriminate H|intros [_ [_ [_ H]]]; discriminate H].
    + split; [|intros [_ [_ [_ H]]]; discriminate H].
      intros [H _]. apply sortResults_nil in H. rewrite H in El. discriminate El.
  - cbn [error results]. tauto.
Qed.

Lemma no_results_iff_witness :
  error (handleCalculate demoCatalog "90" "54" "Afiş" "1000") = Some MSG_NO_RESULTS.
Proof.
  apply (no_results_iff demoCatalog "90" "54" "Afiş" "1000").
  split; [reflexivity|]. split; [reflexivity|].
  exists 1000. split; [reflexivity|]. split; [discriminate|].
  split; [vm_compute; discriminate|].
  intros item Hin Hcat. exfalso. revert Hcat. vm_compute in Hin.
  repeat (destruct Hin as [<-|Hin]; [vm_compute; discriminate|]). destruct Hin.
Defined.

Lemma silent_failure_iff_witness :
  results (handleCalculate [demoProto] "90" "54" "Kartvizit" "1000") = [] /\
  error (handleCalculate [demoProto] "90" "54" "Kartvizit" "1000") = None.
Proof.
  apply (silent_failure_iff [demoProto] "90" "54" "Kartvizit" "1000").
  split; [reflexivity|]. split; [reflexivity|]. split; [reflexivity|].
  exists demoProto, "constructor". split; [left; reflexivity|].
  split; [reflexivity|]. split; reflexivity.
Defined.

(* ------------------------------------------------------------------ *)
(** *** A quantity outside the tiers *)

Lemma nextQtyFor_unknown_eq (items : list PriceItem) (w h : number) (q : Z) :
  ~ In q QUANTITY_OPTIONS ->
  nextQtyFor items w h q =
  match findBestPriceForQty items w h 1000 with
  | Some p => Some {| qty := 1000; qtyPrice := p |}
  | None => None
  end.
Proof.
  intro H. unfold nextQtyFor, indexOf. rewrite indexOfFrom_notin by exact H.
  change (-1 <? Z.of_nat (List.length QUANTITY_OPTIONS) - 1) with true.
  change (nth_error QUANTITY_OPTIONS (Z.to_nat (-1 + 1))) with (Some 1000).
  cbn [Z.eqb Pos.eqb andb]. rewrite andb_false_r. reflexivity.
Qed.

(** A number that is truthy once rounded is truthy. *)
Lemma truthy_rnd (a : number) : truthy (rnd a) = true -> truthy a = true.
Proof.
  destruct a as [|s|p]; cbn [rnd truthy]; try (intro H; exact H).
  intro H. destruct (Qeq_bool p 0) eqn:E; [|reflexivity].
  apply Qeq_bool_iff in E. rewrite (roundQ_zero p E) in H. discriminate H.
Qed.

Lemma neq_rnd_zero (a : number) :
  (a === ofZ 0)%js = true -> (rnd a === ofZ 0)%js = true.
Proof.
  destruct a as [|s|p]; cbn [rnd]; try (intro H; exact H).
  unfold ofZ. rewrite neq_Fin. intro H.
  rewrite (roundQ_zero p H). reflexivity.
Qed.

(** The base size in double precision is the exact one, rounded. *)
Lemma baseSizeCm64_rnd (item : PriceItem) :
  Double.baseSizeCm item
  = (rnd (fst (baseSizeCm item)), rnd (snd (baseSizeCm item))).
Proof.
  unfold Double.baseSizeCm, baseSizeCm, Double.parseSize, parseSize.
  destruct (_ || _); [reflexivity|].
  destruct (matchSize _) as [[g1 g2]|]; reflexivity.
Qed.

(** An entry the evaluator cannot price in exact arithmetic is not priced in
    double precision either, whatever the request. *)
Lemma calculate_none_64 (item : PriceItem) (w h w' h' tq : number) (q : Z) :
  calculatePriceForItem item w h q = None ->
  Double.calculatePriceForItem item w' h' tq = Returns None.
Proof.
  unfold calculatePriceForItem, Double.calculatePriceForItem.
  destruct (_ && _); [discriminate|].
  destruct (includesStr _ _); [|reflexivity].
  rewrite baseSizeCm64_rnd. destruct (baseSizeCm item) as [BW BH]. cbn [fst snd].
  destruct ((BW === ofZ 0)%js || (BH === ofZ 0)%js) eqn:E.
  - intros _. apply orb_true_iff in E as [E|E]; apply neq_rnd_zero in E; rewrite E;
      [reflexivity|apply orb_true_r || (rewrite orb_true_r; reflexivity)].
  - destruct (standardImposition _ _ _ _). discriminate.
Qed.

(** C10 (amended).  For a request that passes the input check and whose
    quantity is not one of the ten fixed tiers, the tier lookup yields -1 and
    the computation runs as for any quantity.  The request is not rejected
    as invalid.  For a quantity below 2^53 every evaluation of an entry
    returns, and the handler ends with results and without error as soon as
    the grouping completes and one filed entry of the category is priced.
    The only error the handler can end with is the absence of results, when
    no filed entry is priced.  No result carries a previous-quantity
    suggestion, and the next-quantity suggestion of a result is the one for
    1000, the first tier: present exactly when a price is found for 1000. *)
Theorem C10_unknown_quantity (data : list PriceItem)
  (width height category quantity : string) (q : Z) :
  truthy (parsedWidth64 width) = true ->
  truthy (parsedWidth64 height) = true ->
  parseInt quantity = Some q ->
  q <> 0 ->
  ~ In q QUANTITY_OPTIONS ->
  let st := handleCalculate data width height category quantity in
  let evaluation item :=
    Double.calculatePriceForItem item (parsedWidth64 width) (parsedWidth64 height)
      (Double.parseInt quantity) in
  let filed item :=
    In item data /\ kategori item = category /\ groupKeyOf category item <> None in
  indexOf QUANTITY_OPTIONS q = -1 /\
  hd_error QUANTITY_OPTIONS = Some 1000 /\
  error st <> Some MSG_INVALID_INPUT /\
  (q < 2 ^ 53 ->
   (forall item, evaluation item <> Diverges) /\
   (forall item res,
      groupItems data category <> None ->
      filed item -> evaluation item = Returns (Some res) ->
      results st <> [] /\ error st = None)) /\
  (error st <> None ->
   error st = Some MSG_NO_RESULTS /\ results st = [] /\
   forall item, filed item -> evaluation item = Returns None) /\
  (forall r, In r (results st) ->
     prevQty r = None /\
     nextQty r =
     match findBestPriceForQty (itemsOfKey category (paperName r) data)
             (parsedWidth width) (parsedWidth height) 1000 with
     | Some p => Some {| qty := 1000; qtyPrice := p |}
     | None => None
     end).
Proof.
  intros Hw Hh Hq Hq0 Hnot st evaluation filed.
  split; [apply indexOfFrom_notin; exact Hnot|]. split; [reflexivity|].
  assert (Hst : st = match groupItems data category with
                     | None => {| results := []; error := None |}
                     | Some groups =>
                         let calculated :=
                           calculatedResults groups category (parsedWidth width)
                             (parsedWidth height) q in
                         if (List.length calculated =? 0)%nat
                         then {| results := []; error := Some MSG_NO_RESULTS |}
                         else {| results := sortResults calculated; error := None |}
                     end).
  { subst st. unfold handleCalculate.
    unfold parsedWidth64, Double.parseFloat in Hw, Hh.
    apply truthy_rnd in Hw, Hh. rewrite Hw, Hh, Hq. cbn [truthyInt negb orb].
    apply Z.eqb_neq in Hq0. rewrite Hq0. reflexivity. }
  (* entries that no result comes from are not priced *)
  assert (Hnil : forall g,
             groupItems data category = Some g ->
             calculatedResults g category (parsedWidth width) (parsedWidth height) q = [] ->
             forall item, filed item -> evaluation item = Returns None).
  { intros g Eg El item [Hin [Hcat Hkey]].
    destruct (groupKeyOf category item) as [k|] eqn:Ek; [|contradiction].
    apply (calculate_none_64 item (parsedWidth width) (parsedWidth height) _ _ _ q).
    eapply (proj1 (calculatedResults_nil_iff g category _ _ q) El
              k (itemsOfKey category k data)).
    - apply (groupItems_groups data category g Eg). split; [|reflexivity].
      intro Hn.
      assert (Hi : In item (itemsOfKey category k data))
        by (apply itemsOfKey_In; auto).
      rewrite Hn in Hi. destruct Hi.
    - apply itemsOfKey_In. auto. }
  split; [|split; [|split]].
  - rewrite Hst. destruct (groupItems data category); cbv zeta;
      [destruct (_ =? _)%nat|]; discriminate.
  - intro Hb. split.
    + intro item. apply calculate64_returns.
      unfold Double.parseInt. rewrite Hq.
      eapply nle_trans; [apply rnd_mono|].
      * instantiate (1 := ofZ (2 ^ 53)). unfold ofZ. apply nle_Fin.
        rewrite <- Zle_Qle. lia.
      * vm_compute. reflexivity.
    + intros item res Hg Hf Hres. rewrite Hst.
      destruct (groupItems data category) as [g|] eqn:Eg; [|contradiction]. cbv zeta.
      destruct (List.length _ =? 0)%nat eqn:El; cbn [results error].
      * exfalso. apply Nat.eqb_eq, length_zero_iff_nil in El.
        rewrite (Hnil g eq_refl El item Hf) in Hres. discriminate Hres.
      * split; [|reflexivity]. intro Hs. apply sortResults_nil in Hs.
        rewrite Hs in El. discriminate El.
  - rewrite Hst.
    destruct (groupItems data category) as [g|] eqn:Eg; [|intro H; contradiction].
    cbv zeta. destruct (List.length _ =? 0)%nat eqn:El; cbn [results error];
      [|intro H; contradiction].
    intros _. split; [reflexivity|]. split; [reflexivity|].
    apply Nat.eqb_eq, length_zero_iff_nil in El.
    exact (Hnil g eq_refl El).
  - intros r Hr.
    destruct (results_group _ _ _ _ _ _ Hr) as [q' [res [Eq [_ [_ Hp]]]]].
    rewrite Hq in Eq. inversion Eq; subst q'.
    destruct (processGroup_fields _ _ _ _ _ _ _ Hp)
      as [res2 [item2 [_ [_ [_ [_ [_ [_ [_ [Hpv [Hn _]]]]]]]]]]].
    split.
    + rewrite Hpv. apply prevQtyFor_unknown. exact Hnot.
    + rewrite Hn. apply nextQtyFor_unknown_eq. exact Hnot.
Qed.

Lemma C10_unknown_quantity_witness :
  let st := handleCalculate demoCatalog "90" "54" "Kartvizit" "1500" in
  error st = None /\
  match results st with
  | r :: _ => prevQty r = None /\ option_map qty (nextQty r) = Some 1000
  | [] => False
  end.
Proof.
  cbv zeta.
  destruct (C10_unknown_quantity demoCatalog "90" "54" "Kartvizit" "1500" 1500)
    as [_ [_ [_ [Hruns [_ Hsug]]]]].
  - reflexivity.
  - reflexivity.
  - reflexivity.
  - discriminate.
  - simpl. intros [H|[H|[H|[H|[H|[H|[H|[H|[H|[H|[]]]]]]]]]]]; discriminate H.
  - destruct (Hruns ltac:(reflexivity)) as [_ Hres].
    destruct (Double.calculatePriceForItem demoCard1000 (parsedWidth64 "90")
                (parsedWidth64 "54") (Double.parseInt "1500"))
      as [[res|]|] eqn:E; try (vm_compute in E; discriminate E).
    destruct (Hres demoCard1000 res) as [Hne He].
    + vm_compute. discriminate.
    + split; [left; reflexivity|]. split; [reflexivity|]. vm_compute. discriminate.
    + exact E.
    + split; [exact He|].
      destruct (results (handleCalculate demoCatalog "90" "54" "Kartvizit" "1500"))
        as [|r l] eqn:Er; [contradiction|].
      destruct (Hsug r (or_introl eq_refl)) as [Hp Hn].
      split; [exact Hp|]. rewrite Hn.
      assert (En : paperName r = "350 gr. Mat").
      { revert Er. vm_compute. intro Er. injection Er as <- _. reflexivity. }
      rewrite En. vm_compute. reflexivity.
Defined.

(** C10 as stated fails in two ways, for valid requests with a quantity
    outside the tiers.  For a category the calculator does not price, every
    entry evaluates to null and the request for 1500 pieces ends with the
    "no results" error, as it would for any quantity.  And for a quantity of
    10^40 the computation does not end: on a business-card entry the request
    90 x 54 mm is a custom cut, the piece count is 10^37, its square root is
    beyond 2^53, where the counter of the layout loop stops growing. *)
Lemma C10_counterexample :
  (let st := handleCalculate [demoInvitation] "150" "150" "Davetiye" "1500" in
   truthy (parsedWidth64 "150") = true /\
   parseInt "1500" = Some 1500 /\
   ~ In 1500 QUANTITY_OPTIONS /\
   error st = Some MSG_NO_RESULTS /\ results st = []) /\
  (let quantity := String "1" (zeros 40) in
   truthy (parsedWidth64 "90") = true /\
   truthy (parsedWidth64 "54") = true /\
   parseInt quantity = Some (10 ^ 40) /\
   ~ In (10 ^ 40) QUANTITY_OPTIONS /\
   Double.calculatePriceForItem demoCard1000 (parsedWidth64 "90")
     (parsedWidth64 "54") (Double.parseInt quantity) = Diverges).
Proof.
  cbv zeta. split.
  - split; [reflexivity|]. split; [reflexivity|]. split.
    + simpl. intros [H|[H|[H|[H|[H|[H|[H|[H|[H|[H|[]]]]]]]]]]]; discriminate H.
    + split; reflexivity.
  - split; [reflexivity|]. split; [reflexivity|]. split; [reflexivity|]. split.
    + simpl. intros [H|[H|[H|[H|[H|[H|[H|[H|[H|[H|[]]]]]]]]]]]; discriminate H.
    + vm_compute. reflexivity.
Qed.

(* ================================================================== *)
(** ** The Magnet category *)

Lemma calculate_magnet (item : PriceItem) (w h : number) (q : Z) :
  isMagnetEntry item = true ->
  calculatePriceForItem item w h q =
  Some {| Outcome.price := (w * h * Fin 0.21 * (ofZ q / ofZ 1000))%js;
          Outcome.strategy := Formula;
          Outcome.needsCut := true;
          Outcome.details := FormulaDetails w h;
          Outcome.baseDims := None |}.
Proof.
  unfold isMagnetEntry, calculatePriceForItem. intros ->. reflexivity.
Qed.

Lemma bestCandidate_constant (items : list PriceItem) (w h : number) (q : Z)
  (o : Outcome.t) (first : PriceItem) (rest : list PriceItem) :
  items = first :: rest ->
  (forall i, In i items -> calculatePriceForItem i w h q = Some o) ->
  bestCandidate items w h q = Some (o, first).
Proof.
  intros -> Hall. unfold bestCandidate. cbn [fold_left].
  rewrite (Hall first (or_introl eq_refl)).
  assert (Hrest : forall i, In i rest -> calculatePriceForItem i w h q = Some o)
    by (intros i Hi; apply Hall; right; exact Hi).
  clear Hall. induction rest as [|x rest IH]; [reflexivity|].
  cbn [fold_left]. rewrite (Hrest x (or_introl eq_refl)), nlt_irrefl.
  apply IH. intros i Hi. apply Hrest. right. exact Hi.
Qed.

Lemma find_hd_filter {A : Type} (p : A -> bool) (l : list A) :
  find p l = hd_error (filter p l).
Proof.
  induction l as [|x l IH]; [reflexivity|]. cbn. destruct (p x); [reflexivity|exact IH].
Qed.

Lemma NoDup_constant {A : Type} (a x : A) (l : list A) :
  NoDup l -> (forall y, In y l -> y = a) -> In x l -> l = [x].
Proof.
  intros Hnd Hall Hin. destruct l as [|y l]; [destruct Hin|].
  inversion Hnd as [|? ? Hni Hnd']; subst.
  destruct l as [|z l].
  - destruct Hin as [->|[]]. reflexivity.
  - exfalso. apply Hni. left.
    rewrite (Hall y (or_introl eq_refl)), (Hall z (or_intror (or_introl eq_refl))).
    reflexivity.
Qed.

Lemma itemsOfKey_magnet (data : list PriceItem) :
  itemsOfKey "Magnet" "Özel Ebat Magnet" data = filter isMagnetEntry data.
Proof.
  unfold itemsOfKey. apply filter_ext. intro i.
  unfold isMagnetEntry, hasKey, groupKeyOf. cbn [String.eqb Ascii.eqb Bool.eqb].
  change (String.eqb "Magnet" "Magnet") with true. cbv iota.
  destruct (String.eqb (kategori i) "Magnet"); [|reflexivity]. cbn [andb].
  destruct (String.eqb (kod i) "MGN"); reflexivity.
Qed.

(** X20.  In the Magnet category there is exactly one result when there is any:
    it is named "Özel Ebat Magnet", its matched entry is the first
    custom-size magnet entry of the catalog, and its price is
    width * height * 0.21 * (quantity / 1000) whatever the catalog prices
    are. *)
Theorem magnet_single_result (data : list PriceItem)
  (width height quantity : string) (r : CalculationResult) :
  In r (results (handleCalculate data width height "Magnet" quantity)) ->
  results (handleCalculate data width height "Magnet" quantity) = [r] /\
  paperName r = "Özel Ebat Magnet" /\
  find isMagnetEntry data = Some (matchItem r) /\
  strategy r = Formula /\
  exists q,
    parseInt quantity = Some q /\
    calculatedPrice r =
    (parsedWidth width * parsedWidth height * Fin 0.21 * (ofZ q / ofZ 1000))%js.
Proof.
  intro Hr.
  assert (Hname : forall r', In r' (results (handleCalculate data width height "Magnet" quantity)) ->
                    paperName r' = "Özel Ebat Magnet").
  { intros r' Hr'. destruct (results_group _ _ _ _ _ _ Hr') as [q [res [_ [Hne [Hbest _]]]]].
    apply bestCandidate_origin in Hbest as [Hin _].
    apply itemsOfKey_In in Hin as [_ [_ Hkey]]. unfold groupKeyOf in Hkey.
    change (String.eqb "Magnet" "Magnet") with true in Hkey. cbv iota in Hkey.
    destruct (negb (String.eqb (kod (matchItem r')) "MGN")); [discriminate|].
    inversion Hkey. reflexivity. }
  split.
  { assert (Hm : map paperName (results (handleCalculate data width height "Magnet" quantity))
                 = [paperName r]).
    { apply (NoDup_constant "Özel Ebat Magnet").
      - apply results_names_NoDup.
      - intros y Hy. apply in_map_iff in Hy as [r' [<- Hr']]. apply Hname, Hr'.
      - apply in_map. exact Hr. }
    destruct (results _) as [|a [|b l]]; [destruct Hr| |discriminate Hm].
    destruct Hr as [->|[]]. reflexivity. }
  split; [apply Hname, Hr|].
  destruct (results_group _ _ _ _ _ _ Hr) as [q [res [Eq [Hne [Hbest Hp]]]]].
  rewrite (Hname r Hr), itemsOfKey_magnet in Hbest, Hne.
  destruct (filter isMagnetEntry data) as [|first rest] eqn:Ef; [contradiction|].
  erewrite bestCandidate_constant in Hbest; [|reflexivity|].
  2:{ intros i Hi. apply calculate_magnet. rewrite <- Ef in Hi.
      apply filter_In in Hi. tauto. }
  inversion Hbest as [[Hres Hitem]]. clear Hbest.
  split; [rewrite find_hd_filter, Ef, Hitem; reflexivity|].
  rewrite (Hname r Hr), itemsOfKey_magnet, Ef in Hp.
  destruct (processGroup_fields _ _ _ _ _ _ _ Hp)
    as [res2 [item2 [Hb2 [_ [_ [Hst [Hpr _]]]]]]].
  erewrite bestCandidate_constant in Hb2; [|reflexivity|].
  2:{ intros i Hi. apply calculate_magnet. rewrite <- Ef in Hi.
      apply filter_In in Hi. tauto. }
  inversion Hb2; subst res2. cbn in Hst, Hpr.
  split; [exact Hst|]. exists q. split; [exact Eq|exact Hpr].
Qed.

Lemma magnet_single_result_witness :
  match results (handleCalculate demoCatalog "100" "150" "Magnet" "2000") with
  | r :: l => l = [] /\ paperName r = "Özel Ebat Magnet"
  | [] => False
  end.
Proof.
  destruct (results (handleCalculate demoCatalog "100" "150" "Magnet" "2000"))
    as [|r l] eqn:E; [vm_compute in E; discriminate E|].
  destruct (magnet_single_result demoCatalog "100" "150" "2000" r) as [H1 [H2 _]].
  - rewrite E. left. reflexivity.
  - split; [|exact H2]. rewrite E in H1. inversion H1. reflexivity.
Defined.

(* ================================================================== *)
(** ** Scenarios *)

(** Business card of exactly the base size at the entry's own tier: one
    mold, standard fit, the entry's price. *)
Example scenario_card_exact :
  exists r,
    results (handleCalculate [demoCard1000] "86" "54" "Kartvizit" "1000") = [r] /\
    strategy r = Multiplier /\ needsCut r = false /\
    same (calculatedPrice r) (ofZ 550) /\
    exists m qr, details r = MultiplierDetails m qr /\ same m (ofZ 1).
Proof.
  vm_compute. eexists. split; [reflexivity|]. repeat split.
  eexists. eexists. split; reflexivity.
Qed.

(** The double of the base size in both axes: a 2 x 2 standard fit. *)
Example scenario_card_double :
  exists r,
    results (handleCalculate [demoCard1000] "172" "108" "Kartvizit" "1000") = [r] /\
    needsCut r = false /\
    exists m qr, details r = MultiplierDetails m qr /\ same m (ofZ 4).
Proof.
  vm_compute. eexists. split; [reflexivity|]. repeat split.
  eexists. eexists. split; reflexivity.
Qed.

(** 4 mm over the base width: a custom cut, and the snap to 86 x 54 mm is
    suggested at a lower price. *)
Example scenario_card_oversize :
  exists r s,
    results (handleCalculate [demoCard1000] "90" "54" "Kartvizit" "1000") = [r] /\
    needsCut r = true /\
    same (calculatedPrice r) (ofZ 1100) /\
    sizeSuggestion r = Some s /\
    same (Suggestion.w_mm s) (ofZ 86) /\ same (Suggestion.h_mm s) (ofZ 54) /\
    same (Suggestion.price s) (ofZ 550) /\
    same (Suggestion.savingPercent s) (ofZ 50).
Proof.
  vm_compute. eexists. eexists. split; [reflexivity|]. repeat split.
Qed.

(** The magnet formula through the handler. *)
Example scenario_magnet :
  exists r,
    results (handleCalculate demoCatalog "100" "150" "Magnet" "2000") = [r] /\
    strategy r = Formula /\ needsCut r = true /\
    same (calculatedPrice r) (ofZ 6300).
Proof.
  vm_compute. eexists. split; [reflexivity|]. repeat split.
Qed.
